(** * Battle engine and rating service of the Sudoku PvP mode

  A shallow embedding of [js/pvp.js]: the [PvP] module (battle session,
  countdown and AI timers, player operations, termination) and the
  [Player] module (rating and match history, levels, leagues, theme
  shop, streak, quest checks, profile figures), together with the
  handlers of [js/ui.js] that drive the engine from the battle screen.
  Left out: the parts of [Player] that depend on dates, storage and
  floating-point rewards ([load], [save], [awardForCompletion], the
  generation of the daily quests) and all writes to the document.

  Conventions of the embedding.
  - A JS object that is mutated in place becomes a record that is passed
    in and returned; the module-level variables [battle] and [data] are
    fields of the engine state [World].
  - A function body runs on the engine state and either returns or
    throws a [TypeError] (a property read on [undefined] or [null]);
    either way the state keeps what was assigned before. An index read
    that can throw yields an option, [None] being the throw.
  - Everything the code takes from its environment ([Math.random()],
    [new Date()], the puzzle generator) is an explicit argument of the
    operation that consumes it.
  - Integers are [Z]. A quotient is the exact rational, with the IEEE
    special values written out; where the code stores or shows a number
    computed from a quotient (the progress percentages, the win rate) it
    is rounded to a double after every operation, as the code's
    arithmetic does. *)

From Stdlib Require Import ZArith QArith Qround String Ascii Lia Lqa.
From stdpp Require Import base option list strings gmap pretty.

Local Open Scope Z_scope.

(* ===================================================================== *)
(** ** JavaScript values used by the engine *)
(* ===================================================================== *)

Module JS.

(** A grid cell as the code can read it: a number, or [undefined] when
    the index is outside the array. *)
Inductive jsval :=
| JUndef
| JNum (z : Z).

#[global] Instance jsval_eq_dec : EqDecision jsval.
Proof. solve_decision. Defined.

(** [a === b] on cells. *)
Definition strict_eq (a b : jsval) : bool := bool_decide (a = b).

Abbreviation Grid := (list (list jsval)).

(** [g[r][c]]: a missing row makes the second index a property read on
    [undefined], which throws; a missing column reads [undefined]. *)
Definition grid_get (g : Grid) (r c : nat) : option jsval :=
  match g !! r with
  | None => None
  | Some row => Some (default JUndef (row !! c))
  end.

(** [row[c] = v]: inside the array the slot is overwritten, past its end
    the array is extended and the skipped slots read [undefined]. *)
Definition array_set (row : list jsval) (c : nat) (v : jsval) : list jsval :=
  if (c <? length row)%nat then <[c := v]> row
  else row ++ replicate (c - length row) JUndef ++ [v].

(** [g[r][c] = v]; throws when row [r] does not exist. *)
Definition grid_set (g : Grid) (r c : nat) (v : jsval) : option Grid :=
  match g !! r with
  | None => None
  | Some row => Some (<[r := array_set row c v]> g)
  end.

(** The result of one [Math.random()] call: a rational in [[0,1)],
    written [rnd_num / (rnd_num + rnd_gap + 1)] so that the range is
    part of the type. *)
Record rnd := { rnd_num : nat; rnd_gap : nat }.

Definition rnd_den (u : rnd) : nat := (rnd_num u + rnd_gap u + 1)%nat.

Definition rnd_Q (u : rnd) : Q :=
  inject_Z (Z.of_nat (rnd_num u)) / inject_Z (Z.of_nat (rnd_den u)).

(** [Math.floor(Math.random() * n)] for a natural [n]. *)
Definition random_index (u : rnd) (n : nat) : nat :=
  (rnd_num u * n / rnd_den u)%nat.

(** Numbers that come out of a division: a rational, or one of the IEEE
    special values. *)
Inductive jsnum :=
| NaN
| PosInf
| NegInf
| Fin (q : Q).

(** [a / b] on integers, before it is rounded to a double: the real
    quotient. The engine compares two such quotients of one divisor;
    the operands are cell counts, far below 2^52, where rounding keeps
    the order of the two and keeps different ones apart. *)
Definition div (a b : Z) : jsnum :=
  if b =? 0 then
    if a =? 0 then NaN else if 0 <? a then PosInf else NegInf
  else Fin (inject_Z a / inject_Z b).

(** [x > y]; every comparison with [NaN] is false. *)
Definition gt (x y : jsnum) : bool :=
  match x, y with
  | Fin a, Fin b => negb (Qle_bool a b)
  | PosInf, Fin _ | PosInf, NegInf | Fin _, NegInf => true
  | _, _ => false
  end.

(** [x * 100], before it is rounded to a double. *)
Definition times100 (x : jsnum) : jsnum :=
  match x with
  | Fin q => Fin (q * 100)
  | other => other
  end.

(** *** Rounding to a double *)

(** [n / d * 2^k] as a fraction of integers. *)
Definition scale2 (n d k : Z) : Z * Z :=
  if 0 <=? k then (n * 2 ^ k, d) else (n, d * 2 ^ (- k)).

(** The binary exponent of [n / d] for positive [n] and [d]: the [e]
    with [2^e <= n / d < 2^(e+1)]. *)
Definition exponent (n d : Z) : Z :=
  let e := Z.log2 n - Z.log2 d in
  let '(n', d') := scale2 n d (- e) in
  if d' <=? n' then e else e - 1.

(** The integer nearest to [n / d], a tie going to the even one. *)
Definition nearest_even (n d : Z) : Z :=
  let f := n / d in
  let r := n mod d in
  if 2 * r <? d then f
  else if d <? 2 * r then f + 1
  else if Z.even f then f else f + 1.

(** The double nearest to [q]: a significand of 53 bits, round to
    nearest, ties to even. The exponent is not bounded: the numbers
    rounded are quotients of counts and their hundredfold, far from
    overflow and from the subnormal range. *)
Definition double (q : Q) : Q :=
  let n := Z.abs (Qnum q) in
  let d := Zpos (Qden q) in
  if n =? 0 then 0%Q else
  let e := exponent n d in
  let '(n', d') := scale2 n d (52 - e) in
  let m := nearest_even n' d' in
  let '(n'', d'') := scale2 m 1 (e - 52) in
  Qred (Qmake (Z.sgn (Qnum q) * n'') (Z.to_pos d'')).

#[global] Arguments double : simpl never.

(** The value an arithmetic operation returns: its exact result rounded
    to a double. *)
Definition to_double (x : jsnum) : jsnum :=
  match x with
  | Fin q => Fin (double q)
  | other => other
  end.

(** [Math.round(x)]: the nearest integer, halves upwards. *)
Definition round (x : jsnum) : jsnum :=
  match x with
  | Fin q => Fin (inject_Z (Qfloor (q + (1 # 2))))
  | other => other
  end.

(** [x || d] on a number: zero is falsy. *)
Definition or_default (x d : Z) : Z := if x =? 0 then d else x.

(** The names every object literal answers to besides its own keys: the
    members it inherits from [Object.prototype]. Each is a function, or
    the prototype itself for [__proto__]: a truthy value that is not a
    number and has no [min] or [max]. *)
Definition inherited_keys : list string :=
  [ "constructor"; "hasOwnProperty"; "isPrototypeOf";
    "propertyIsEnumerable"; "toLocaleString"; "toString"; "valueOf";
    "__proto__"; "__defineGetter__"; "__defineSetter__";
    "__lookupGetter__"; "__lookupSetter__" ]%string.

Definition inherited (key : string) : bool :=
  bool_decide (key ∈ inherited_keys).

(** [n.toString()] for an integer. *)
Definition to_string (n : Z) : string := pretty n.

(** [s.padStart(n, c)] for a one-character pad string. *)
Definition padStart (n : nat) (c : ascii) (s : string) : string :=
  String.append (string_of_list_ascii (replicate (n - String.length s) c)) s.

End JS.

(* ===================================================================== *)
(** ** Player: the persistent profile (rating part) *)
(* ===================================================================== *)

Module Player.

Inductive Result := Win | Lose | Draw.

#[global] Instance Result_eq_dec : EqDecision Result.
Proof. solve_decision. Defined.

(** The summary object [endBattle] hands to [updateELO]. [result] is
    [null] only if no branch of the result determination ran. *)
Record MatchData := {
  md_result : option Result;
  md_opponent : string;
  md_difficulty : string;
  md_playerProgress : JS.jsnum;
  md_aiProgress : JS.jsnum;
  md_timeUsed : Z
}.

(** An entry of [data.matchHistory]:
    [{...matchData, elo, eloDelta, date}]. *)
Record MatchRecord := {
  mr_match : MatchData;
  mr_elo : Z;
  mr_eloDelta : Z;
  mr_date : string
}.

(** [data], restricted to the fields the rating functions read or
    write; the streak, quest, theme and statistics fields are not
    touched by them. *)
Record Data := {
  xp : Z;
  coins : Z;
  level : Z;
  elo : Z;
  pvpWins : Z;
  pvpLosses : Z;
  pvpDraws : Z;
  matchHistory : list MatchRecord
}.

Definition createDefaultData : Data :=
  {| xp := 0; coins := 0; level := 0; elo := 1000;
     pvpWins := 0; pvpLosses := 0; pvpDraws := 0; matchHistory := [] |}.

(** [Math.floor(Math.sqrt(xp / 100))]; [xp] is never negative. *)
Definition levelFromXP (xp : Z) : Z := Z.sqrt (xp / 100).

(** [arr.pop()] when [arr.length > 20]. *)
Definition trim_history (h : list MatchRecord) : list MatchRecord :=
  if (20 <? length h)%nat then removelast h else h.

(** [updateELO(delta, matchData)]; [now] is [new Date().toISOString()].
    The final [save()] writes to storage and swallows any failure, so
    it leaves [data] as it is. *)
Definition updateELO (delta : Z) (matchData : MatchData) (now : string)
    (data : Data) : Data :=
  let elo' := Z.max 0 (JS.or_default (elo data) 1000 + delta) in
  let wins' :=
    match md_result matchData with
    | Some Win => JS.or_default (pvpWins data) 0 + 1
    | _ => pvpWins data
    end in
  let losses' :=
    match md_result matchData with
    | Some Lose => JS.or_default (pvpLosses data) 0 + 1
    | _ => pvpLosses data
    end in
  let draws' :=
    match md_result matchData with
    | Some Win | Some Lose => pvpDraws data
    | _ => JS.or_default (pvpDraws data) 0 + 1
    end in
  let entry :=
    {| mr_match := matchData; mr_elo := elo'; mr_eloDelta := delta;
       mr_date := now |} in
  let history' := trim_history (entry :: matchHistory data) in
  match md_result matchData with
  | Some Win =>
      {| xp := xp data + 75; coins := coins data + 15;
         level := levelFromXP (xp data + 75); elo := elo';
         pvpWins := wins'; pvpLosses := losses'; pvpDraws := draws';
         matchHistory := history' |}
  | _ =>
      {| xp := xp data; coins := coins data; level := level data;
         elo := elo';
         pvpWins := wins'; pvpLosses := losses'; pvpDraws := draws';
         matchHistory := history' |}
  end.

Definition getELO (data : Data) : Z := JS.or_default (elo data) 1000.

Definition getMatchHistory (data : Data) : list MatchRecord :=
  matchHistory data.

(** *** Levels *)

Definition xpForLevel (level : Z) : Z := level * level * 100.

(** *** Leagues *)

Record League := {
  league_id : string;
  league_name : string;
  league_icon : string;
  minELO : Z;
  league_color : string
}.

Definition LEAGUES : list League :=
  [ {| league_id := "bronze"; league_name := "Bronze"; league_icon := "🥉";
       minELO := 0; league_color := "#cd7f32" |};
    {| league_id := "silver"; league_name := "Silver"; league_icon := "🥈";
       minELO := 1200; league_color := "#c0c0c0" |};
    {| league_id := "gold"; league_name := "Gold"; league_icon := "🥇";
       minELO := 1500; league_color := "#ffd700" |};
    {| league_id := "diamond"; league_name := "Diamond"; league_icon := "💎";
       minELO := 1800; league_color := "#b9f2ff" |} ]%string.

(** The loop of [getLeague] over the indices [n - 1] down to 0: the first
    league whose threshold the rating reaches. *)
Fixpoint league_from (elo : Z) (n : nat) : option League :=
  match n with
  | O => None
  | S i =>
      match LEAGUES !! i with
      | Some l => if minELO l <=? elo then Some l else league_from elo i
      | None => league_from elo i
      end
  end.

(** [getLeague()]; after the loop comes [return LEAGUES[0]]. *)
Definition getLeague (data : Data) : option League :=
  match league_from (getELO data) (length LEAGUES) with
  | Some l => Some l
  | None => LEAGUES !! 0%nat
  end.

Record PvPRecord := { wins : Z; losses : Z; draws : Z }.

Definition getPvPRecord (data : Data) : PvPRecord :=
  {| wins := JS.or_default (pvpWins data) 0;
     losses := JS.or_default (pvpLosses data) 0;
     draws := JS.or_default (pvpDraws data) 0 |}.

(** *** The whole profile *)

Record Theme := {
  theme_id : string;
  theme_name : string;
  theme_description : string;
  price : Z;
  preview : list string
}.

Definition THEMES : list Theme :=
  [ {| theme_id := "default"; theme_name := "Midnight";
       theme_description := "Deep navy dark mode"; price := 0;
       preview := ["#0a0e1a"; "#1e2745"; "#6366f1"] |};
    {| theme_id := "neon"; theme_name := "Neon Pulse";
       theme_description := "Electric glow on black"; price := 50;
       preview := ["#0d0d0d"; "#1a1a2e"; "#39ff14"] |};
    {| theme_id := "woodcraft"; theme_name := "Woodcraft";
       theme_description := "Warm amber & natural tones"; price := 75;
       preview := ["#2c1810"; "#3d2914"; "#d4a056"] |};
    {| theme_id := "cyberpunk"; theme_name := "Cyberpunk";
       theme_description := "Purple & cyan neon city"; price := 100;
       preview := ["#0f0a1a"; "#1a1035"; "#e040fb"] |} ]%string.

(** [quest.params]: each template sets some of [n], [diff], [mins]; a
    missing one reads [undefined]. *)
Record QuestParams := {
  qp_n : option Z;
  qp_diff : option string;
  qp_mins : option Z
}.

Record Quest := {
  quest_id : string;
  quest_type : string;
  quest_text : string;
  quest_params : QuestParams;
  completed : bool;
  xpReward : Z;
  coinReward : Z
}.

(** [data.todayStats]. [puzzlesSolved] is an object used as a map from
    difficulty to count; [bestTime] is a number of seconds or [Infinity]
    ([None]). *)
Record TodayStats := {
  ts_date : option string;
  puzzlesSolved : gmap string Z;
  totalSolved : Z;
  usedNotes : bool;
  solvedNoHints : bool;
  solvedNoMistakes : bool;
  bestTime : option Z
}.

(** All of [data]: the rating fields of [Data] as [core], and the fields
    the remaining functions read or write. [questDate] and
    [questProgress] are only touched by the quest generator. *)
Record Profile := {
  core : Data;
  streak : Z;
  lastPlayedDate : option string;
  totalGamesPlayed : Z;
  totalGamesWon : Z;
  bestTimes : gmap string Z;
  unlockedThemes : list string;
  activeTheme : string;
  quests : list Quest;
  todayStats : TodayStats
}.

(** [createDefaultData()] with all its fields. *)
Definition createDefaultProfile : Profile :=
  {| core := createDefaultData;
     streak := 0;
     lastPlayedDate := None;
     totalGamesPlayed := 0;
     totalGamesWon := 0;
     bestTimes := ∅;
     unlockedThemes := ["default"%string];
     activeTheme := "default";
     quests := [];
     todayStats :=
       {| ts_date := None; puzzlesSolved := ∅; totalSolved := 0;
          usedNotes := false; solvedNoHints := false;
          solvedNoMistakes := false; bestTime := None |} |}.

Definition with_core (d : Data) (p : Profile) : Profile :=
  {| core := d; streak := streak p; lastPlayedDate := lastPlayedDate p;
     totalGamesPlayed := totalGamesPlayed p;
     totalGamesWon := totalGamesWon p; bestTimes := bestTimes p;
     unlockedThemes := unlockedThemes p; activeTheme := activeTheme p;
     quests := quests p; todayStats := todayStats p |}.

Definition with_coins (c : Z) (d : Data) : Data :=
  {| xp := xp d; coins := c; level := level d; elo := elo d;
     pvpWins := pvpWins d; pvpLosses := pvpLosses d;
     pvpDraws := pvpDraws d; matchHistory := matchHistory d |}.

Definition with_xp (x : Z) (d : Data) : Data :=
  {| xp := x; coins := coins d; level := level d; elo := elo d;
     pvpWins := pvpWins d; pvpLosses := pvpLosses d;
     pvpDraws := pvpDraws d; matchHistory := matchHistory d |}.

Definition with_streak (s : Z) (last : option string) (p : Profile)
    : Profile :=
  {| core := core p; streak := s; lastPlayedDate := last;
     totalGamesPlayed := totalGamesPlayed p;
     totalGamesWon := totalGamesWon p; bestTimes := bestTimes p;
     unlockedThemes := unlockedThemes p; activeTheme := activeTheme p;
     quests := quests p; todayStats := todayStats p |}.

Definition with_themes (unlocked : list string) (active : string)
    (p : Profile) : Profile :=
  {| core := core p; streak := streak p;
     lastPlayedDate := lastPlayedDate p;
     totalGamesPlayed := totalGamesPlayed p;
     totalGamesWon := totalGamesWon p; bestTimes := bestTimes p;
     unlockedThemes := unlocked; activeTheme := active;
     quests := quests p; todayStats := todayStats p |}.

Definition with_quests (qs : list Quest) (p : Profile) : Profile :=
  {| core := core p; streak := streak p;
     lastPlayedDate := lastPlayedDate p;
     totalGamesPlayed := totalGamesPlayed p;
     totalGamesWon := totalGamesWon p; bestTimes := bestTimes p;
     unlockedThemes := unlockedThemes p; activeTheme := activeTheme p;
     quests := qs; todayStats := todayStats p |}.

(** *** Streak *)

(** [updateStreak()]; [today] and [yesterday] are [getTodayStr()] and
    [getYesterdayStr()]. A [null] or empty [lastPlayedDate] is falsy. *)
Definition updateStreak (today yesterday : string) (p : Profile) : Profile :=
  if bool_decide (lastPlayedDate p = Some today) then p
  else if bool_decide (lastPlayedDate p = Some yesterday) then p
  else
    match lastPlayedDate p with
    | Some last =>
        if negb (String.eqb last "") && negb (String.eqb last today)
        then with_streak 0 (lastPlayedDate p) p
        else p
    | None => p
    end.

(** [recordPlay()]. *)
Definition recordPlay (today yesterday : string) (p : Profile) : Profile :=
  if negb (bool_decide (lastPlayedDate p = Some today)) then
    if bool_decide (lastPlayedDate p = Some yesterday)
    then with_streak (streak p + 1) (Some today) p
    else with_streak 1 (Some today) p
  else p.

(** *** Daily quests *)

(** [hash |= 0] and the operand conversion of [<<]: the signed 32-bit
    integer congruent to [z]. *)
Definition to_int32 (z : Z) : Z := (z + 2 ^ 31) mod 2 ^ 32 - 2 ^ 31.

(** [hashStr(str)] on the UTF-16 code units of [str]. *)
Definition hashStr (str : list Z) : Z :=
  Z.abs
    (fold_left
       (fun hash code => to_int32 (to_int32 (to_int32 hash * 2 ^ 5) - hash + code))
       str 0).

(** The [switch] of [checkQuests] on the quest type. A comparison with a
    missing parameter ([undefined]) is false, and so is [Infinity <= x].
    In [puzzlesSolved[p.diff] || 0] a key the object does not own reads
    [undefined], hence 0, unless it names an inherited member: that one
    is truthy and compares as [NaN], so the quest is not done. *)
Definition quest_done (ts : TodayStats) (q : Quest) : bool :=
  let p := quest_params q in
  if String.eqb (quest_type q) "solve_count" then
    match qp_n p with
    | Some n =>
        let key := default "undefined"%string (qp_diff p) in
        match puzzlesSolved ts !! key with
        | Some solved => n <=? JS.or_default solved 0
        | None => if JS.inherited key then false else n <=? 0
        end
    | None => false
    end
  else if String.eqb (quest_type q) "no_hints" then solvedNoHints ts
  else if String.eqb (quest_type q) "under_time" then
    match bestTime ts, qp_mins p with
    | Some t, Some mins => t <=? mins * 60
    | _, _ => false
    end
  else if String.eqb (quest_type q) "use_notes" then usedNotes ts
  else if String.eqb (quest_type q) "no_mistakes" then solvedNoMistakes ts
  else if String.eqb (quest_type q) "solve_any" then
    match qp_n p with
    | Some n => n <=? totalSolved ts
    | None => false
    end
  else false.

Definition complete (q : Quest) : Quest :=
  {| quest_id := quest_id q; quest_type := quest_type q;
     quest_text := quest_text q; quest_params := quest_params q;
     completed := true; xpReward := xpReward q;
     coinReward := coinReward q |}.

(** The loop of [checkQuests] over [data.quests]: the quests after the
    pass, the rewards paid and the quests completed by it. *)
Fixpoint check_each (ts : TodayStats) (qs : list Quest)
    : list Quest * Z * Z * list Quest :=
  match qs with
  | [] => ([], 0, 0, [])
  | q :: rest =>
      let '(rest', xp', coins', done) := check_each ts rest in
      if completed q then (q :: rest', xp', coins', done)
      else if quest_done ts q then
        (complete q :: rest', xpReward q + xp', coinReward q + coins',
         complete q :: done)
      else (q :: rest', xp', coins', done)
  end.

(** [checkQuests()]: the updated profile and [completedQuests]. *)
Definition checkQuests (p : Profile) : Profile * list Quest :=
  let '(qs, xp', coins', done) := check_each (todayStats p) (quests p) in
  (with_quests qs
     (with_core (with_coins (coins (core p) + coins')
                   (with_xp (xp (core p) + xp') (core p))) p),
   done).

(** *** Shop *)

Inductive Purchase :=
| Bought
| Refused (reason : string).

(** [buyTheme(themeId)]. *)
Definition buyTheme (themeId : string) (p : Profile) : Purchase * Profile :=
  match List.find (fun t => String.eqb (theme_id t) themeId) THEMES with
  | None => (Refused "Theme not found", p)
  | Some theme =>
      if bool_decide (themeId ∈ unlockedThemes p)
      then (Refused "Already owned", p)
      else if coins (core p) <? price theme
      then (Refused "Not enough coins", p)
      else
        (Bought,
         with_themes (unlockedThemes p ++ [themeId]) (activeTheme p)
           (with_core (with_coins (coins (core p) - price theme) (core p)) p))
  end.

(** [equipTheme(themeId)]. *)
Definition equipTheme (themeId : string) (p : Profile) : bool * Profile :=
  if negb (bool_decide (themeId ∈ unlockedThemes p)) then (false, p)
  else (true, with_themes (unlockedThemes p) themeId p).

(** *** Profile figures *)

Record XPProgress := { progress : Z; needed : Z; percent : JS.jsnum }.

(** [Math.min(100, x)]. *)
Definition min100 (x : JS.jsnum) : JS.jsnum :=
  match x with
  | JS.Fin q => if Qle_bool q 100 then JS.Fin q else JS.Fin 100
  | JS.PosInf => JS.Fin 100
  | other => other
  end.

(** [getXPProgress()]. [percent] is the exact value of
    [(progress / needed) * 100]; the double the code returns is within
    a rounding in the last place of it. *)
Definition getXPProgress (p : Profile) : XPProgress :=
  let currentLevelXP := xpForLevel (level (core p)) in
  let nextLevelXP := xpForLevel (level (core p) + 1) in
  let progress := xp (core p) - currentLevelXP in
  let needed := nextLevelXP - currentLevelXP in
  {| progress := progress; needed := needed;
     percent := min100 (JS.times100 (JS.div progress needed)) |}.

Record Stats := {
  st_totalGamesPlayed : Z;
  st_totalGamesWon : Z;
  winRate : JS.jsnum;
  st_bestTimes : gmap string Z;
  st_streak : Z;
  st_level : Z;
  st_xp : Z
}.

(** [getStats()]. *)
Definition getStats (p : Profile) : Stats :=
  {| st_totalGamesPlayed := totalGamesPlayed p;
     st_totalGamesWon := totalGamesWon p;
     winRate :=
       if 0 <? totalGamesPlayed p
       then JS.round (JS.to_double (JS.times100 (JS.to_double
              (JS.div (totalGamesWon p) (totalGamesPlayed p)))))
       else JS.Fin 0;
     st_bestTimes := bestTimes p;
     st_streak := streak p;
     st_level := level (core p);
     st_xp := xp (core p) |}.

(** [Player.formatTime(sec)] for an integer number of seconds; [None]
    stands for [undefined] and for [Infinity], which take the first
    branch like 0 does. *)
Definition formatTime (sec : option Z) : string :=
  match sec with
  | None => "--:--"
  | Some n =>
      if n =? 0 then "--:--"
      else
        String.append (JS.padStart 2 "0" (JS.to_string (n / 60)))
          (String.append ":" (JS.padStart 2 "0" (JS.to_string (Z.rem n 60))))
  end.

End Player.

(* ===================================================================== *)
(** ** PvP: the battle engine *)
(* ===================================================================== *)

Module PvP.

Import JS.

Definition BATTLE_TIME : Z := 600.

Definition AI_NAMES : list string :=
  ["SudokuMaster"; "GridNinja"; "PuzzleWiz"; "NumberCrunch";
   "BrainStorm"; "LogicLord"; "CellSolver"; "DigitDemon";
   "MindBender"; "PuzzlePro"; "GridGenius"; "NumWizard";
   "SolveKing"; "PuzzleAce"; "BoardBoss"; "ClueCracker"]%string.

Definition AI_AVATARS : list string :=
  ["🤖"; "🧠"; "🦊"; "🐉"; "👾"; "🎭"; "🦉"; "🧙"]%string.

(** A value of [aiSpeed]: an entry [{ min, max }] of the table, or a
    member inherited from [Object.prototype], whose [min] and [max] read
    [undefined]. *)
Inductive Speed :=
| Range (min max : Z)
| Member.

(** [AI_SPEED[difficulty]]: the table's own entry, else the member the
    object literal inherits under that name, else [undefined] ([None]). *)
Definition AI_SPEED (difficulty : string) : option Speed :=
  if String.eqb difficulty "easy" then Some (Range 2000 5000)
  else if String.eqb difficulty "medium" then Some (Range 3000 7000)
  else if String.eqb difficulty "hard" then Some (Range 5000 10000)
  else if String.eqb difficulty "expert" then Some (Range 7000 14000)
  else if String.eqb difficulty "evil" then Some (Range 10000 20000)
  else if inherited difficulty then Some Member
  else None.

(** [min + Math.random() * (max - min)] for [{ min, max } = speed]; with
    both [undefined] the difference, the product and the sum are [NaN].
    A finite delay is the exact value; the double handed to
    [setTimeout] is within rounding of it. *)
Definition ai_delay (speed : Speed) (u : rnd) : jsnum :=
  match speed with
  | Range min max =>
      Fin (inject_Z min + rnd_Q u * (inject_Z max - inject_Z min))
  | Member => NaN
  end.

(** An entry of [emptyCells]: [{ row, col, val }]. *)
Record Cell := { row : nat; col : nat; val : jsval }.

(** What [SudokuEngine.generate] returns. *)
Record PuzzleData := { gen_puzzle : Grid; gen_solution : Grid }.

(** Modelled from the spec: [SudokuEngine.cloneGrid] is not part of the
    sources at hand; the spec gives it as [cloneGrid(grid) → deep copy].
    A copy of an immutable value is the value. *)
Definition cloneGrid (g : Grid) : Grid := g.

Record Battle := {
  seed : nat;
  difficulty : string;
  puzzle : JS.Grid;
  solution : JS.Grid;
  original : JS.Grid;
  playerBoard : JS.Grid;
  playerCellsFilled : Z;
  playerMistakes : Z;
  playerFinished : bool;
  aiName : string;
  aiAvatar : string;
  aiCellsFilled : Z;
  aiTotalCells : Z;
  aiCellsQueue : list Cell;
  aiFinished : bool;
  aiIntervalId : option nat;
  aiSpeed : Speed;
  timeRemaining : Z;
  timerIntervalId : option nat;
  started : bool;
  ended : bool;
  result : option Player.Result;
  eloDelta : Z
}.

(** Field assignments [battle.f = v]. *)
Definition set_playerBoard (v : JS.Grid) (b : Battle) : Battle :=
  {| seed := seed b; difficulty := difficulty b; puzzle := puzzle b;
     solution := solution b; original := original b;
     playerBoard := v; playerCellsFilled := playerCellsFilled b;
     playerMistakes := playerMistakes b;
     playerFinished := playerFinished b; aiName := aiName b;
     aiAvatar := aiAvatar b; aiCellsFilled := aiCellsFilled b;
     aiTotalCells := aiTotalCells b; aiCellsQueue := aiCellsQueue b;
     aiFinished := aiFinished b; aiIntervalId := aiIntervalId b;
     aiSpeed := aiSpeed b; timeRemaining := timeRemaining b;
     timerIntervalId := timerIntervalId b; started := started b;
     ended := ended b; result := result b; eloDelta := eloDelta b |}.

Definition set_playerCellsFilled (v : Z) (b : Battle) : Battle :=
  {| seed := seed b; difficulty := difficulty b; puzzle := puzzle b;
     solution := solution b; original := original b;
     playerBoard := playerBoard b; playerCellsFilled := v;
     playerMistakes := playerMistakes b;
     playerFinished := playerFinished b; aiName := aiName b;
     aiAvatar := aiAvatar b; aiCellsFilled := aiCellsFilled b;
     aiTotalCells := aiTotalCells b; aiCellsQueue := aiCellsQueue b;
     aiFinished := aiFinished b; aiIntervalId := aiIntervalId b;
     aiSpeed := aiSpeed b; timeRemaining := timeRemaining b;
     timerIntervalId := timerIntervalId b; started := started b;
     ended := ended b; result := result b; eloDelta := eloDelta b |}.

Definition set_playerMistakes (v : Z) (b : Battle) : Battle :=
  {| seed := seed b; difficulty := difficulty b; puzzle := puzzle b;
     solution := solution b; original := original b;
     playerBoard := playerBoard b;
     playerCellsFilled := playerCellsFilled b; playerMistakes := v;
     playerFinished := playerFinished b; aiName := aiName b;
     aiAvatar := aiAvatar b; aiCellsFilled := aiCellsFilled b;
     aiTotalCells := aiTotalCells b; aiCellsQueue := aiCellsQueue b;
     aiFinished := aiFinished b; aiIntervalId := aiIntervalId b;
     aiSpeed := aiSpeed b; timeRemaining := timeRemaining b;
     timerIntervalId := timerIntervalId b; started := started b;
     ended := ended b; result := result b; eloDelta := eloDelta b |}.

Definition set_playerFinished (v : bool) (b : Battle) : Battle :=
  {| seed := seed b; difficulty := difficulty b; puzzle := puzzle b;
     solution := solution b; original := original b;
     playerBoard := playerBoard b;
     playerCellsFilled := playerCellsFilled b;
     playerMistakes := playerMistakes b; playerFinished := v;
     aiName := aiName b; aiAvatar := aiAvatar b;
     aiCellsFilled := aiCellsFilled b;
     aiTotalCells := aiTotalCells b; aiCellsQueue := aiCellsQueue b;
     aiFinished := aiFinished b; aiIntervalId := aiIntervalId b;
     aiSpeed := aiSpeed b; timeRemaining := timeRemaining b;
     timerIntervalId := timerIntervalId b; started := started b;
     ended := ended b; result := result b; eloDelta := eloDelta b |}.

Definition set_aiCellsFilled (v : Z) (b : Battle) : Battle :=
  {| seed := seed b; difficulty := difficulty b; puzzle := puzzle b;
     solution := solution b; original := original b;
     playerBoard := playerBoard b;
     playerCellsFilled := playerCellsFilled b;
     playerMistakes := playerMistakes b;
     playerFinished := playerFinished b; aiName := aiName b;
     aiAvatar := aiAvatar b; aiCellsFilled := v;
     aiTotalCells := aiTotalCells b; aiCellsQueue := aiCellsQueue b;
     aiFinished := aiFinished b; aiIntervalId := aiIntervalId b;
     aiSpeed := aiSpeed b; timeRemaining := timeRemaining b;
     timerIntervalId := timerIntervalId b; started := started b;
     ended := ended b; result := result b; eloDelta := eloDelta b |}.

Definition set_aiFinished (v : bool) (b : Battle) : Battle :=
  {| seed := seed b; difficulty := difficulty b; puzzle := puzzle b;
     solution := solution b; original := original b;
     playerBoard := playerBoard b;
     playerCellsFilled := playerCellsFilled b;
     playerMistakes := playerMistakes b;
     playerFinished := playerFinished b; aiName := aiName b;
     aiAvatar := aiAvatar b; aiCellsFilled := aiCellsFilled b;
     aiTotalCells := aiTotalCells b; aiCellsQueue := aiCellsQueue b;
     aiFinished := v; aiIntervalId := aiIntervalId b;
     aiSpeed := aiSpeed b; timeRemaining := timeRemaining b;
     timerIntervalId := timerIntervalId b; started := started b;
     ended := ended b; result := result b; eloDelta := eloDelta b |}.

Definition set_aiIntervalId (v : option nat) (b : Battle) : Battle :=
  {| seed := seed b; difficulty := difficulty b; puzzle := puzzle b;
     solution := solution b; original := original b;
     playerBoard := playerBoard b;
     playerCellsFilled := playerCellsFilled b;
     playerMistakes := playerMistakes b;
     playerFinished := playerFinished b; aiName := aiName b;
     aiAvatar := aiAvatar b; aiCellsFilled := aiCellsFilled b;
     aiTotalCells := aiTotalCells b; aiCellsQueue := aiCellsQueue b;
     aiFinished := aiFinished b; aiIntervalId := v;
     aiSpeed := aiSpeed b; timeRemaining := timeRemaining b;
     timerIntervalId := timerIntervalId b; started := started b;
     ended := ended b; result := result b; eloDelta := eloDelta b |}.

Definition set_timeRemaining (v : Z) (b : Battle) : Battle :=
  {| seed := seed b; difficulty := difficulty b; puzzle := puzzle b;
     solution := solution b; original := original b;
     playerBoard := playerBoard b;
     playerCellsFilled := playerCellsFilled b;
     playerMistakes := playerMistakes b;
     playerFinished := playerFinished b; aiName := aiName b;
     aiAvatar := aiAvatar b; aiCellsFilled := aiCellsFilled b;
     aiTotalCells := aiTotalCells b; aiCellsQueue := aiCellsQueue b;
     aiFinished := aiFinished b; aiIntervalId := aiIntervalId b;
     aiSpeed := aiSpeed b; timeRemaining := v;
     timerIntervalId := timerIntervalId b; started := started b;
     ended := ended b; result := result b; eloDelta := eloDelta b |}.

Definition set_timerIntervalId (v : option nat) (b : Battle) : Battle :=
  {| seed := seed b; difficulty := difficulty b; puzzle := puzzle b;
     solution := solution b; original := original b;
     playerBoard := playerBoard b;
     playerCellsFilled := playerCellsFilled b;
     playerMistakes := playerMistakes b;
     playerFinished := playerFinished b; aiName := aiName b;
     aiAvatar := aiAvatar b; aiCellsFilled := aiCellsFilled b;
     aiTotalCells := aiTotalCells b; aiCellsQueue := aiCellsQueue b;
     aiFinished := aiFinished b; aiIntervalId := aiIntervalId b;
     aiSpeed := aiSpeed b; timeRemaining := timeRemaining b;
     timerIntervalId := v; started := started b; ended := ended b;
     result := result b; eloDelta := eloDelta b |}.

Definition set_started (v : bool) (b : Battle) : Battle :=
  {| seed := seed b; difficulty := difficulty b; puzzle := puzzle b;
     solution := solution b; original := original b;
     playerBoard := playerBoard b;
     playerCellsFilled := playerCellsFilled b;
     playerMistakes := playerMistakes b;
     playerFinished := playerFinished b; aiName := aiName b;
     aiAvatar := aiAvatar b; aiCellsFilled := aiCellsFilled b;
     aiTotalCells := aiTotalCells b; aiCellsQueue := aiCellsQueue b;
     aiFinished := aiFinished b; aiIntervalId := aiIntervalId b;
     aiSpeed := aiSpeed b; timeRemaining := timeRemaining b;
     timerIntervalId := timerIntervalId b; started := v;
     ended := ended b; result := result b; eloDelta := eloDelta b |}.

Definition set_ended (v : bool) (b : Battle) : Battle :=
  {| seed := seed b; difficulty := difficulty b; puzzle := puzzle b;
     solution := solution b; original := original b;
     playerBoard := playerBoard b;
     playerCellsFilled := playerCellsFilled b;
     playerMistakes := playerMistakes b;
     playerFinished := playerFinished b; aiName := aiName b;
     aiAvatar := aiAvatar b; aiCellsFilled := aiCellsFilled b;
     aiTotalCells := aiTotalCells b; aiCellsQueue := aiCellsQueue b;
     aiFinished := aiFinished b; aiIntervalId := aiIntervalId b;
     aiSpeed := aiSpeed b; timeRemaining := timeRemaining b;
     timerIntervalId := timerIntervalId b; started := started b;
     ended := v; result := result b; eloDelta := eloDelta b |}.

Definition set_result (v : option Player.Result) (b : Battle) : Battle :=
  {| seed := seed b; difficulty := difficulty b; puzzle := puzzle b;
     solution := solution b; original := original b;
     playerBoard := playerBoard b;
     playerCellsFilled := playerCellsFilled b;
     playerMistakes := playerMistakes b;
     playerFinished := playerFinished b; aiName := aiName b;
     aiAvatar := aiAvatar b; aiCellsFilled := aiCellsFilled b;
     aiTotalCells := aiTotalCells b; aiCellsQueue := aiCellsQueue b;
     aiFinished := aiFinished b; aiIntervalId := aiIntervalId b;
     aiSpeed := aiSpeed b; timeRemaining := timeRemaining b;
     timerIntervalId := timerIntervalId b; started := started b;
     ended := ended b; result := v; eloDelta := eloDelta b |}.

Definition set_eloDelta (v : Z) (b : Battle) : Battle :=
  {| seed := seed b; difficulty := difficulty b; puzzle := puzzle b;
     solution := solution b; original := original b;
     playerBoard := playerBoard b;
     playerCellsFilled := playerCellsFilled b;
     playerMistakes := playerMistakes b;
     playerFinished := playerFinished b; aiName := aiName b;
     aiAvatar := aiAvatar b; aiCellsFilled := aiCellsFilled b;
     aiTotalCells := aiTotalCells b; aiCellsQueue := aiCellsQueue b;
     aiFinished := aiFinished b; aiIntervalId := aiIntervalId b;
     aiSpeed := aiSpeed b; timeRemaining := timeRemaining b;
     timerIntervalId := timerIntervalId b; started := started b;
     ended := ended b; result := result b; eloDelta := v |}.
(** *** Engine state *)

(** A function value handed in by the caller ([Some f], named by a
    handle) or a missing argument. *)
Definition callback := option nat.

(** The closures armed by [beginBattle] and [scheduleNextAICell]. Both
    read the module variable [battle] when they run; what they capture
    is only the caller's callbacks. *)
Inductive TimerBody :=
| Countdown (onTimerTick onBattleEnd : callback)
| AIStep (onAIProgress onBattleEnd : callback).

Record Timer := {
  timer_id : nat;
  timer_body : TimerBody;
  timer_delay : jsnum
}.

(** Calls that leave the engine, newest first in [calls]. *)
Inductive Effect :=
| OnTimerTick (f : nat) (remaining : Z)
| OnAIProgress (f : nat) (filled total : Z)
| OnBattleEnd (f : nat) (b : Battle)
| UpdateELO (delta : Z) (matchData : Player.MatchData).

Record World := {
  battle : option Battle;          (* let battle = null *)
  data : Player.Data;              (* Player's data *)
  timers : list Timer;             (* armed timers of the host *)
  nextTimerId : nat;
  calls : list Effect
}.

Definition initial_world : World :=
  {| battle := None; data := Player.createDefaultData; timers := [];
     nextTimerId := 1; calls := [] |}.

Definition with_battle (o : option Battle) (w : World) : World :=
  {| battle := o; data := data w; timers := timers w;
     nextTimerId := nextTimerId w; calls := calls w |}.

Definition with_data (d : Player.Data) (w : World) : World :=
  {| battle := battle w; data := d; timers := timers w;
     nextTimerId := nextTimerId w; calls := calls w |}.

Definition with_timers (ts : list Timer) (n : nat) (w : World) : World :=
  {| battle := battle w; data := data w; timers := ts;
     nextTimerId := n; calls := calls w |}.

Definition with_calls (cs : list Effect) (w : World) : World :=
  {| battle := battle w; data := data w; timers := timers w;
     nextTimerId := nextTimerId w; calls := cs |}.

(** *** Computations on the engine state

    A function body either returns a value or throws; in both cases
    the state holds whatever was assigned up to that point. *)

Inductive outcome (A : Type) :=
| Return (a : A) (w : World)
| Throw (w : World).
Arguments Return {A} a w.
Arguments Throw {A} w.

Definition world_of {A} (o : outcome A) : World :=
  match o with Return _ w => w | Throw w => w end.

Definition value_of {A} (o : outcome A) : option A :=
  match o with Return a _ => Some a | Throw _ => None end.

Definition M (A : Type) : Type := World → outcome A.

Definition ret {A} (a : A) : M A := fun w => Return a w.

Definition bind {A B} (m : M A) (k : A → M B) : M B :=
  fun w => match m w with
           | Return a w' => k a w'
           | Throw w' => Throw w'
           end.

Notation "'let!' x ':=' m 'in' k" := (bind m (fun x => k))
  (at level 10, x name, m at level 100, k at level 200).
Notation "m '>>' k" := (bind m (fun _ => k))
  (at level 100, k at level 200, right associativity).

(** An index or property read that throws when it has no base. *)
Definition lift {A} (o : option A) : M A :=
  fun w => match o with Some a => Return a w | None => Throw w end.

(** [battle] as a truthiness test: [!battle]. *)
Definition read_battle : M (option Battle) := fun w => Return (battle w) w.

(** [battle.field]: throws on [null]. *)
Definition deref_battle : M Battle := fun w => lift (battle w) w.

(** [battle.field = v]. *)
Definition assign (f : Battle → Battle) : M unit :=
  fun w => match battle w with
           | Some b => Return tt (with_battle (Some (f b)) w)
           | None => Throw w
           end.

Definition call (e : Effect) : M unit :=
  fun w => Return tt (with_calls (e :: calls w) w).

(** [if (f) f(args)]. *)
Definition call_if (f : callback) (e : nat → Effect) : M unit :=
  match f with
  | Some h => call (e h)
  | None => ret tt
  end.

(** [setInterval] and [setTimeout]: arm a timer under a fresh id. *)
Definition set_timer (body : TimerBody) (delay : jsnum) : M nat :=
  fun w =>
    let id := nextTimerId w in
    Return id
      (with_timers
         ({| timer_id := id; timer_body := body; timer_delay := delay |}
            :: timers w)
         (S id) w).

Definition disarm (id : nat) (ts : list Timer) : list Timer :=
  filter (fun t => timer_id t ≠ id) ts.

(** [clearInterval(id)] and [clearTimeout(id)]; [null] and the ids of
    timers that are gone are ignored. *)
Definition clear_timer (id : option nat) : M unit :=
  fun w =>
    match id with
    | Some i => Return tt (with_timers (disarm i (timers w)) (nextTimerId w) w)
    | None => Return tt w
    end.

(** *** startBattle *)

(** The cells visited by [for r in 0..8] / [for c in 0..8], in the
    order of the loops. *)
Definition all_cells : list (nat * nat) :=
  r ← seq 0 9; c ← seq 0 9; [(r, c)].

(** One pass of the inner loop body of [startBattle]:
    [if (data.puzzle[r][c] === 0) emptyCells.push({row, col, val})]. *)
Definition scan_cell (d : PuzzleData) (emptyCells : list Cell)
    (rc : nat * nat) : option (list Cell) :=
  p ← grid_get (gen_puzzle d) rc.1 rc.2;
  if strict_eq p (JNum 0) then
    v ← grid_get (gen_solution d) rc.1 rc.2;
    Some (emptyCells ++ [{| row := rc.1; col := rc.2; val := v |}])
  else Some emptyCells.

Fixpoint scan_cells (d : PuzzleData) (cells : list (nat * nat))
    (emptyCells : list Cell) : option (list Cell) :=
  match cells with
  | [] => Some emptyCells
  | rc :: rest =>
      match scan_cell d emptyCells rc with
      | Some acc => scan_cells d rest acc
      | None => None
      end
  end.

(** [[arr[i], arr[j]] = [arr[j], arr[i]]]. The loop of [shuffleArray]
    only produces [j <= i < arr.length], so both reads hit an element. *)
Definition swap {A} (arr : list A) (i j : nat) : list A :=
  match arr !! i, arr !! j with
  | Some x, Some y => <[j := x]> (<[i := y]> arr)
  | _, _ => arr
  end.

(** The loop of [shuffleArray] from index [i] down to 1; [rand k] is the
    result of the [k]-th call of [Math.random()]. *)
Fixpoint shuffle_from {A} (i : nat) (rand : nat → rnd) (k : nat)
    (arr : list A) : list A :=
  match i with
  | O => arr
  | S i' =>
      let j := random_index (rand k) (i + 1) in
      shuffle_from i' rand (S k) (swap arr i j)
  end.

Definition shuffleArray {A} (rand : nat → rnd) (arr : list A) : list A :=
  shuffle_from (length arr - 1) rand 0 arr.

Section WithGenerator.

(** [SudokuEngine.generate(difficulty, seed)], an external
    collaborator. *)
Variable generate : string → nat → PuzzleData.

(** [startBattle(difficulty)]. [seed] is the result of
    [SudokuEngine.randomSeed()] and [rand] gives the successive
    results of [Math.random()] during the call: the shuffle takes the
    first [emptyCells.length - 1], then come the opponent's name and
    avatar. *)
Definition startBattle (difficulty : string) (seed : nat)
    (rand : nat → rnd) : M Battle :=
  let d := generate difficulty seed in
  let! emptyCells := lift (scan_cells d all_cells []) in
  let queue := shuffleArray rand emptyCells in
  let k := (length emptyCells - 1)%nat in
  let aiName :=
    default ""%string
      (AI_NAMES !! random_index (rand k) (length AI_NAMES)) in
  let aiAvatar :=
    default ""%string
      (AI_AVATARS !! random_index (rand (S k)) (length AI_AVATARS)) in
  let speed :=
    match AI_SPEED difficulty with
    | Some s => s
    | None => Range 3000 7000
    end in
  let b :=
    {| seed := seed;
       difficulty := difficulty;
       puzzle := gen_puzzle d;
       solution := gen_solution d;
       original := cloneGrid (gen_puzzle d);
       playerBoard := cloneGrid (gen_puzzle d);
       playerCellsFilled := 0;
       playerMistakes := 0;
       playerFinished := false;
       aiName := aiName;
       aiAvatar := aiAvatar;
       aiCellsFilled := 0;
       aiTotalCells := Z.of_nat (length queue);
       aiCellsQueue := queue;
       aiFinished := false;
       aiIntervalId := None;
       aiSpeed := speed;
       timeRemaining := BATTLE_TIME;
       timerIntervalId := None;
       started := false;
       ended := false;
       result := None;
       eloDelta := 0 |} in
  fun w => Return b (with_battle (Some b) w).

End WithGenerator.

(** *** Termination *)

(** The [reason] strings passed to [endBattle]. *)
Inductive Reason := PlayerFinished | AiFinished | Timeout | Quit.

#[global] Instance Reason_eq_dec : EqDecision Reason.
Proof. solve_decision. Defined.

(** The result determination of [endBattle], on the session as it is
    when termination starts. The last [else] (no branch taken) leaves
    [result] and [eloDelta] as they are. *)
Definition determine (reason : Reason) (b : Battle)
    : option Player.Result * Z :=
  if bool_decide (reason = PlayerFinished) || playerFinished b then
    (Some Player.Win, 25)
  else if bool_decide (reason = AiFinished) then
    (Some Player.Lose, -25)
  else if bool_decide (reason = Timeout) then
    let playerPct := div (playerCellsFilled b) (aiTotalCells b) in
    let aiPct := div (aiCellsFilled b) (aiTotalCells b) in
    if gt playerPct aiPct then (Some Player.Win, 15)
    else if gt aiPct playerPct then (Some Player.Lose, -15)
    else (Some Player.Draw, 0)
  else if bool_decide (reason = Quit) then
    (Some Player.Lose, -25)
  else (result b, eloDelta b).

(** The summary object built for [Player.updateELO]; the two progress
    figures are [Math.round((filled / aiTotalCells) * 100)]. *)
Definition summary (b : Battle) : Player.MatchData :=
  {| Player.md_result := result b;
     Player.md_opponent := aiName b;
     Player.md_difficulty := difficulty b;
     Player.md_playerProgress :=
       round (to_double (times100 (to_double
                (div (playerCellsFilled b) (aiTotalCells b)))));
     Player.md_aiProgress :=
       round (to_double (times100 (to_double
                (div (aiCellsFilled b) (aiTotalCells b)))));
     Player.md_timeUsed := BATTLE_TIME - timeRemaining b |}.

(** [Player.updateELO(delta, matchData)] as seen from the engine. *)
Definition Player_updateELO (delta : Z) (matchData : Player.MatchData)
    (now : string) : M unit :=
  fun w =>
    Return tt
      (with_calls (UpdateELO delta matchData :: calls w)
         (with_data (Player.updateELO delta matchData now (data w)) w)).

(** [endBattle(reason, callback)]; [now] is the clock read by
    [updateELO]. *)
Definition endBattle (reason : Reason) (callback : callback)
    (now : string) : M unit :=
  let! b := deref_battle in
  if ended b then ret tt else
  assign (set_ended true) >>
  clear_timer (timerIntervalId b) >>
  clear_timer (aiIntervalId b) >>
  let! b := deref_battle in
  assign (set_result (determine reason b).1) >>
  assign (set_eloDelta (determine reason b).2) >>
  let! b := deref_battle in
  Player_updateELO (eloDelta b) (summary b) now >>
  let! b := deref_battle in
  call_if callback (fun f => OnBattleEnd f b).

(** *** beginBattle and the two scheduled activities *)

(** [scheduleNextAICell(onAIProgress, onBattleEnd)]; [u] is the
    [Math.random()] of the delay. *)
Definition scheduleNextAICell (onAIProgress onBattleEnd : callback)
    (u : rnd) : M unit :=
  let! b := deref_battle in
  if ended b || aiFinished b then ret tt else
  let delay := ai_delay (aiSpeed b) u in
  let! id := set_timer (AIStep onAIProgress onBattleEnd) delay in
  assign (set_aiIntervalId (Some id)).

(** The body of the [setTimeout] callback of [scheduleNextAICell]. *)
Definition ai_step (onAIProgress onBattleEnd : callback)
    (now : string) (u : rnd) : M unit :=
  let! b := deref_battle in
  if ended b then ret tt else
  assign (set_aiCellsFilled (aiCellsFilled b + 1)) >>
  let! b := deref_battle in
  call_if onAIProgress
    (fun f => OnAIProgress f (aiCellsFilled b) (aiTotalCells b)) >>
  if aiTotalCells b <=? aiCellsFilled b then
    assign (set_aiFinished true) >>
    if negb (playerFinished b) then endBattle AiFinished onBattleEnd now
    else ret tt
  else scheduleNextAICell onAIProgress onBattleEnd u.

(** The body of the [setInterval] callback of [beginBattle]. *)
Definition countdown_tick (onTimerTick onBattleEnd : callback)
    (now : string) : M unit :=
  let! b := deref_battle in
  if ended b then ret tt else
  assign (set_timeRemaining (timeRemaining b - 1)) >>
  let! b := deref_battle in
  call_if onTimerTick (fun f => OnTimerTick f (timeRemaining b)) >>
  if timeRemaining b <=? 0 then endBattle Timeout onBattleEnd now
  else ret tt.

(** [beginBattle(onAIProgress, onTimerTick, onBattleEnd)]. *)
Definition beginBattle (onAIProgress onTimerTick onBattleEnd : callback)
    (u : rnd) : M unit :=
  let! ob := read_battle in
  match ob with
  | None => ret tt
  | Some b =>
      if started b then ret tt else
      assign (set_started true) >>
      let! id := set_timer (Countdown onTimerTick onBattleEnd) (Fin 1000) in
      assign (set_timerIntervalId (Some id)) >>
      scheduleNextAICell onAIProgress onBattleEnd u
  end.

(** The host runs the callback of timer [id]. A timer that is not armed
    (never set, cleared, or a timeout that already ran) runs nothing; a
    timeout is disarmed as it runs, an interval stays armed. *)
Definition fire (id : nat) (now : string) (u : rnd) : M unit :=
  fun w =>
    match List.find (fun t => Nat.eqb (timer_id t) id) (timers w) with
    | None => Return tt w
    | Some t =>
        match timer_body t with
        | Countdown onTimerTick onBattleEnd =>
            countdown_tick onTimerTick onBattleEnd now w
        | AIStep onAIProgress onBattleEnd =>
            ai_step onAIProgress onBattleEnd now u
              (with_timers (disarm id (timers w)) (nextTimerId w) w)
        end
    end.

(** *** Player operations *)

(** What [playerPlace] returns when it is not [null]. *)
Record Placed := { isCorrect : bool; finished : bool }.

(** The scan of [playerPlace] for a solved board: the two nested loops
    with their [break]s stop at the first cell that differs. *)
Fixpoint boards_agree (cells : list (nat * nat)) (board sol : Grid)
    : option bool :=
  match cells with
  | [] => Some true
  | rc :: rest =>
      x ← grid_get board rc.1 rc.2;
      y ← grid_get sol rc.1 rc.2;
      if strict_eq x y then boards_agree rest board sol else Some false
  end.

(** [playerPlace(row, col, num)]; the [None] value is [null]. *)
Definition playerPlace (row col : nat) (num : jsval) : M (option Placed) :=
  let! ob := read_battle in
  match ob with
  | None => ret None
  | Some b =>
      if ended b || playerFinished b then ret None else
      let! o := lift (grid_get (original b) row col) in
      if negb (strict_eq o (JNum 0)) then ret None else
      let! correct := lift (grid_get (solution b) row col) in
      let isCorrect := strict_eq num correct in
      let! board := lift (grid_set (playerBoard b) row col num) in
      assign (set_playerBoard board) >>
      if isCorrect then
        assign (set_playerCellsFilled (playerCellsFilled b + 1)) >>
        let! b := deref_battle in
        let! allFilled :=
          lift (boards_agree all_cells (playerBoard b) (solution b)) in
        if allFilled then
          assign (set_playerFinished true) >>
          ret (Some {| isCorrect := true; finished := true |})
        else ret (Some {| isCorrect := isCorrect; finished := false |})
      else
        assign (set_playerMistakes (playerMistakes b + 1)) >>
        ret (Some {| isCorrect := isCorrect; finished := false |})
  end.

(** [playerErase(row, col)]. *)
Definition playerErase (row col : nat) : M unit :=
  let! ob := read_battle in
  match ob with
  | None => ret tt
  | Some b =>
      if ended b then ret tt else
      let! o := lift (grid_get (original b) row col) in
      if negb (strict_eq o (JNum 0)) then ret tt else
      let! cur := lift (grid_get (playerBoard b) row col) in
      let! held :=
        if negb (strict_eq cur (JNum 0)) then
          let! sol := lift (grid_get (solution b) row col) in
          ret (strict_eq cur sol)
        else ret false in
      (if held then assign (set_playerCellsFilled (playerCellsFilled b - 1))
       else ret tt) >>
      let! board := lift (grid_set (playerBoard b) row col (JNum 0)) in
      assign (set_playerBoard board)
  end.

(** [playerFinish(callback)]. *)
Definition playerFinish (callback : callback) (now : string) : M unit :=
  let! ob := read_battle in
  match ob with
  | None => ret tt
  | Some b =>
      if ended b then ret tt else
      assign (set_playerFinished true) >>
      endBattle PlayerFinished callback now
  end.

(** [quitBattle(callback)]. *)
Definition quitBattle (callback : callback) (now : string) : M unit :=
  let! ob := read_battle in
  match ob with
  | None => ret tt
  | Some b =>
      if ended b then ret tt else
      endBattle Quit callback now
  end.

Definition getBattle (w : World) : option Battle := battle w.

(** [isActive()], as a truth value. *)
Definition isActive (w : World) : bool :=
  match battle w with
  | Some b => started b && negb (ended b)
  | None => false
  end.

(** *** The host's event loop

    Between two events the engine is idle: a call made by the
    presentation layer, or a timer callback run by the host, runs to
    completion before the next one starts. An exception ends the
    handler and leaves the state as it was at the throw. *)

Inductive Event :=
| StartBattle (difficulty : string) (seed : nat) (rand : nat → rnd)
| BeginBattle (onAIProgress onTimerTick onBattleEnd : callback) (u : rnd)
| PlayerPlace (row col : nat) (num : jsval)
| PlayerErase (row col : nat)
| PlayerFinish (callback : callback) (now : string)
| QuitBattle (callback : callback) (now : string)
| Fire (id : nat) (now : string) (u : rnd).

Definition is_start (e : Event) : bool :=
  match e with StartBattle _ _ _ => true | _ => false end.

Section EventLoop.

Variable generate : string → nat → PuzzleData.

Definition step (e : Event) (w : World) : World :=
  match e with
  | StartBattle difficulty seed rand =>
      world_of (startBattle generate difficulty seed rand w)
  | BeginBattle onAIProgress onTimerTick onBattleEnd u =>
      world_of (beginBattle onAIProgress onTimerTick onBattleEnd u w)
  | PlayerPlace row col num => world_of (playerPlace row col num w)
  | PlayerErase row col => world_of (playerErase row col w)
  | PlayerFinish callback now => world_of (playerFinish callback now w)
  | QuitBattle callback now => world_of (quitBattle callback now w)
  | Fire id now u => world_of (fire id now u w)
  end.

Definition run (es : list Event) (w : World) : World :=
  fold_left (fun w e => step e w) es w.

End EventLoop.

(** *** Observations on the call log *)

Definition is_UpdateELO (e : Effect) : bool :=
  match e with UpdateELO _ _ => true | _ => false end.

Definition is_OnBattleEnd (e : Effect) : bool :=
  match e with OnBattleEnd _ _ => true | _ => false end.

(** How often [Player.updateELO] has been called so far. *)
Definition rating_updates (w : World) : nat :=
  length (List.filter is_UpdateELO (calls w)).

(** How often a completion callback has been called so far. *)
Definition end_callbacks (w : World) : nat :=
  length (List.filter is_OnBattleEnd (calls w)).

(** [formatTime(seconds)] for an integer number of seconds:
    [Math.floor(x / 60)] rounds down and [%] keeps the sign of the
    dividend. *)
Definition formatTime (seconds : Z) : string :=
  let m := padStart 2 "0" (to_string (seconds / 60)) in
  let s := padStart 2 "0" (to_string (Z.rem seconds 60)) in
  String.append m (String.append ":" s).

End PvP.

(* ===================================================================== *)
(** ** UI: the battle handlers of the presentation layer *)
(* ===================================================================== *)

Module UI.

Import JS PvP.

(** The handlers of [js/ui.js] that drive the battle engine. Writes to the
    document are left out: the elements they address are created by
    [buildBattleBoard] and the page, and nothing in the engine reads
    them. What remains is the calls into [PvP] and the module variable
    [battleSelectedCell]. A handler that throws stops there. *)

Record State := {
  engine : World;
  battleSelectedCell : option (nat * nat)
}.

Definition initial : State :=
  {| engine := initial_world; battleSelectedCell := None |}.

Definition with_engine (w : World) (s : State) : State :=
  {| engine := w; battleSelectedCell := battleSelectedCell s |}.

(** The closures handed to the engine: the AI progress bar, the timer
    text, and [showBattleResult]. *)
Definition progress_closure : callback := Some 1%nat.
Definition timer_closure : callback := Some 2%nat.
Definition result_closure : callback := Some 3%nat.

(** What one pass of the loop body of [renderBattleBoard] reads from the
    session: [board[r][c]], [original[r][c]] and, for a filled cell that
    is not original, [solution[r][c]]. *)
Definition render_cell (b : Battle) (rc : nat * nat) : option unit :=
  val ← grid_get (playerBoard b) rc.1 rc.2;
  o ← grid_get (original b) rc.1 rc.2;
  if negb (strict_eq val (JNum 0)) && strict_eq o (JNum 0) then
    _ ← grid_get (solution b) rc.1 rc.2; Some tt
  else Some tt.

Fixpoint render_cells (b : Battle) (cells : list (nat * nat)) : option unit :=
  match cells with
  | [] => Some tt
  | rc :: rest =>
      match render_cell b rc with
      | Some _ => render_cells b rest
      | None => None
      end
  end.

(** [renderBattleBoard()] as far as the engine is concerned: [None] when
    one of its reads throws. *)
Definition renderBattleBoard (w : World) : option unit :=
  match getBattle w with
  | None => Some tt
  | Some b => render_cells b all_cells
  end.

Section WithGenerator.

Variable generate : string → nat → PuzzleData.

(** The callback [onStartBattle(difficulty)] leaves with [setTimeout] for
    the end of the matchmaking delay. *)
Definition matchFound (difficulty : string) (seed : nat) (rand : nat → rnd)
    (u : rnd) (s : State) : State :=
  match startBattle generate difficulty seed rand (engine s) with
  | Throw w => with_engine w s
  | Return _ w =>
      let s' := {| engine := w; battleSelectedCell := None |} in
      match renderBattleBoard w with
      | None => s'
      | Some _ =>
          with_engine
            (world_of
               (beginBattle progress_closure timer_closure result_closure u w))
            s'
      end
  end.

End WithGenerator.

(** [onBattleCellClick(row, col)]. *)
Definition onBattleCellClick (row col : nat) (s : State) : State :=
  match getBattle (engine s) with
  | None => s
  | Some b =>
      if ended b then s
      else
        match grid_get (original b) row col with
        | None => s
        | Some o =>
            if negb (strict_eq o (JNum 0)) then s
            else {| engine := engine s; battleSelectedCell := Some (row, col) |}
        end
  end.

(** [onBattleNumberInput(num)]; [now] is the clock read if the placement
    ends the battle. *)
Definition onBattleNumberInput (num : jsval) (now : string) (s : State)
    : State :=
  match battleSelectedCell s with
  | None => s
  | Some (row, col) =>
      match playerPlace row col num (engine s) with
      | Throw w => with_engine w s
      | Return None w => with_engine w s
      | Return (Some result) w =>
          if isCorrect result then
            if finished result then
              with_engine (world_of (playerFinish result_closure now w)) s
            else with_engine w s
          else with_engine w s
      end
  end.

(** [onBattleErase()]. *)
Definition onBattleErase (s : State) : State :=
  match battleSelectedCell s with
  | None => s
  | Some (row, col) => with_engine (world_of (playerErase row col (engine s))) s
  end.

(** [onBattleQuit()]. *)
Definition onBattleQuit (now : string) (s : State) : State :=
  with_engine (world_of (quitBattle result_closure now (engine s))) s.

(** What can happen to the battle screen: the user's actions and the
    host running a timer. *)
Inductive Event :=
| MatchFound (difficulty : string) (seed : nat) (rand : nat → rnd) (u : rnd)
| CellClick (row col : nat)
| NumberInput (num : jsval) (now : string)
| Erase
| Quit (now : string)
| TimerFires (id : nat) (now : string) (u : rnd).

Section EventLoop.

Variable generate : string → nat → PuzzleData.

Definition step (e : Event) (s : State) : State :=
  match e with
  | MatchFound difficulty seed rand u =>
      matchFound generate difficulty seed rand u s
  | CellClick row col => onBattleCellClick row col s
  | NumberInput num now => onBattleNumberInput num now s
  | Erase => onBattleErase s
  | Quit now => onBattleQuit now s
  | TimerFires id now u => with_engine (world_of (fire id now u (engine s))) s
  end.

Definition run (es : list Event) (s : State) : State :=
  fold_left (fun s e => step e s) es s.

End EventLoop.

End UI.

(* ===================================================================== *)
(** ** Sample puzzles *)
(* ===================================================================== *)

Module Samples.

Import JS PvP.

(** A solved grid: row [r], column [c] holds
    [(3 (r mod 3) + r / 3 + c) mod 9 + 1]. *)
Definition solved : Grid :=
  (fun r => (fun c => JNum (Z.of_nat ((3 * (r mod 3) + r / 3 + c) mod 9 + 1)))
              <$> seq 0 9) <$> seq 0 9.

(** [solved] with the listed cells emptied. *)
Definition blank (cells : list (nat * nat)) : Grid :=
  fold_left (fun g rc => default g (grid_set g rc.1 rc.2 (JNum 0)))
    cells solved.

Definition generate_with (cells : list (nat * nat))
    (difficulty : string) (seed : nat) : PuzzleData :=
  {| gen_puzzle := blank cells; gen_solution := solved |}.

(** A session as [startBattle] builds it for the puzzle with the cells
    (0,0) and (4,5) empty. *)
Definition sample_session : Battle :=
  {| seed := 1;
     difficulty := "medium";
     puzzle := blank [(0, 0); (4, 5)]%nat;
     solution := solved;
     original := blank [(0, 0); (4, 5)]%nat;
     playerBoard := blank [(0, 0); (4, 5)]%nat;
     playerCellsFilled := 0;
     playerMistakes := 0;
     playerFinished := false;
     aiName := "SudokuMaster";
     aiAvatar := "🤖";
     aiCellsFilled := 0;
     aiTotalCells := 2;
     aiCellsQueue := [ {| row := 4; col := 5; val := JNum 1 |};
                       {| row := 0; col := 0; val := JNum 1 |} ];
     aiFinished := false;
     aiIntervalId := None;
     aiSpeed := Range 3000 7000;
     timeRemaining := BATTLE_TIME;
     timerIntervalId := None;
     started := false;
     ended := false;
     result := None;
     eloDelta := 0 |}.

(** [sample_session] with the given progress counters. *)
Definition at_progress (player ai total : Z) : Battle :=
  {| seed := seed sample_session;
     difficulty := difficulty sample_session;
     puzzle := puzzle sample_session;
     solution := solution sample_session;
     original := original sample_session;
     playerBoard := playerBoard sample_session;
     playerCellsFilled := player;
     playerMistakes := 0;
     playerFinished := false;
     aiName := aiName sample_session;
     aiAvatar := aiAvatar sample_session;
     aiCellsFilled := ai;
     aiTotalCells := total;
     aiCellsQueue := aiCellsQueue sample_session;
     aiFinished := false;
     aiIntervalId := None;
     aiSpeed := aiSpeed sample_session;
     timeRemaining := 0;
     timerIntervalId := None;
     started := true;
     ended := false;
     result := None;
     eloDelta := 0 |}.

(** The engine holding session [b], with nothing else going on. *)
Definition holding (b : Battle) : World :=
  with_battle (Some b) initial_world.

(** A random source that always returns 0. *)
Definition zeros (k : nat) : rnd := {| rnd_num := 0; rnd_gap := 0 |}.

(** A random source that always returns 1/2. *)
Definition halves (k : nat) : rnd := {| rnd_num := 1; rnd_gap := 0 |}.

End Samples.

(* ===================================================================== *)
(** ** Reference notions the properties are stated against *)
(* ===================================================================== *)

Module Spec.

Import JS PvP.

(** A 9×9 grid. *)
Definition grid9 (g : Grid) : Prop :=
  length g = 9%nat ∧ Forall (fun row => length row = 9%nat) g.

(** A session whose three boards are 9×9. *)
Definition boards9 (b : Battle) : Prop :=
  grid9 (original b) ∧ grid9 (solution b) ∧ grid9 (playerBoard b).

(** The cell is pre-filled: [original[row][col] !== 0]. *)
Definition is_original (b : Battle) (row col : nat) : bool :=
  negb (bool_decide (grid_get (original b) row col = Some (JNum 0))).

(** The player's board holds the solution's value in the cell. *)
Definition cell_matches (b : Battle) (rc : nat * nat) : bool :=
  bool_decide (grid_get (playerBoard b) rc.1 rc.2
               = grid_get (solution b) rc.1 rc.2).

(** The number of non-original cells in which [playerBoard] agrees with
    [solution]. *)
Definition matching_cells (b : Battle) : Z :=
  Z.of_nat
    (length
       (List.filter
          (fun rc => negb (is_original b rc.1 rc.2) && cell_matches b rc)
          all_cells)).

(** The two grids agree in all 81 cells. *)
Definition grids_agree (board sol : Grid) : bool :=
  forallb
    (fun rc => bool_decide (grid_get board rc.1 rc.2 = grid_get sol rc.1 rc.2))
    all_cells.

(** The empty cells of a puzzle in row-major order, each with the
    solution's value. *)
Definition empty_cells (d : PuzzleData) : list Cell :=
  (fun rc => {| row := rc.1; col := rc.2;
                val := default JUndef (grid_get (gen_solution d) rc.1 rc.2) |})
    <$> List.filter
          (fun rc => bool_decide (grid_get (gen_puzzle d) rc.1 rc.2
                                  = Some (JNum 0)))
          all_cells.

(** [playerPlace] returns before it looks at the cell: no session, the
    session ended or the player finished. *)
Definition place_blocked (w : World) : bool :=
  match battle w with
  | None => true
  | Some b => ended b || playerFinished b
  end.

(** What termination fixes, and what it may do only once: the session's
    [ended], [result] and [eloDelta], and the numbers of rating updates
    and completion callbacks so far. *)
Definition Footprint : Type :=
  option (bool * option Player.Result * Z) * nat * nat.

Definition footprint (w : World) : Footprint :=
  ((fun b => (ended b, result b, eloDelta b)) <$> battle w,
   rating_updates w, end_callbacks w).

Definition flag (c : bool) : nat := if c then 1%nat else 0%nat.

(** [s'] may follow [s] in the life of one session: an ended session
    stays as it is and causes no further update or completion callback;
    a live session causes exactly one update, and at most one
    completion callback, in the step that ends it. *)
Definition follows (s s' : Footprint) : Prop :=
  match s.1.1 with
  | None => True
  | Some (e, r, d) =>
      match s'.1.1 with
      | None => False
      | Some (e', r', d') =>
          if e then
            e' = true ∧ r' = r ∧ d' = d ∧ s'.1.2 = s.1.2 ∧ s'.2 = s.2
          else
            s'.1.2 = (s.1.2 + flag e')%nat
            ∧ (s.2 ≤ s'.2)%nat ∧ (s'.2 ≤ s.2 + flag e')%nat
      end
  end.

(** A computation that keeps to [follows], whether it returns or
    throws. *)
Definition respects {A} (m : M A) : Prop :=
  ∀ w, follows (footprint w) (footprint (world_of (m w))).

(** Timers left after [clearInterval] or [clearTimeout] of an id
    field. *)
Definition cleared (id : option nat) (ts : list Timer) : list Timer :=
  match id with
  | Some i => disarm i ts
  | None => ts
  end.

(** One rating update: delta, summary and clock. *)
Definition Update : Type := Z * Player.MatchData * string.

Definition apply_update (d : Player.Data) (u : Update) : Player.Data :=
  Player.updateELO u.1.1 u.1.2 u.2 d.

Definition run_updates (us : list Update) (d : Player.Data) : Player.Data :=
  fold_left apply_update us d.

(** The match record an update writes: the summary with the resulting
    rating, the delta and the date. *)
Definition entry_of (d : Player.Data) (u : Update) : Player.MatchRecord :=
  {| Player.mr_match := u.1.2;
     Player.mr_elo := Player.elo (apply_update d u);
     Player.mr_eloDelta := u.1.1;
     Player.mr_date := u.2 |}.

(** The records of a sequence of updates, most recent first, with
    nothing evicted. *)
Fixpoint all_entries (us : list Update) (d : Player.Data)
    : list Player.MatchRecord :=
  match us with
  | [] => []
  | u :: rest => all_entries rest (apply_update d u) ++ [entry_of d u]
  end.

(** How many of the updates carry the result [win]. *)
Definition wins_in (us : list Update) : Z :=
  Z.of_nat
    (length (List.filter
               (fun u : Update =>
                  bool_decide (Player.md_result u.1.2 = Some Player.Win))
               us)).

(** The sum of the three PvP counters. *)
Definition matches_counted (d : Player.Data) : Z :=
  Player.pvpWins d + Player.pvpLosses d + Player.pvpDraws d.

(** A visit to the shop. *)
Inductive ShopAction :=
| Buy (themeId : string)
| Equip (themeId : string).

Definition shop_step (p : Player.Profile) (a : ShopAction) : Player.Profile :=
  match a with
  | Buy themeId => (Player.buyTheme themeId p).2
  | Equip themeId => (Player.equipTheme themeId p).2
  end.

Definition shop_run (acts : list ShopAction) (p : Player.Profile)
    : Player.Profile :=
  fold_left shop_step acts p.

(** The price of a theme of the catalogue, 0 for any other id. *)
Definition price_of (themeId : string) : Z :=
  match List.find (fun t => String.eqb (Player.theme_id t) themeId)
          Player.THEMES with
  | Some t => Player.price t
  | None => 0
  end.

(** The catalogue value of the unlocked themes. *)
Definition themes_value (p : Player.Profile) : Z :=
  foldr (fun themeId acc => price_of themeId + acc) 0
    (Player.unlockedThemes p).

(** What one shop action keeps. *)
Definition shop_kept (p p' : Player.Profile) : Prop :=
  Player.coins (Player.core p') + themes_value p' = Player.coins (Player.core p) + themes_value p
  ∧ Player.coins (Player.core p') ≤ Player.coins (Player.core p)
  ∧ (0 ≤ Player.coins (Player.core p) → 0 ≤ Player.coins (Player.core p'))
  ∧ (NoDup (Player.unlockedThemes p) → NoDup (Player.unlockedThemes p'))
  ∧ (Player.activeTheme p ∈ Player.unlockedThemes p →
       Player.activeTheme p' ∈ Player.unlockedThemes p')
  ∧ Player.unlockedThemes p `prefix_of` Player.unlockedThemes p'
  ∧ Player.with_themes (Player.unlockedThemes p) (Player.activeTheme p)
      (Player.with_core (Player.with_coins (Player.coins (Player.core p)) (Player.core p')) p') = p.


(** One visit per day: the profile is loaded ([updateStreak]) and a game
    is finished ([recordPlay]); [prev] is the day before the first of
    [days] and every day is the day after the one before it. *)
Fixpoint play_days (prev : string) (days : list string) (p : Player.Profile)
    : Player.Profile :=
  match days with
  | [] => p
  | d :: rest =>
      play_days d rest (Player.recordPlay d prev (Player.updateStreak d prev p))
  end.

(** No day equals the day before it. *)
Fixpoint days_differ (prev : string) (days : list string) : Prop :=
  match days with
  | [] => True
  | d :: rest => d ≠ prev ∧ days_differ d rest
  end.

(** The polynomial [c0 31^(n-1) + ... + c(n-1)] of a list of codes. *)
Definition poly31 (str : list Z) : Z :=
  fold_left (fun acc code => 31 * acc + code) str 0.

Definition sum_xp (qs : list Player.Quest) : Z :=
  foldr (fun q acc => Player.xpReward q + acc) 0 qs.

Definition sum_coins (qs : list Player.Quest) : Z :=
  foldr (fun q acc => Player.coinReward q + acc) 0 qs.

(** The decimal digit [d] as a character, and a number below 100 as two
    digits. *)
Definition digit (d : Z) : ascii := ascii_of_nat (48 + Z.to_nat d).

Definition two_digits (n : Z) : string :=
  String (digit (n / 10)) (String (digit (n mod 10)) EmptyString).

(** [MM:SS]. *)
Definition mm_ss (seconds : Z) : string :=
  String.append (two_digits (seconds / 60))
    (String.append ":" (two_digits (seconds mod 60))).

(** Both formatters give [MM:SS] at [seconds], except that
    [Player.formatTime] gives [--:--] at 0. *)
Definition formats_agree (seconds : Z) : bool :=
  bool_decide (PvP.formatTime seconds = mm_ss seconds)
  && bool_decide (Player.formatTime (Some seconds)
                  = if seconds =? 0 then "--:--"%string else mm_ss seconds).

(** The clock of the session, if there is one, is within its budget and
    a session that has not ended has time left. *)
Definition clock_ok (w : World) : Prop :=
  ∀ b, battle w = Some b →
       0 ≤ timeRemaining b ≤ BATTLE_TIME
       ∧ (ended b = false → 1 ≤ timeRemaining b).

(** [b'] is a later state of the session [b]: what [startBattle] fixed is
    the same, the clock has not gone up, the counters of AI cells and of
    mistakes have not gone down, and no flag has been taken back. *)
Definition later_state (b b' : Battle) : Prop :=
  seed b' = seed b ∧ difficulty b' = difficulty b
  ∧ puzzle b' = puzzle b ∧ solution b' = solution b
  ∧ original b' = original b
  ∧ aiName b' = aiName b ∧ aiAvatar b' = aiAvatar b
  ∧ aiTotalCells b' = aiTotalCells b ∧ aiCellsQueue b' = aiCellsQueue b
  ∧ aiSpeed b' = aiSpeed b
  ∧ timeRemaining b' ≤ timeRemaining b
  ∧ aiCellsFilled b ≤ aiCellsFilled b'
  ∧ playerMistakes b ≤ playerMistakes b'
  ∧ (started b = true → started b' = true)
  ∧ (ended b = true → ended b' = true)
  ∧ (playerFinished b = true → playerFinished b' = true)
  ∧ (aiFinished b = true → aiFinished b' = true).

(** The world [w'] comes after [w] in the life of one session. *)
Definition world_later (w w' : World) : Prop :=
  ∀ b, battle w = Some b → ∃ b', battle w' = Some b' ∧ later_state b b'.

(** Nothing of an ended session [b] differs in [b'] but, at most, the
    [started] flag and the id of the countdown. *)
Definition frozen (b b' : Battle) : Prop :=
  set_started (started b) (set_timerIntervalId (timerIntervalId b) b') = b.

(** The world [w'] shows the ended session of [w] untouched and no call
    has left the engine in between. *)
Definition world_frozen (w w' : World) : Prop :=
  ∀ b, battle w = Some b → ended b = true →
       (∃ b', battle w' = Some b' ∧ frozen b b')
       ∧ calls w' = calls w ∧ data w' = data w.

(** [playerErase(row, col)] has nothing to clear: no session, the session
    ended, or the cell is original. *)
Definition erase_refused (w : World) (row col : nat) : bool :=
  match battle w with
  | None => true
  | Some b => ended b || is_original b row col
  end.

(** The world [w'] shows the player's side of the session of [w] as it
    was: the boards and the count of filled cells. *)
Definition board_kept (w w' : World) : Prop :=
  ∀ b, battle w = Some b →
       ∃ b', battle w' = Some b'
             ∧ playerBoard b' = playerBoard b ∧ solution b' = solution b
             ∧ original b' = original b
             ∧ playerCellsFilled b' = playerCellsFilled b.

(** A session that the player has finished has ended. *)
Definition finish_ends (w : World) : Prop :=
  ∀ b, battle w = Some b → playerFinished b = true → ended b = true.

(** The cell selected on the battle screen, if any, is a cell of the
    current session that the puzzle left empty. *)
Definition selection_ok (s : UI.State) : Prop :=
  ∀ row col, UI.battleSelectedCell s = Some (row, col) →
    ∃ b, battle (UI.engine s) = Some b
         ∧ grid_get (original b) row col = Some (JNum 0).

(** The delay a timer is armed with: one second for the countdown,
    between 2 and 20 seconds for a move of the opponent. When [strict]
    is off, a move may also be armed with [NaN]. *)
Definition timer_paced (strict : bool) (t : Timer) : Prop :=
  match timer_body t with
  | Countdown _ _ => timer_delay t = Fin 1000
  | AIStep _ _ =>
      (∃ q, timer_delay t = Fin q ∧ (2000 <= q)%Q ∧ (q <= 20000)%Q)
      ∨ (strict = false ∧ timer_delay t = NaN)
  end.

(** The speed is an entry with [2000 <= min <= max <= 20000]; when
    [strict] is off it may also be an inherited member. *)
Definition speed_paced (strict : bool) (speed : Speed) : Prop :=
  match speed with
  | Range min max => 2000 ≤ min ≤ max ∧ max ≤ 20000
  | Member => strict = false
  end.

(** Every armed timer is paced, and so is the speed of the session. *)
Definition paced (strict : bool) (w : World) : Prop :=
  (∀ b, battle w = Some b → speed_paced strict (aiSpeed b))
  ∧ Forall (timer_paced strict) (timers w).

(** The event does not start a battle under the name of a member that
    the speed table inherits. *)
Definition plainly_named (e : PvP.Event) : bool :=
  match e with
  | StartBattle difficulty _ _ => negb (inherited difficulty)
  | _ => true
  end.

(** The timer is a pending move of the opponent. *)
Definition is_ai_timer (t : Timer) : bool :=
  match timer_body t with AIStep _ _ => true | Countdown _ _ => false end.

(** The number of pending moves of the opponent. *)
Definition ai_timers (ts : list Timer) : nat :=
  length (List.filter is_ai_timer ts).

(** The opponent of the session has at most one move pending, none
    before the battle has begun, a pending move still has a cell to fill
    (or is the first), and the count of filled cells is within the
    total (or 1, for a puzzle without empty cells). *)
Definition ai_on_track (w : World) : Prop :=
  ∀ b, battle w = Some b →
    (ai_timers (timers w) ≤ 1)%nat
    ∧ (ai_timers (timers w) = 1%nat →
         aiCellsFilled b < aiTotalCells b ∨ aiCellsFilled b = 0)
    ∧ (started b = false →
         ai_timers (timers w) = 0%nat ∧ aiCellsFilled b = 0)
    ∧ 0 ≤ aiCellsFilled b ≤ Z.max 1 (aiTotalCells b).

(** The timer is the one whose id the session holds: the countdown in
    [timerIntervalId], a move of the opponent in [aiIntervalId]. *)
Definition owned (b : Battle) (t : Timer) : Prop :=
  match timer_body t with
  | Countdown _ _ => timerIntervalId b = Some (timer_id t)
  | AIStep _ _ => aiIntervalId b = Some (timer_id t)
  end.

(** Every armed timer is owned by the session, and none is armed
    without a session, before the battle has begun or after it has
    ended. *)
Definition tidy (w : World) : Prop :=
  match battle w with
  | None => timers w = []
  | Some b =>
      Forall (owned b) (timers w)
      ∧ (ended b = true ∨ started b = false → timers w = [])
  end.

(** The event does not let battles overlap: [startBattle] comes when
    there is no session or the session has ended, and [beginBattle] is
    not called on a session that has ended. *)
Definition in_turn (e : PvP.Event) (w : World) : bool :=
  match e, battle w with
  | StartBattle _ _ _, Some b => ended b
  | BeginBattle _ _ _ _, Some b => negb (ended b)
  | _, _ => true
  end.

(** The boards are 9×9 and the solution has no empty cell. *)
Definition sound (b : Battle) : Prop :=
  boards9 b ∧ ∀ r c, grid_get (solution b) r c ≠ Some (JNum 0).

(** How far [playerCellsFilled] is ahead of the board. *)
Definition drift (b : Battle) : Z := playerCellsFilled b - matching_cells b.

(** The event is a placement that the engine accepts onto a cell which
    already holds its solution value. *)
Definition overwrite (e : PvP.Event) (w : World) : Z :=
  match e, battle w with
  | PlayerPlace row col _, Some b =>
      if negb (ended b) && negb (playerFinished b)
         && negb (is_original b row col) && cell_matches b (row, col)
      then 1 else 0
  | _, _ => 0
  end.

Section Overwrites.

Variable generate : string → nat → PuzzleData.

(** The number of such placements along a sequence of events. *)
Fixpoint overwrites (es : list PvP.Event) (w : World) : Z :=
  match es with
  | [] => 0
  | e :: rest => overwrite e w + overwrites rest (PvP.step generate e w)
  end.

(** Every event of the sequence comes in turn. *)
Fixpoint orderly (es : list PvP.Event) (w : World) : bool :=
  match es with
  | [] => true
  | e :: rest => in_turn e w && orderly rest (PvP.step generate e w)
  end.

End Overwrites.

End Spec.

Import JS PvP Spec Samples.

(* ===================================================================== *)
(** ** Rating service *)
(* ===================================================================== *)

Section Rating.

Import Player.

Lemma elo_updateELO delta md now d :
  elo (updateELO delta md now d)
  = Z.max 0 (JS.or_default (elo d) 1000 + delta).
Proof. unfold updateELO. by destruct (md_result md) as [[]|]. Qed.

Lemma matchHistory_updateELO delta md now d :
  matchHistory (updateELO delta md now d)
  = trim_history (entry_of d (delta, md, now) :: matchHistory d).
Proof.
  unfold entry_of, apply_update. rewrite elo_updateELO.
  unfold updateELO. by destruct (md_result md) as [[]|].
Qed.

Lemma trim_history_take h :
  (length h ≤ 21)%nat → trim_history h = take 20 h.
Proof.
  intros Hlen. unfold trim_history.
  destruct (20 <? length h)%nat eqn:E.
  - apply Nat.ltb_lt in E. rewrite removelast_firstn_len.
    by replace (Init.Nat.pred (length h)) with 20%nat by lia.
  - apply Nat.ltb_ge in E. by rewrite take_ge.
Qed.

Lemma take_app_take {A} n (xs ys : list A) :
  take n (xs ++ take n ys) = take n (xs ++ ys).
Proof.
  rewrite !take_app, take_take. do 2 f_equal. lia.
Qed.

(** C7. The rating written by an update is the default-substituted
    current rating plus the delta, clamped at 0: it is never negative,
    and from rating 10 a delta of -25 gives 0. *)
Theorem updateELO_clamps_at_zero :
  (∀ delta md now d,
      0 ≤ elo (updateELO delta md now d)
      ∧ elo (updateELO delta md now d) = Z.max 0 (getELO d + delta))
  ∧ (∀ md now d, elo d = 10 → elo (updateELO (-25) md now d) = 0).
Proof.
  split.
  - intros. rewrite elo_updateELO. unfold getELO. lia.
  - intros md now d H. rewrite elo_updateELO, H. reflexivity.
Qed.

Lemma updateELO_clamps_at_zero_witness :
  let d := {| xp := 0; coins := 0; level := 0; elo := 10; pvpWins := 0;
              pvpLosses := 0; pvpDraws := 0; matchHistory := [] |} in
  let md := {| md_result := Some Lose; md_opponent := "GridNinja";
               md_difficulty := "easy"; md_playerProgress := JS.Fin 0;
               md_aiProgress := JS.Fin 100; md_timeUsed := 42 |} in
  elo d = 10 ∧ elo (updateELO (-25) md "2024-01-01" d) = 0.
Proof.
  intros d md. split; [reflexivity |].
  apply (proj2 updateELO_clamps_at_zero md "2024-01-01"%string d).
  reflexivity.
Defined.

(** C8. Starting from a history of at most 20 entries, after any
    sequence of updates the history has at most 20 entries and consists
    of the 20 most recent records, most recent first: every update
    prepends its record and the oldest entry is dropped when that would
    make 21. *)
Theorem matchHistory_bounded_recent_first d us :
  (length (matchHistory d) ≤ 20)%nat →
  (length (matchHistory (run_updates us d)) ≤ 20)%nat
  ∧ matchHistory (run_updates us d)
    = take 20 (all_entries us d ++ matchHistory d)
  ∧ ∀ u, matchHistory (apply_update (run_updates us d) u)
         = take 20 (entry_of (run_updates us d) u
                    :: matchHistory (run_updates us d)).
Proof.
  revert d. induction us as [|u us IH]; intros d Hd.
  - simpl. split; [done|]. split; [by rewrite take_ge|].
    intros [[delta md] now]. unfold apply_update. simpl.
    rewrite matchHistory_updateELO. apply trim_history_take. simpl. lia.
  - assert (Hstep : matchHistory (apply_update d u)
                    = take 20 (entry_of d u :: matchHistory d)).
    { destruct u as [[delta md] now]. unfold apply_update. simpl.
      rewrite matchHistory_updateELO. apply trim_history_take. simpl. lia. }
    assert (Hlen : (length (matchHistory (apply_update d u)) ≤ 20)%nat).
    { rewrite Hstep, length_take. lia. }
    destruct (IH _ Hlen) as (IH1 & IH2 & IH3).
    change (run_updates (u :: us) d) with (run_updates us (apply_update d u)).
    split; [done|]. split; [|done].
    rewrite IH2, Hstep. simpl all_entries.
    rewrite take_app_take, <- app_assoc. reflexivity.
Qed.

Lemma matchHistory_bounded_recent_first_witness :
  (length (matchHistory createDefaultData) ≤ 20)%nat
  ∧ (length (matchHistory
       (run_updates
          (replicate 25
             (15%Z, {| md_result := Some Win; md_opponent := "GridNinja";
                     md_difficulty := "easy";
                     md_playerProgress := JS.Fin 100;
                     md_aiProgress := JS.Fin 50; md_timeUsed := 600 |},
              "2024-01-01"%string))
          createDefaultData)) ≤ 20)%nat.
Proof.
  split; [simpl; lia |].
  apply (matchHistory_bounded_recent_first createDefaultData).
  simpl; lia.
Defined.

(** C10. A stored rating of exactly 0 is read as the default 1000:
    [getELO] reports 1000 and [updateELO] writes [max(0, 1000 + delta)];
    so from rating 10, two losses of -25 give 0 and then 975. *)
Theorem zero_rating_read_as_default d :
  elo d = 0 →
  getELO d = 1000
  ∧ (∀ delta md now,
        elo (updateELO delta md now d) = Z.max 0 (1000 + delta))
  ∧ (∀ md now, elo (updateELO (-25) md now d) = 975).
Proof.
  intros H. unfold getELO. repeat split; intros;
    rewrite ?elo_updateELO, H; reflexivity.
Qed.

Lemma zero_rating_read_as_default_witness :
  let d10 := {| xp := 0; coins := 0; level := 0; elo := 10; pvpWins := 0;
                pvpLosses := 0; pvpDraws := 0; matchHistory := [] |} in
  let md := {| md_result := Some Lose; md_opponent := "GridNinja";
               md_difficulty := "easy"; md_playerProgress := JS.Fin 0;
               md_aiProgress := JS.Fin 100; md_timeUsed := 42 |} in
  let d0 := updateELO (-25) md "2024-01-01" d10 in
  elo d0 = 0 ∧ getELO d0 = 1000
  ∧ elo (updateELO (-25) md "2024-01-02" d0) = 975.
Proof.
  intros d10 md d0.
  assert (H : elo d0 = 0) by reflexivity.
  destruct (zero_rating_read_as_default d0 H) as (H1 & _ & H3).
  split; [exact H|]. split; [exact H1|]. apply H3.
Defined.

End Rating.


(* ===================================================================== *)
(** ** Session creation *)
(* ===================================================================== *)

Section StartBattle.

Lemma swap_Permutation {A} (arr : list A) i j : swap arr i j ≡ₚ arr.
Proof.
  unfold swap.
  destruct (arr !! i) as [x|] eqn:Hi; [|done].
  destruct (arr !! j) as [y|] eqn:Hj; [|done].
  pose proof (lookup_lt_Some _ _ _ Hi) as Hli.
  pose proof (lookup_lt_Some _ _ _ Hj) as Hlj.
  apply Permutation_inj. split; [by rewrite !length_insert|].
  exists (fun k => if decide (k = j) then i
                   else if decide (k = i) then j else k).
  split.
  - intros a b. repeat case_decide; congruence.
  - intros k. repeat case_decide; subst.
    + rewrite list_lookup_insert_eq by (by rewrite length_insert). done.
    + rewrite list_lookup_insert_ne by done.
      rewrite list_lookup_insert_eq by done. done.
    + by rewrite !list_lookup_insert_ne.
Qed.

Lemma shuffle_from_Permutation {A} i rand k (arr : list A) :
  shuffle_from i rand k arr ≡ₚ arr.
Proof.
  revert k arr. induction i as [|i IH]; intros k arr; [done|].
  simpl. rewrite IH. apply swap_Permutation.
Qed.

Lemma shuffleArray_Permutation {A} rand (arr : list A) :
  shuffleArray rand arr ≡ₚ arr.
Proof. apply shuffle_from_Permutation. Qed.

Lemma grid_get_row (g : Grid) r c :
  (r < length g)%nat → is_Some (grid_get g r c).
Proof.
  intros H. unfold grid_get.
  destruct (g !! r) as [row|] eqn:E; [eauto|].
  apply lookup_ge_None in E. lia.
Qed.

Lemma all_cells_rows rc : rc ∈ all_cells → (rc.1 < 9)%nat ∧ (rc.2 < 9)%nat.
Proof.
  unfold all_cells. intros H.
  apply list_elem_of_bind in H as (r & H & Hr).
  apply list_elem_of_bind in H as (c & H & Hc).
  apply list_elem_of_singleton in H as ->.
  apply elem_of_seq in Hr, Hc. simpl. lia.
Qed.

Lemma scan_cells_spec d cells acc :
  length (gen_puzzle d) = 9%nat →
  length (gen_solution d) = 9%nat →
  (∀ rc, rc ∈ cells → (rc.1 < 9)%nat) →
  scan_cells d cells acc
  = Some (acc ++
          ((fun rc => {| row := rc.1; col := rc.2;
                         val := default JUndef
                                  (grid_get (gen_solution d) rc.1 rc.2) |})
             <$> List.filter
                   (fun rc => bool_decide
                                (grid_get (gen_puzzle d) rc.1 rc.2
                                 = Some (JNum 0)))
                   cells)).
Proof.
  intros Hp Hs. revert acc.
  induction cells as [|rc cells IH]; intros acc Hin.
  - simpl. by rewrite app_nil_r.
  - assert (Hr : (rc.1 < 9)%nat) by (apply Hin; left).
    assert (Hin' : ∀ rc', rc' ∈ cells → (rc'.1 < 9)%nat)
      by (intros; apply Hin; by right).
    simpl. unfold scan_cell.
    destruct (grid_get_row (gen_puzzle d) rc.1 rc.2) as [p Hpv]; [lia|].
    destruct (grid_get_row (gen_solution d) rc.1 rc.2) as [v Hsv]; [lia|].
    rewrite Hpv, Hsv. simpl. unfold strict_eq.
    destruct (decide (p = JNum 0)) as [->|Hne].
    + rewrite (bool_decide_eq_true_2 (JNum 0 = JNum 0)) by done.
      rewrite (bool_decide_eq_true_2 (Some (JNum 0) = Some (JNum 0)))
        by done.
      simpl.
      rewrite IH by done. rewrite Hsv, <- app_assoc. done.
    + rewrite (bool_decide_eq_false_2 (p = JNum 0)) by done.
      rewrite (bool_decide_eq_false_2 (Some p = Some (JNum 0)))
        by congruence.
      by rewrite IH.
Qed.

Variable generate : string → nat → PuzzleData.

Example startBattle_sample :
  startBattle (generate_with [(0, 0); (4, 5)]%nat) "medium" 1 zeros
    initial_world
  = Return sample_session (holding sample_session).
Proof. reflexivity. Qed.

(** C9. When the generator returns 9×9 grids, [startBattle] returns a
    session whose [aiTotalCells] is the number of cells with
    [puzzle[r][c] = 0] and whose [aiCellsQueue] is a permutation of
    exactly those cells, each with its solution value; this holds for
    every difficulty, seed and random source. *)
Theorem startBattle_queue difficulty seed rand w :
  grid9 (gen_puzzle (generate difficulty seed)) →
  grid9 (gen_solution (generate difficulty seed)) →
  ∃ b,
    startBattle generate difficulty seed rand w
    = Return b (with_battle (Some b) w)
    ∧ aiTotalCells b
      = Z.of_nat (length (List.filter
                    (fun rc => bool_decide
                       (grid_get (gen_puzzle (generate difficulty seed))
                          rc.1 rc.2 = Some (JNum 0)))
                    all_cells))
    ∧ aiCellsQueue b ≡ₚ empty_cells (generate difficulty seed)
    ∧ aiTotalCells b = Z.of_nat (length (aiCellsQueue b)).
Proof.
  intros [Hp _] [Hs _].
  unfold startBattle, bind, lift.
  rewrite (scan_cells_spec _ _ [] Hp Hs)
    by (intros rc Hrc; by apply all_cells_rows).
  cbv beta iota zeta. rewrite app_nil_l.
  eexists. split; [reflexivity|]. cbn [aiTotalCells aiCellsQueue].
  fold (empty_cells (generate difficulty seed)).
  split; [|split; [apply shuffleArray_Permutation | done]].
  rewrite (Permutation_length (shuffleArray_Permutation _ _)).
  unfold empty_cells. by rewrite length_fmap.
Qed.

End StartBattle.

Lemma startBattle_queue_witness :
  ∃ b,
    startBattle (generate_with [(0, 0); (4, 5); (8, 8)]%nat) "hard" 7
      halves initial_world
    = Return b (with_battle (Some b) initial_world)
    ∧ aiTotalCells b = 3
    ∧ aiCellsQueue b
      ≡ₚ [ {| row := 0; col := 0; val := JNum 1 |};
           {| row := 4; col := 5; val := JNum 1 |};
           {| row := 8; col := 8; val := JNum 8 |} ].
Proof.
  destruct (startBattle_queue
              (generate_with [(0, 0); (4, 5); (8, 8)]%nat)
              "hard" 7%nat halves initial_world)
    as (b & Heq & Htot & Hperm & _).
  - split; [reflexivity|]. repeat constructor.
  - split; [reflexivity|]. repeat constructor.
  - exists b. split; [exact Heq|]. split; [exact Htot|exact Hperm].
Defined.

(* ===================================================================== *)
(** ** Termination *)
(* ===================================================================== *)

Section Termination.

Lemma endBattle_ended w b reason cb now :
  battle w = Some b → ended b = true →
  endBattle reason cb now w = Return tt w.
Proof.
  intros Hb He. unfold endBattle, bind, deref_battle, lift.
  by rewrite Hb, He.
Qed.

(** The state a first termination produces. *)
Lemma endBattle_live w b reason cb now :
  battle w = Some b → ended b = false →
  ∃ w' b',
    endBattle reason cb now w = Return tt w'
    ∧ battle w' = Some b'
    ∧ b' = set_eloDelta (determine reason b).2
             (set_result (determine reason b).1 (set_ended true b))
    ∧ data w' = Player.updateELO (eloDelta b') (summary b') now (data w)
    ∧ timers w' = cleared (aiIntervalId b) (cleared (timerIntervalId b) (timers w))
    ∧ nextTimerId w' = nextTimerId w
    ∧ calls w'
      = match cb with
        | Some f => [OnBattleEnd f b']
        | None => []
        end ++ UpdateELO (eloDelta b') (summary b') :: calls w.
Proof.
  intros Hb He.
  unfold endBattle, bind, deref_battle, lift, assign, clear_timer,
    Player_updateELO, call_if, call, ret.
  rewrite Hb, He.
  destruct (timerIntervalId b), (aiIntervalId b), cb;
    repeat (first [rewrite Hb | progress simpl]);
    (eexists _, _; split; [reflexivity|]; simpl; repeat split; done).
Qed.

Lemma gt_div p a t :
  0 < t →
  gt (div p t) (div a t) = true
  ↔ (inject_Z a / inject_Z t < inject_Z p / inject_Z t)%Q.
Proof.
  intros Ht. unfold div.
  replace (t =? 0) with false by (symmetry; apply Z.eqb_neq; lia).
  simpl. rewrite negb_true_iff.
  split.
  - intros H. apply Qnot_le_lt. intros Hle.
    apply Qle_bool_iff in Hle. congruence.
  - intros H. destruct (Qle_bool _ _) eqn:E; [|done].
    apply Qle_bool_iff in E. by apply Qlt_not_le in H.
Qed.

Lemma determine_finished reason b :
  reason = PlayerFinished ∨ playerFinished b = true →
  determine reason b = (Some Player.Win, 25).
Proof.
  unfold determine. intros [-> | ->]; [done|].
  by rewrite orb_true_r.
Qed.

Lemma determine_timeout b :
  playerFinished b = false → 0 < aiTotalCells b →
  let pct x := (inject_Z x / inject_Z (aiTotalCells b))%Q in
  ((pct (aiCellsFilled b) < pct (playerCellsFilled b))%Q →
     determine Timeout b = (Some Player.Win, 15))
  ∧ ((pct (playerCellsFilled b) < pct (aiCellsFilled b))%Q →
     determine Timeout b = (Some Player.Lose, -15))
  ∧ ((pct (playerCellsFilled b) == pct (aiCellsFilled b))%Q →
     determine Timeout b = (Some Player.Draw, 0)).
Proof.
  intros Hpf Ht pct. unfold determine. rewrite Hpf. simpl.
  pose proof (gt_div (playerCellsFilled b) (aiCellsFilled b) _ Ht) as Hpa.
  pose proof (gt_div (aiCellsFilled b) (playerCellsFilled b) _ Ht) as Hap.
  fold (pct (playerCellsFilled b)) in Hpa, Hap.
  fold (pct (aiCellsFilled b)) in Hpa, Hap.
  set (ahead := gt (div (playerCellsFilled b) _) (div (aiCellsFilled b) _))
    in *.
  set (behind := gt (div (aiCellsFilled b) _) (div (playerCellsFilled b) _))
    in *.
  clearbody ahead behind.
  split; [|split]; intros H.
  - by rewrite (proj2 Hpa H).
  - assert (ahead = false) as ->.
    { apply not_true_is_false. intros E. apply Hpa in E.
      exact (Qlt_irrefl _ (Qlt_trans _ _ _ H E)). }
    by rewrite (proj2 Hap H).
  - assert (ahead = false) as ->.
    { apply not_true_is_false. intros E. apply Hpa in E.
      rewrite H in E. exact (Qlt_irrefl _ E). }
    assert (behind = false) as ->; [|done].
    apply not_true_is_false. intros E. apply Hap in E.
    rewrite H in E. exact (Qlt_irrefl _ E).
Qed.

Example rating_delta_table :
  determine PlayerFinished sample_session = (Some Player.Win, 25)
  ∧ determine AiFinished sample_session = (Some Player.Lose, -25)
  ∧ determine Quit sample_session = (Some Player.Lose, -25)
  ∧ determine Timeout (at_progress 40 30 50) = (Some Player.Win, 15)
  ∧ determine Timeout (at_progress 30 40 50) = (Some Player.Lose, -15)
  ∧ determine Timeout (at_progress 30 30 50) = (Some Player.Draw, 0)
  ∧ determine Timeout (at_progress 0 0 0) = (Some Player.Draw, 0).
Proof. repeat split. Qed.

(** The progress figures are rounded as the code's doubles are: 23 of
    40 cells is 0.575 as a real number, but the nearest double lies
    below it, its hundredfold is 57.49999999999999, and the figure
    stored is 57. *)
Example progress_is_rounded_as_a_double :
  double (1 # 10) = 3602879701896397 # 36028797018963968
  ∧ to_double (times100 (to_double (div 23 40)))
    = Fin (8092405580431359 # 140737488355328)
  ∧ Player.md_playerProgress (summary (at_progress 23 0 40)) = Fin 57
  ∧ Player.md_playerProgress (summary (at_progress 29 0 40)) = Fin 73
  ∧ Player.md_aiProgress (summary (at_progress 30 40 50)) = Fin 80
  ∧ Player.md_aiProgress (summary (at_progress 0 0 0)) = NaN.
Proof. vm_compute. done. Qed.

(** C4. A first termination sets [ended] and determines result and
    rating delta by the ordered cases: reason [player_finished] or
    [playerFinished] already true gives win/+25; otherwise [ai_finished]
    gives lose/-25; otherwise [timeout] compares
    [playerCellsFilled / aiTotalCells] with
    [aiCellsFilled / aiTotalCells] (greater: win/+15, less: lose/-15,
    equal: draw/0); otherwise [quit] gives lose/-25. That delta is what
    the rating update receives. *)
Theorem endBattle_result_by_ordered_cases w b reason cb now :
  battle w = Some b → ended b = false →
  ∃ w' b',
    endBattle reason cb now w = Return tt w'
    ∧ battle w' = Some b' ∧ ended b' = true
    ∧ data w' = Player.updateELO (eloDelta b') (summary b') now (data w)
    ∧ (reason = PlayerFinished ∨ playerFinished b = true →
         result b' = Some Player.Win ∧ eloDelta b' = 25)
    ∧ (playerFinished b = false → reason = AiFinished →
         result b' = Some Player.Lose ∧ eloDelta b' = -25)
    ∧ (playerFinished b = false → reason = Timeout → 0 < aiTotalCells b →
         let pct x := (inject_Z x / inject_Z (aiTotalCells b))%Q in
         ((pct (aiCellsFilled b) < pct (playerCellsFilled b))%Q →
            result b' = Some Player.Win ∧ eloDelta b' = 15)
         ∧ ((pct (playerCellsFilled b) < pct (aiCellsFilled b))%Q →
            result b' = Some Player.Lose ∧ eloDelta b' = -15)
         ∧ ((pct (playerCellsFilled b) == pct (aiCellsFilled b))%Q →
            result b' = Some Player.Draw ∧ eloDelta b' = 0))
    ∧ (playerFinished b = false → reason = Quit →
         result b' = Some Player.Lose ∧ eloDelta b' = -25).
Proof.
  intros Hb He.
  destruct (endBattle_live w b reason cb now Hb He)
    as (w' & b' & Hrun & Hb' & Heq & Hd & _).
  assert (Hres : result b' = (determine reason b).1) by (by subst b').
  assert (Hdel : eloDelta b' = (determine reason b).2) by (by subst b').
  exists w', b'. split; [exact Hrun|]. split; [exact Hb'|].
  split; [by subst b'|]. split; [exact Hd|].
  rewrite Hres, Hdel.
  split; [|split; [|split]].
  - intros H. by rewrite (determine_finished _ _ H).
  - intros Hpf ->. unfold determine. by rewrite Hpf.
  - intros Hpf -> Ht pct.
    destruct (determine_timeout b Hpf Ht) as (H1 & H2 & H3).
    split; [|split]; intros H;
      [rewrite (H1 H) | rewrite (H2 H) | rewrite (H3 H)]; done.
  - intros Hpf ->. unfold determine. by rewrite Hpf.
Qed.

Lemma endBattle_result_by_ordered_cases_witness :
  let b := set_playerCellsFilled 1 sample_session in
  ∃ w' b',
    endBattle Timeout (Some 3%nat) "2024-01-01" (holding b) = Return tt w'
    ∧ battle w' = Some b'
    ∧ result b' = Some Player.Win ∧ eloDelta b' = 15.
Proof.
  intros b.
  destruct (endBattle_result_by_ordered_cases (holding b) b Timeout
              (Some 3%nat) "2024-01-01" eq_refl eq_refl)
    as (w' & b' & Hrun & Hb' & _ & _ & _ & _ & Ht & _).
  exists w', b'. split; [exact Hrun|]. split; [exact Hb'|].
  apply Ht; [reflexivity | reflexivity | reflexivity | reflexivity].
Defined.

(** C5 (amended). When a session exists and has not ended,
    [quitBattle] terminates it; it is scored lose/-25 when the player
    has not already finished, and win/+25 when [playerFinished] is
    already true. *)
Theorem quitBattle_result w b cb now :
  battle w = Some b → ended b = false →
  ∃ w' b',
    quitBattle cb now w = Return tt w'
    ∧ battle w' = Some b' ∧ ended b' = true
    ∧ (playerFinished b = false →
         result b' = Some Player.Lose ∧ eloDelta b' = -25)
    ∧ (playerFinished b = true →
         result b' = Some Player.Win ∧ eloDelta b' = 25).
Proof.
  intros Hb He.
  destruct (endBattle_live w b Quit cb now Hb He)
    as (w' & b' & Hrun & Hb' & -> & _).
  eexists w', _.
  split.
  { unfold quitBattle, bind, read_battle. by rewrite Hb, He. }
  split; [exact Hb'|]. split; [done|]. simpl.
  split; intros Hpf.
  - unfold determine. by rewrite Hpf.
  - by rewrite determine_finished by auto.
Qed.

Lemma quitBattle_result_witness :
  ∃ w' b',
    quitBattle None "2024-01-01" (holding sample_session) = Return tt w'
    ∧ battle w' = Some b'
    ∧ result b' = Some Player.Lose ∧ eloDelta b' = -25.
Proof.
  destruct (quitBattle_result (holding sample_session) sample_session None "2024-01-01"
              eq_refl eq_refl)
    as (w' & b' & Hrun & Hb' & _ & Hlose & _).
  exists w', b'. split; [exact Hrun|]. split; [exact Hb'|].
  apply Hlose. reflexivity.
Defined.

(** C5 as stated fails: in the puzzle with the single empty cell (0,0),
    placing the right value finishes the player without ending the
    session; quitting then is scored win/+25. *)
Lemma quitBattle_after_solving_scores_win :
  let w := run (generate_with [(0, 0)]%nat)
             [StartBattle "medium" 1 zeros; PlayerPlace 0 0 (JNum 1)]
             initial_world in
  (ended <$> battle w) = Some false
  ∧ (result <$> battle (world_of (quitBattle None "2024-01-01" w)))
    = Some (Some Player.Win)
  ∧ (eloDelta <$> battle (world_of (quitBattle None "2024-01-01" w)))
    = Some 25.
Proof. vm_compute. done. Qed.

End Termination.


(* ===================================================================== *)
(** ** Player operations *)
(* ===================================================================== *)

Section PlayerOperations.

Lemma grid9_row (g : Grid) r :
  grid9 g → (r < 9)%nat → ∃ row, g !! r = Some row ∧ length row = 9%nat.
Proof.
  intros [Hlen Hrows] Hr.
  destruct (g !! r) as [row|] eqn:E.
  - exists row. split; [done|].
    rewrite Forall_forall in Hrows. apply Hrows.
    eapply list_elem_of_lookup_2, E.
  - apply lookup_ge_None in E. lia.
Qed.

Lemma grid9_get (g : Grid) r c :
  grid9 g → (r < 9)%nat → (c < 9)%nat →
  ∃ row v, g !! r = Some row ∧ row !! c = Some v
           ∧ grid_get g r c = Some v.
Proof.
  intros Hg Hr Hc.
  destruct (grid9_row g r Hg Hr) as (row & Hrow & Hlen).
  destruct (row !! c) as [v|] eqn:E.
  - exists row, v. unfold grid_get. by rewrite Hrow, E.
  - apply lookup_ge_None in E. lia.
Qed.

Lemma grid9_set (g : Grid) r c v :
  grid9 g → (r < 9)%nat → (c < 9)%nat →
  ∃ g', grid_set g r c v = Some g'
        ∧ grid9 g'
        ∧ grid_get g' r c = Some v
        ∧ ∀ r' c', (r', c') ≠ (r, c) → grid_get g' r' c' = grid_get g r' c'.
Proof.
  intros Hg Hr Hc.
  destruct (grid9_row g r Hg Hr) as (row & Hrow & Hlen).
  pose proof Hg as [Hglen Hrows].
  unfold grid_set. rewrite Hrow. eexists. split; [reflexivity|].
  unfold array_set.
  replace (c <? length row)%nat with true
    by (symmetry; apply Nat.ltb_lt; lia).
  split; [|split].
  - unfold grid9. split; [by rewrite length_insert|].
    apply Forall_insert; [done|]. by rewrite length_insert.
  - unfold grid_get.
    rewrite list_lookup_insert_eq by lia.
    rewrite list_lookup_insert_eq by lia. done.
  - intros r' c' Hne. unfold grid_get.
    destruct (decide (r' = r)) as [->|Hr'].
    + rewrite list_lookup_insert_eq by lia. rewrite Hrow.
      rewrite list_lookup_insert_ne by congruence. done.
    + by rewrite list_lookup_insert_ne.
Qed.

Lemma boards_agree_spec cells (board sol : Grid) :
  length board = 9%nat → length sol = 9%nat →
  (∀ rc, rc ∈ cells → (rc.1 < 9)%nat) →
  boards_agree cells board sol
  = Some (forallb
            (fun rc => bool_decide (grid_get board rc.1 rc.2
                                    = grid_get sol rc.1 rc.2))
            cells).
Proof.
  intros Hb Hs. induction cells as [|rc cells IH]; intros Hin; [done|].
  assert (Hr : (rc.1 < 9)%nat) by (apply Hin; left).
  simpl.
  destruct (grid_get_row board rc.1 rc.2) as [x Hx]; [lia|].
  destruct (grid_get_row sol rc.1 rc.2) as [y Hy]; [lia|].
  rewrite Hx, Hy. simpl. unfold strict_eq.
  destruct (decide (x = y)) as [->|Hne].
  - rewrite bool_decide_eq_true_2 by done.
    rewrite (bool_decide_eq_true_2 (Some y = Some y)) by done.
    simpl. apply IH. intros; apply Hin; by right.
  - rewrite bool_decide_eq_false_2 by done.
    rewrite (bool_decide_eq_false_2 (Some x = Some y)) by congruence.
    done.
Qed.

#[local] Arguments boards_agree : simpl never.

Lemma is_original_false b row col :
  is_original b row col = false ↔
  grid_get (original b) row col = Some (JNum 0).
Proof.
  unfold is_original. rewrite negb_false_iff. apply bool_decide_eq_true.
Qed.

Lemma grid9_in_range (g : Grid) row col v :
  grid9 g → grid_get g row col = Some v → v ≠ JUndef →
  (row < 9)%nat ∧ (col < 9)%nat.
Proof.
  intros [Hlen Hrows] Hget Hv. unfold grid_get in Hget.
  destruct (g !! row) as [r|] eqn:Hr; [|done].
  split; [apply lookup_lt_Some in Hr; lia|].
  destruct (r !! col) as [x|] eqn:Hc; simpl in Hget; [|congruence].
  apply lookup_lt_Some in Hc.
  rewrite Forall_forall in Hrows.
  rewrite <- (Hrows r); [done|]. eapply list_elem_of_lookup_2, Hr.
Qed.

Lemma set_fields_back b board filled mistakes fin :
  set_playerFinished (playerFinished b)
    (set_playerMistakes (playerMistakes b)
       (set_playerCellsFilled (playerCellsFilled b)
          (set_playerBoard (playerBoard b)
             (set_playerFinished fin
                (set_playerMistakes mistakes
                   (set_playerCellsFilled filled
                      (set_playerBoard board b)))))))
  = b.
Proof. by destruct b. Qed.

(** C6 (amended). In a session with 9×9 boards, [playerPlace] returns
    [null] and leaves the whole state as it is when there is no session,
    the session has ended or the player has finished, whatever the cell.
    Otherwise a row outside the board makes it throw, again with the
    state as it is; for a row of the board it returns [null] with the
    state as it is when [original[row][col]] is not 0, which is so for a
    column outside the board too. In the remaining case the cell is on
    the board: the value is written into [playerBoard] whether right or
    wrong, no other cell changes, [isCorrect] is
    [value === solution[row][col]], a wrong value adds one to
    [playerMistakes] and a right one adds one to [playerCellsFilled],
    [playerFinished] is set and returned as [finished] exactly when the
    value is right and the board then agrees with the solution
    everywhere, and no other field of the session changes. *)
Theorem playerPlace_cases w row col num :
  (∀ b, battle w = Some b → boards9 b) →
  (place_blocked w = true → playerPlace row col num w = Return None w)
  ∧ (place_blocked w = false →
     ∃ b,
       battle w = Some b
       ∧ ((9 ≤ row)%nat → playerPlace row col num w = Throw w)
       ∧ ((row < 9)%nat → is_original b row col = true →
            playerPlace row col num w = Return None w)
       ∧ ((row < 9)%nat → is_original b row col = false →
            ∃ b' correct,
              (col < 9)%nat
              ∧ grid_get (solution b) row col = Some correct
              ∧ playerPlace row col num w
                = Return (Some {| isCorrect := strict_eq num correct;
                                  finished := playerFinished b' |})
                    (with_battle (Some b') w)
              ∧ grid_get (playerBoard b') row col = Some num
              ∧ (∀ r c, (r, c) ≠ (row, col) →
                   grid_get (playerBoard b') r c
                   = grid_get (playerBoard b) r c)
              ∧ playerMistakes b'
                = playerMistakes b
                  + (if strict_eq num correct then 0 else 1)
              ∧ playerCellsFilled b'
                = playerCellsFilled b
                  + (if strict_eq num correct then 1 else 0)
              ∧ playerFinished b'
                = strict_eq num correct
                  && grids_agree (playerBoard b') (solution b)
              ∧ set_playerFinished (playerFinished b)
                  (set_playerMistakes (playerMistakes b)
                     (set_playerCellsFilled (playerCellsFilled b)
                        (set_playerBoard (playerBoard b) b')))
                = b)).
Proof.
  intros Hwf.
  unfold place_blocked, playerPlace, bind, read_battle.
  destruct (battle w) as [b|] eqn:Hb; [|by split].
  destruct (Hwf b eq_refl) as (Horig & Hsol & Hboard).
  destruct (ended b || playerFinished b) eqn:Hblocked; [by split|].
  split; [done|]. intros _. exists b. split; [done|].
  apply orb_false_iff in Hblocked as [He Hpf].
  split; [|split].
  - intros Hrow. unfold lift, grid_get.
    rewrite (proj2 (lookup_ge_None (original b) row))
      by (rewrite (proj1 Horig); lia).
    done.
  - intros Hrow Ho. unfold is_original in Ho.
    destruct (grid_get_row (original b) row col) as [o Hov];
      [rewrite (proj1 Horig); lia|].
    rewrite Hov in *. unfold lift. simpl.
    assert (Hne : strict_eq o (JNum 0) = false).
    { unfold strict_eq. apply bool_decide_eq_false_2. intros ->.
      rewrite (bool_decide_eq_true_2 _ eq_refl) in Ho. discriminate Ho. }
    by rewrite Hne.
  - intros Hrow Ho.
    pose proof (proj1 (is_original_false b row col) Ho) as Ho'.
    destruct (grid9_in_range _ _ _ _ Horig Ho') as [_ Hcol]; [done|].
    destruct (grid9_get _ row col Hsol Hrow Hcol) as (? & s & _ & _ & Hs).
    destruct (grid9_set _ row col num Hboard Hrow Hcol)
      as (board & Hset & Hboard' & Hnew & Hold).
    rewrite Ho', Hs, Hset.
    unfold lift, assign, deref_battle, lift, ret. simpl. rewrite Hb. simpl.
    destruct (strict_eq num s) eqn:Hright; simpl.
    + rewrite (boards_agree_spec all_cells board (solution b))
        by (first [apply Hboard' | apply Hsol
                  | intros rc Hrc; by apply all_cells_rows]).
      fold (grids_agree board (solution b)).
      destruct (grids_agree board (solution b)) eqn:Hagree; simpl.
      * exists (set_playerFinished true
                  (set_playerCellsFilled (playerCellsFilled b + 1)
                     (set_playerBoard board b))), s.
        split; [done|]. split; [done|]. rewrite Hright. simpl.
        rewrite ?Hagree, ?Hpf. split; [reflexivity|].
        split; [done|]. split; [done|]. split; [lia|]. split; [done|].
        split; [done|]. destruct b; simpl in *; by subst.
      * exists (set_playerCellsFilled (playerCellsFilled b + 1)
                  (set_playerBoard board b)), s.
        split; [done|]. split; [done|]. rewrite Hright. simpl.
        rewrite ?Hagree, ?Hpf. split; [reflexivity|].
        split; [done|]. split; [done|]. split; [lia|]. split; [done|].
        split; [done|]. destruct b; simpl in *; by subst.
    + exists (set_playerMistakes (playerMistakes b + 1)
                (set_playerBoard board b)), s.
      split; [done|]. split; [done|]. rewrite Hright. simpl.
      rewrite ?Hpf. split; [reflexivity|].
      split; [done|]. split; [done|]. split; [done|]. split; [lia|].
      split; [done|]. destruct b; simpl in *; by subst.
Qed.

Lemma playerPlace_cases_witness :
  place_blocked (holding sample_session) = false
  ∧ is_original sample_session 0 0 = false
  ∧ ∃ b',
      playerPlace 0 0 (JNum 1) (holding sample_session)
      = Return (Some {| isCorrect := true; finished := false |})
          (holding b')
      ∧ grid_get (playerBoard b') 0 0 = Some (JNum 1)
      ∧ playerCellsFilled b' = 1 ∧ playerMistakes b' = 0
      ∧ playerFinished b' = false.
Proof.
  split; [reflexivity|]. split; [reflexivity|].
  destruct (playerPlace_cases (holding sample_session) 0 0 (JNum 1))
    as [_ H].
  - intros b Hb. injection Hb as <-.
    repeat split; repeat constructor.
  - destruct (H eq_refl) as (b & Hb & _ & _ & Hplace).
    injection Hb as <-.
    destruct (Hplace ltac:(lia) eq_refl)
      as (b' & correct & _ & Hc & Hrun & Hcell & _ & Hm & Hf & Hfin & _).
    injection Hc as <-.
    exists b'. split; [|split; [exact Hcell|split; [exact Hf|split; [exact Hm|]]]].
    + rewrite Hrun. f_equal. f_equal. f_equal. rewrite Hfin.
      vm_compute in Hrun. injection Hrun as _ <-. reflexivity.
    + rewrite Hfin. vm_compute in Hrun. injection Hrun as _ <-. reflexivity.
Defined.

(** C6 as stated fails off the board. With a live session, a row past
    the last makes [playerPlace] throw: it neither returns [null] nor
    writes. A column past the last returns [null] although none of the
    four conditions holds: the session is live, the player has not
    finished and the puzzle has no original cell there. *)
Lemma playerPlace_off_the_board :
  let w := holding sample_session in
  (ended <$> battle w) = Some false
  ∧ (playerFinished <$> battle w) = Some false
  ∧ playerPlace 9 0 (JNum 1) w = Throw w
  ∧ grid_get (original sample_session) 0 9 = Some JUndef
  ∧ playerPlace 0 9 (JNum 1) w = Return None w.
Proof. vm_compute. done. Qed.

End PlayerOperations.


(* ===================================================================== *)
(** ** Termination happens once *)
(* ===================================================================== *)

Section Once.

Lemma follows_refl s : follows s s.
Proof.
  unfold follows. destruct s as [[[[[[] r] d]|] n] m]; simpl; try done.
  lia.
Qed.

Lemma follows_trans s1 s2 s3 :
  follows s1 s2 → follows s2 s3 → follows s1 s3.
Proof.
  unfold follows.
  destruct s1 as [[[[[e1 r1] d1]|] n1] m1]; simpl; [|done].
  destruct s2 as [[[[[e2 r2] d2]|] n2] m2]; simpl; [|done].
  destruct s3 as [[[[[e3 r3] d3]|] n3] m3]; simpl; [|done].
  destruct e1, e2, e3; simpl; intros; destruct_and?; simplify_eq;
    repeat split; try done; try lia.
Qed.

Lemma follows_same w w' : footprint w' = footprint w →
  follows (footprint w) (footprint w').
Proof. intros ->. apply follows_refl. Qed.

Lemma respects_ret {A} (a : A) : respects (ret a).
Proof. intros w. apply follows_refl. Qed.

Lemma respects_bind {A B} (m : M A) (k : A → M B) :
  respects m → (∀ a, respects (k a)) → respects (bind m k).
Proof.
  intros Hm Hk w. unfold bind. specialize (Hm w).
  destruct (m w) as [a w'|w']; simpl in *; [|done].
  eapply follows_trans; [exact Hm | apply Hk].
Qed.

Lemma respects_lift {A} (o : option A) : respects (lift o).
Proof. intros w. unfold lift. destruct o; apply follows_refl. Qed.

Lemma respects_read_battle : respects read_battle.
Proof. intros w. apply follows_refl. Qed.

Lemma respects_deref_battle : respects deref_battle.
Proof. intros w. unfold deref_battle. apply respects_lift. Qed.

Lemma respects_assign (f : Battle → Battle) :
  (∀ b, ended (f b) = ended b ∧ result (f b) = result b
        ∧ eloDelta (f b) = eloDelta b) →
  respects (assign f).
Proof.
  intros Hf w. unfold assign.
  destruct (battle w) as [b|] eqn:Hb; [|apply follows_refl].
  apply follows_same. unfold footprint. simpl. rewrite Hb. simpl.
  destruct (Hf b) as (-> & -> & ->). done.
Qed.

Lemma respects_call_if (f : callback) (e : nat → Effect) :
  (∀ h, is_UpdateELO (e h) = false ∧ is_OnBattleEnd (e h) = false) →
  respects (call_if f e).
Proof.
  intros He w. unfold call_if. destruct f as [h|]; [|apply follows_refl].
  apply follows_same. unfold footprint, rating_updates, end_callbacks.
  simpl. destruct (He h) as [-> ->]. done.
Qed.

Lemma respects_set_timer body delay : respects (set_timer body delay).
Proof. intros w. by apply follows_same. Qed.

Lemma respects_clear_timer id : respects (clear_timer id).
Proof. intros w. unfold clear_timer. destruct id; by apply follows_same. Qed.

Lemma respects_endBattle reason cb now : respects (endBattle reason cb now).
Proof.
  intros w. destruct (battle w) as [b|] eqn:Hb.
  - destruct (ended b) eqn:He.
    + rewrite (endBattle_ended w b) by done. apply follows_refl.
    + destruct (endBattle_live w b reason cb now Hb He)
        as (w' & b' & -> & Hb' & -> & _ & _ & _ & Hcalls).
      unfold follows, footprint, rating_updates, end_callbacks.
      simpl. rewrite Hb, Hb', Hcalls. simpl. rewrite He.
      destruct cb; simpl; lia.
  - unfold follows, footprint. by rewrite Hb.
Qed.

Ltac respects :=
  repeat first
    [ apply respects_endBattle
    | apply respects_bind; [|intros ?]
    | apply respects_ret
    | apply respects_lift
    | apply respects_read_battle
    | apply respects_deref_battle
    | apply respects_set_timer
    | apply respects_clear_timer
    | apply respects_assign; intros ?; done
    | apply respects_call_if; intros ?; done
    | match goal with
      | |- respects (if ?c then _ else _) => destruct c
      | |- respects (match ?o with Some _ => _ | None => _ end) =>
          destruct o
      end ].

Lemma respects_scheduleNextAICell prog fin u :
  respects (scheduleNextAICell prog fin u).
Proof. unfold scheduleNextAICell. respects. Qed.

Lemma respects_ai_step prog fin now u : respects (ai_step prog fin now u).
Proof. unfold ai_step. respects. Qed.

Lemma respects_countdown_tick tick fin now :
  respects (countdown_tick tick fin now).
Proof. unfold countdown_tick. respects. Qed.

Lemma respects_beginBattle prog tick fin u :
  respects (beginBattle prog tick fin u).
Proof. unfold beginBattle. respects. Qed.

Lemma respects_fire id now u : respects (fire id now u).
Proof.
  intros w. unfold fire.
  destruct (List.find _ (timers w)) as [t|]; [|apply follows_refl].
  destruct (timer_body t) as [tick fin|prog fin].
  - apply respects_countdown_tick.
  - eapply follows_trans; [|apply respects_ai_step].
    by apply follows_same.
Qed.

Lemma respects_playerPlace row col num : respects (playerPlace row col num).
Proof. unfold playerPlace. respects. Qed.

Lemma respects_playerErase row col : respects (playerErase row col).
Proof. unfold playerErase. respects. Qed.

Lemma respects_playerFinish cb now : respects (playerFinish cb now).
Proof. unfold playerFinish. respects. Qed.

Lemma respects_quitBattle cb now : respects (quitBattle cb now).
Proof. unfold quitBattle. respects. Qed.

Lemma step_follows generate e w :
  is_start e = false →
  follows (footprint w) (footprint (step generate e w)).
Proof.
  destruct e; simpl; [done|..]; intros _.
  - apply respects_beginBattle.
  - apply respects_playerPlace.
  - apply respects_playerErase.
  - apply respects_playerFinish.
  - apply respects_quitBattle.
  - apply respects_fire.
Qed.

Lemma run_follows generate es w :
  forallb (fun e => negb (is_start e)) es = true →
  follows (footprint w) (footprint (run generate es w)).
Proof.
  revert w. induction es as [|e es IH]; intros w Hes; simpl.
  - apply follows_refl.
  - apply andb_true_iff in Hes as [He Hes].
    apply negb_true_iff in He.
    eapply follows_trans; [by apply step_follows | by apply IH].
Qed.

(** C2. Termination is idempotent. Once [ended] is true, [endBattle]
    with any reason changes nothing at all: no field of the session,
    no rating update, no completion callback. Over any sequence of
    engine calls and timer firings in the life of a session, an ended
    session keeps [ended], [result] and [eloDelta] and causes no further
    rating update or completion callback; a live session causes exactly
    one rating update if it gets ended and none otherwise, and at most
    one completion callback. *)
Theorem termination_applies_once w b :
  battle w = Some b →
  (ended b = true →
     ∀ reason cb now, endBattle reason cb now w = Return tt w)
  ∧ ∀ generate es,
      forallb (fun e => negb (is_start e)) es = true →
      ∃ b',
        battle (run generate es w) = Some b'
        ∧ (ended b = true →
             ended b' = true ∧ result b' = result b
             ∧ eloDelta b' = eloDelta b
             ∧ rating_updates (run generate es w) = rating_updates w
             ∧ end_callbacks (run generate es w) = end_callbacks w)
        ∧ (ended b = false →
             rating_updates (run generate es w)
             = (rating_updates w + flag (ended b'))%nat
             ∧ (end_callbacks (run generate es w)
                ≤ end_callbacks w + flag (ended b'))%nat).
Proof.
  intros Hb. split.
  - intros He reason cb now. by apply endBattle_ended with b.
  - intros generate es Hes.
    pose proof (run_follows generate es w Hes) as H.
    unfold follows, footprint in H. rewrite Hb in H. simpl in H.
    destruct (battle (run generate es w)) as [b'|]; simpl in H; [|done].
    exists b'. split; [done|].
    destruct (ended b); split; intros; try done; destruct_and?; auto.
Qed.

Lemma termination_applies_once_witness :
  let w := holding sample_session in
  let es := [ BeginBattle (Some 1%nat) (Some 2%nat) (Some 3%nat) (halves 0%nat);
              QuitBattle (Some 3%nat) "2024-01-01";
              Fire 1 "2024-01-01" (halves 0%nat);
              PlayerFinish (Some 3%nat) "2024-01-02";
              QuitBattle (Some 3%nat) "2024-01-03" ] in
  ∃ b',
    battle (run (generate_with []) es w) = Some b'
    ∧ rating_updates (run (generate_with []) es w)
      = (rating_updates w + flag (ended b'))%nat
    ∧ (end_callbacks (run (generate_with []) es w)
       ≤ end_callbacks w + flag (ended b'))%nat.
Proof.
  intros w es.
  destruct (termination_applies_once w sample_session eq_refl) as [_ H].
  destruct (H (generate_with []) es eq_refl) as (b' & Hb' & _ & Hlive).
  exists b'. split; [exact Hb'|]. apply Hlive. reflexivity.
Defined.

End Once.


(* ===================================================================== *)
(** ** Where the engine departs from its invariants *)
(* ===================================================================== *)

Section Departures.

(** C1. [startBattle] replaces [battle] without clearing the timers of
    the session it supersedes, and their callbacks read [battle] when
    they run. In the puzzle with two empty cells: the first session is
    begun, which arms countdown 1 and AI timeout 2; a second session is
    started and not begun. Countdown 1 then takes a second off the new
    session's clock and reports it, and timeout 2 counts an AI cell for
    it and arms a successor. *)
Lemma superseded_timers_act_on_new_session :
  let g := generate_with [(0, 0); (4, 5)]%nat in
  let old :=
    run g [ StartBattle "medium" 1 zeros;
            BeginBattle (Some 1%nat) (Some 2%nat) (Some 3%nat) (halves 0%nat) ]
      initial_world in
  let new := run g [ StartBattle "medium" 2 zeros ] old in
  let ticked := run g [ Fire 1 "2024-01-01" (halves 0%nat) ] new in
  let stepped := run g [ Fire 2 "2024-01-01" (halves 0%nat) ] new in
  (timerIntervalId <$> battle old) = Some (Some 1%nat)
  ∧ (aiIntervalId <$> battle old) = Some (Some 2%nat)
  ∧ (seed <$> battle new) = Some 2%nat
  ∧ (started <$> battle new) = Some false
  ∧ (timerIntervalId <$> battle new) = Some None
  ∧ (timeRemaining <$> battle new) = Some 600
  ∧ (aiCellsFilled <$> battle new) = Some 0
  ∧ (timeRemaining <$> battle ticked) = Some 599
  ∧ calls ticked = [OnTimerTick 2 599]
  ∧ (aiCellsFilled <$> battle stepped) = Some 1
  ∧ (aiIntervalId <$> battle stepped) = Some (Some 3%nat)
  ∧ calls stepped = [OnAIProgress 1 1 2].
Proof. vm_compute. repeat split. Qed.

(** C3. [playerPlace] adds one to [playerCellsFilled] for every right
    value, also into a cell that already holds it, and takes nothing
    off when a right value is overwritten by a wrong one. In the puzzle
    with two empty cells: placing the right value twice into (0,0)
    leaves the count at 2 with one matching cell; placing the right
    value and then a wrong one leaves it at 1 with none. *)
Lemma playerCellsFilled_drifts_from_board :
  let g := generate_with [(0, 0); (4, 5)]%nat in
  let twice :=
    run g [ StartBattle "medium" 1 zeros;
            PlayerPlace 0 0 (JNum 1); PlayerPlace 0 0 (JNum 1) ]
      initial_world in
  let overwritten :=
    run g [ StartBattle "medium" 1 zeros;
            PlayerPlace 0 0 (JNum 1); PlayerPlace 0 0 (JNum 5) ]
      initial_world in
  (playerCellsFilled <$> battle twice) = Some 2
  ∧ (matching_cells <$> battle twice) = Some 1
  ∧ (playerCellsFilled <$> battle overwritten) = Some 1
  ∧ (matching_cells <$> battle overwritten) = Some 0.
Proof. vm_compute. repeat split. Qed.

End Departures.

(* ===================================================================== *)
(** ** Levels, leagues and the PvP record *)
(* ===================================================================== *)

Section Standing.

Import Player.

(** X1. Levels and experience are inverse to each other: the level of
    the experience a level needs is that level, and the level computed
    from any non-negative experience is the one whose bracket
    [[xpForLevel L, xpForLevel (L + 1))] holds it. *)
Theorem levelFromXP_brackets :
  (∀ l, 0 ≤ l → levelFromXP (xpForLevel l) = l)
  ∧ (∀ x, 0 ≤ x →
       0 ≤ levelFromXP x
       ∧ xpForLevel (levelFromXP x) ≤ x
       ∧ x < xpForLevel (levelFromXP x + 1)).
Proof.
  unfold levelFromXP, xpForLevel. split.
  - intros l Hl. rewrite Z.div_mul by lia. by apply Z.sqrt_square.
  - intros x Hx.
    assert (Hq : 0 ≤ x / 100) by (apply Z.div_pos; lia).
    pose proof (Z.sqrt_spec (x / 100) Hq) as [Hlo Hhi].
    pose proof (Z.sqrt_nonneg (x / 100)) as Hs.
    pose proof (Z.mul_div_le x 100 ltac:(lia)) as Hle.
    pose proof (Z.mul_succ_div_gt x 100 ltac:(lia)) as Hgt.
    unfold Z.succ in *. split; [done|]. split; nia.
Qed.

Lemma levelFromXP_brackets_witness :
  levelFromXP (xpForLevel 7) = 7
  ∧ xpForLevel (levelFromXP 1234) ≤ 1234
  ∧ 1234 < xpForLevel (levelFromXP 1234 + 1).
Proof.
  destruct levelFromXP_brackets as [Hinv Hbr].
  split; [apply Hinv; lia|].
  destruct (Hbr 1234) as (_ & Hlo & Hhi); [lia|]. by split.
Defined.

(** X2. [getLeague] always returns one of the four leagues; when the
    rating read by [getELO] is not negative it is the highest league
    whose threshold the rating reaches, and for a negative rating it is
    the first league. *)
Theorem getLeague_highest_reached d :
  ∃ l,
    getLeague d = Some l
    ∧ l ∈ LEAGUES
    ∧ (0 ≤ getELO d →
         minELO l ≤ getELO d
         ∧ ∀ l', l' ∈ LEAGUES → minELO l' ≤ getELO d →
                 minELO l' ≤ minELO l)
    ∧ (getELO d < 0 → LEAGUES !! 0%nat = Some l).
Proof.
  unfold getLeague. generalize (getELO d). intros e. simpl.
  destruct (1800 <=? e) eqn:H4; [|destruct (1500 <=? e) eqn:H3;
    [|destruct (1200 <=? e) eqn:H2; [|destruct (0 <=? e) eqn:H1]]];
    eexists; (split; [reflexivity|]);
    (split; [unfold LEAGUES; set_solver|]);
    (split; [|intros; first [lia | reflexivity]]);
    intros He; (split; [simpl; lia|]);
    intros l' Hl' Hreach; unfold LEAGUES in Hl';
    repeat (apply elem_of_cons in Hl' as [->|Hl']); simpl in *;
    try lia; by apply elem_of_nil in Hl'.
Qed.

Lemma getLeague_highest_reached_witness :
  ∃ l,
    getLeague (updateELO 510 {| md_result := Some Win;
                                md_opponent := "GridNinja";
                                md_difficulty := "easy";
                                md_playerProgress := JS.Fin 100;
                                md_aiProgress := JS.Fin 50;
                                md_timeUsed := 600 |}
                 "2024-01-01" createDefaultData) = Some l
    ∧ minELO l = 1500.
Proof.
  destruct (getLeague_highest_reached
              (updateELO 510 {| md_result := Some Win;
                                md_opponent := "GridNinja";
                                md_difficulty := "easy";
                                md_playerProgress := JS.Fin 100;
                                md_aiProgress := JS.Fin 50;
                                md_timeUsed := 600 |}
                 "2024-01-01" createDefaultData))
    as (l & Hl & _ & Hhigh & _).
  exists l. split; [exact Hl|].
  injection Hl as <-. reflexivity.
Defined.

Lemma pvp_counters_updateELO delta md now d :
  matches_counted (updateELO delta md now d) = matches_counted d + 1
  ∧ xp (updateELO delta md now d)
    = xp d + (if bool_decide (md_result md = Some Win) then 75 else 0)
  ∧ coins (updateELO delta md now d)
    = coins d + (if bool_decide (md_result md = Some Win) then 15 else 0)
  ∧ (level d = levelFromXP (xp d) →
       level (updateELO delta md now d)
       = levelFromXP (xp (updateELO delta md now d))).
Proof.
  unfold matches_counted, updateELO, JS.or_default.
  destruct (md_result md) as [[]|]; simpl;
    destruct (pvpWins d =? 0) eqn:?, (pvpLosses d =? 0) eqn:?,
      (pvpDraws d =? 0) eqn:?;
    rewrite ?Z.eqb_eq in *; repeat split; intros; try lia;
    rewrite ?Z.add_0_r; done.
Qed.

(** X3. Every rating update counts its match in exactly one of the
    three PvP counters, a result that is neither [win] nor [lose]
    (also a missing one) as a draw; so after any sequence of updates the
    counters have grown by the number of updates in total. *)
Theorem pvp_record_counts_every_match d us :
  matches_counted (run_updates us d)
  = matches_counted d + Z.of_nat (length us)
  ∧ ∀ delta md now,
      let d' := updateELO delta md now (run_updates us d) in
      match md_result md with
      | Some Win =>
          wins (getPvPRecord d') = wins (getPvPRecord (run_updates us d)) + 1
          ∧ losses (getPvPRecord d') = losses (getPvPRecord (run_updates us d))
          ∧ draws (getPvPRecord d') = draws (getPvPRecord (run_updates us d))
      | Some Lose =>
          wins (getPvPRecord d') = wins (getPvPRecord (run_updates us d))
          ∧ losses (getPvPRecord d')
            = losses (getPvPRecord (run_updates us d)) + 1
          ∧ draws (getPvPRecord d') = draws (getPvPRecord (run_updates us d))
      | _ =>
          wins (getPvPRecord d') = wins (getPvPRecord (run_updates us d))
          ∧ losses (getPvPRecord d') = losses (getPvPRecord (run_updates us d))
          ∧ draws (getPvPRecord d')
            = draws (getPvPRecord (run_updates us d)) + 1
      end.
Proof.
  split.
  - revert d. induction us as [|[[delta md] now] us IH]; intros d.
    + simpl. lia.
    + change (run_updates ((delta, md, now) :: us) d)
        with (run_updates us (updateELO delta md now d)).
      rewrite IH.
      destruct (pvp_counters_updateELO delta md now d) as [-> _].
      rewrite length_cons. lia.
  - intros delta md now. generalize (run_updates us d). intros e.
    unfold getPvPRecord, updateELO, JS.or_default.
    destruct (md_result md) as [[]|]; simpl;
      destruct (pvpWins e =? 0) eqn:?, (pvpLosses e =? 0) eqn:?,
        (pvpDraws e =? 0) eqn:?;
      rewrite ?Z.eqb_eq in *; simpl;
      rewrite ?Z.eqb_eq in *; repeat split;
      repeat case_match; rewrite ?Z.eqb_eq, ?Z.eqb_neq in *; lia.
Qed.

(** X4. Only a win pays: after any sequence of rating updates the
    experience has grown by 75 and the coins by 15 for every update with
    result [win], and by nothing else; and a level that agreed with the
    experience still agrees with it. *)
Theorem win_bonus_accounting d us :
  xp (run_updates us d) = xp d + 75 * wins_in us
  ∧ coins (run_updates us d) = coins d + 15 * wins_in us
  ∧ (level d = levelFromXP (xp d) →
       level (run_updates us d) = levelFromXP (xp (run_updates us d))).
Proof.
  revert d. induction us as [|[[delta md] now] us IH]; intros d.
  - unfold wins_in. simpl. repeat split; [lia | lia | done].
  - change (run_updates ((delta, md, now) :: us) d)
      with (run_updates us (updateELO delta md now d)).
    destruct (IH (updateELO delta md now d)) as (Hxp & Hcoins & Hlevel).
    destruct (pvp_counters_updateELO delta md now d)
      as (_ & Hxp1 & Hcoins1 & Hstep).
    assert (Hwins : ∀ u : Update,
               wins_in (u :: us)
               = (if bool_decide (md_result u.1.2 = Some Win) then 1 else 0)
                 + wins_in us).
    { intros u. unfold wins_in. simpl List.filter.
      destruct (bool_decide (md_result u.1.2 = Some Win)); simpl length; lia. }
    rewrite Hwins, Hxp, Hcoins, Hxp1, Hcoins1. simpl fst; simpl snd.
    split; [|split].
    + destruct (bool_decide (md_result md = Some Win)); lia.
    + destruct (bool_decide (md_result md = Some Win)); lia.
    + intros Hd. rewrite (Hlevel (Hstep Hd)), Hxp, Hxp1. reflexivity.
Qed.

Lemma win_bonus_accounting_witness :
  let won := {| md_result := Some Win; md_opponent := "GridNinja";
                md_difficulty := "easy"; md_playerProgress := JS.Fin 100;
                md_aiProgress := JS.Fin 50; md_timeUsed := 600 |} in
  let d := run_updates [(25, won, "2024-01-01"%string);
                        (25, won, "2024-01-02"%string)] createDefaultData in
  level createDefaultData = levelFromXP (xp createDefaultData)
  ∧ xp d = 150 ∧ coins d = 30 ∧ level d = 1.
Proof.
  intros won d. split; [reflexivity|].
  destruct (win_bonus_accounting createDefaultData
              [(25, won, "2024-01-01"%string); (25, won, "2024-01-02"%string)])
    as (Hxp & Hcoins & Hlevel).
  split; [exact Hxp|]. split; [exact Hcoins|].
  exact (Hlevel eq_refl).
Defined.

End Standing.

(* ===================================================================== *)
(** ** Shop *)
(* ===================================================================== *)

Section Shop.

Import Player.

Lemma find_theme themeId t :
  List.find (fun t => String.eqb (theme_id t) themeId) THEMES = Some t →
  theme_id t = themeId ∧ 0 ≤ price t.
Proof.
  intros H. apply find_some in H as [Hin Heq].
  apply String.eqb_eq in Heq. split; [done|].
  unfold THEMES in Hin. simpl in Hin.
  destruct Hin as [<-|[<-|[<-|[<-|[]]]]]; simpl; lia.
Qed.

Lemma themes_value_app l themeId active q :
  themes_value (with_themes (l ++ [themeId]) active q)
  = foldr (fun themeId acc => price_of themeId + acc) 0 l + price_of themeId.
Proof.
  unfold themes_value. simpl.
  induction l as [|x xs IH]; simpl; lia.
Qed.

Lemma shop_kept_refl p : shop_kept p p.
Proof.
  unfold shop_kept. repeat split; try done; try lia.
  by destruct p as [[] ? ? ? ? ? ? ? ? ?].
Qed.

Lemma shop_kept_trans p1 p2 p3 :
  shop_kept p1 p2 → shop_kept p2 p3 → shop_kept p1 p3.
Proof.
  unfold shop_kept.
  intros (H1 & H2 & H3 & H4 & H5 & H6 & H7)
         (G1 & G2 & G3 & G4 & G5 & G6 & G7).
  repeat split; try lia; auto.
  - by etrans.
  - clear -H7 G7.
    destruct p1 as [[] ? ? ? ? ? ? ? ? ?], p2 as [[] ? ? ? ? ? ? ? ? ?],
      p3 as [[] ? ? ? ? ? ? ? ? ?].
    unfold with_themes, with_core, with_coins in *. simpl in *.
    injection H7; injection G7; intros; subst; reflexivity.
Qed.

Lemma shop_step_kept p a : shop_kept p (shop_step p a).
Proof.
  destruct a as [themeId|themeId]; simpl.
  - unfold buyTheme.
    destruct (List.find _ THEMES) as [t|] eqn:Hfind;
      [|apply shop_kept_refl].
    destruct (find_theme _ _ Hfind) as [Hid Hprice].
    case_bool_decide as Howned; [apply shop_kept_refl|].
    destruct (coins (core p) <? price t) eqn:Hcoins;
      [apply shop_kept_refl|].
    apply Z.ltb_ge in Hcoins. simpl.
    unfold shop_kept. rewrite themes_value_app. simpl.
    fold (themes_value p). unfold price_of. rewrite Hfind.
    repeat split; try lia.
    + intros Hnd. apply NoDup_app. repeat split; try done.
      * intros x Hx ->%list_elem_of_singleton. done.
      * apply NoDup_singleton.
    + intros Hact. apply elem_of_app. by left.
    + by apply prefix_app_r.
    + by destruct p as [[] ? ? ? ? ? ? ? ? ?].
  - unfold equipTheme.
    case_bool_decide as Howned; simpl; [|apply shop_kept_refl].
    unfold shop_kept, themes_value. simpl. repeat split; try done; try lia.
    by destruct p as [[] ? ? ? ? ? ? ? ? ?].
Qed.

Lemma shop_run_kept p acts : shop_kept p (shop_run acts p).
Proof.
  revert p. induction acts as [|a acts IH]; intros p; simpl.
  - apply shop_kept_refl.
  - eapply shop_kept_trans; [apply shop_step_kept | apply IH].
Qed.

(** X5. Over any sequence of purchases and equips, coins are only ever
    exchanged for catalogue value: coins plus the value of the unlocked
    themes is constant, coins never grow and never become negative if
    they were not, a theme once unlocked stays unlocked and is never
    listed twice, the active theme stays among the unlocked ones, and
    nothing but coins, unlocked themes and active theme changes. *)
Theorem shop_conserves_value p acts :
  shop_kept p (shop_run acts p).
Proof. apply shop_run_kept. Qed.

(** X6. [buyTheme] succeeds exactly when the id is in the catalogue, is
    not yet unlocked and the coins cover the price. A theme bought can at
    once be equipped, and whatever is done in the shop afterwards,
    buying it again is refused as already owned and changes nothing. *)
Theorem theme_is_paid_once themeId p :
  ((buyTheme themeId p).1 = Bought ↔
     (∃ t, List.find (fun t' => String.eqb (theme_id t') themeId) THEMES
           = Some t
           ∧ (themeId ∉ unlockedThemes p)
           ∧ price t ≤ coins (core p)))
  ∧ ((buyTheme themeId p).1 = Bought →
       (equipTheme themeId (buyTheme themeId p).2).1 = true
       ∧ activeTheme (equipTheme themeId (buyTheme themeId p).2).2 = themeId
       ∧ ∀ acts,
           buyTheme themeId (shop_run acts (buyTheme themeId p).2)
           = (Refused "Already owned",
              shop_run acts (buyTheme themeId p).2)).
Proof.
  assert (Hbuy : (buyTheme themeId p).1 = Bought →
            (∃ t, List.find (fun t' => String.eqb (theme_id t') themeId) THEMES
                  = Some t
                  ∧ (themeId ∉ unlockedThemes p)
                  ∧ price t ≤ coins (core p)
                  ∧ themeId ∈ unlockedThemes (buyTheme themeId p).2)).
  { unfold buyTheme. destruct (List.find _ THEMES) as [t|]; [|done].
    case_bool_decide; [done|].
    destruct (coins (core p) <? price t) eqn:E; [done|].
    apply Z.ltb_ge in E. intros _. exists t. simpl.
    repeat split; try done. apply elem_of_app. right.
    by apply list_elem_of_singleton. }
  split; [split|].
  - intros H. destruct (Hbuy H) as (t & ? & ? & ? & _). by exists t.
  - intros (t & Hfind & Hnew & Hprice). unfold buyTheme. rewrite Hfind.
    rewrite bool_decide_eq_false_2 by done.
    by replace (coins (core p) <? price t) with false
      by (symmetry; apply Z.ltb_ge; lia).
  - intros H. destruct (Hbuy H) as (t & Hfind & _ & _ & Hin).
    unfold equipTheme at 1 2. rewrite bool_decide_eq_true_2 by done.
    split; [done|]. split; [done|].
    intros acts.
    destruct (shop_run_kept (buyTheme themeId p).2 acts)
      as (_ & _ & _ & _ & _ & [k Hk] & _).
    unfold buyTheme at 1. rewrite Hfind.
    rewrite bool_decide_eq_true_2; [done|].
    rewrite Hk. apply elem_of_app. by left.
Qed.


Lemma theme_is_paid_once_witness :
  let p := with_core (with_coins 60 createDefaultData) createDefaultProfile in
  (buyTheme "neon" p).1 = Bought
  ∧ coins (core (buyTheme "neon" p).2) = 10
  ∧ buyTheme "neon" (shop_run [Equip "neon"; Buy "woodcraft"]
                       (buyTheme "neon" p).2)
    = (Refused "Already owned",
       shop_run [Equip "neon"; Buy "woodcraft"] (buyTheme "neon" p).2).
Proof.
  intros p.
  destruct (theme_is_paid_once "neon" p) as [_ H].
  assert (Hb : (buyTheme "neon" p).1 = Bought) by reflexivity.
  destruct (H Hb) as (_ & _ & Hagain).
  split; [exact Hb|]. split; [reflexivity|]. apply Hagain.
Defined.

End Shop.

(* ===================================================================== *)
(** ** Streak *)
(* ===================================================================== *)

Section Streak.

Import Player.

Lemma recordPlay_after today yesterday p :
  lastPlayedDate (recordPlay today yesterday p) = Some today.
Proof.
  unfold recordPlay. case_bool_decide as H1; simpl; [done|].
  by case_bool_decide.
Qed.

Lemma updateStreak_lastPlayedDate today yesterday p :
  lastPlayedDate (updateStreak today yesterday p) = lastPlayedDate p.
Proof.
  unfold updateStreak. repeat case_bool_decide; try done.
  destruct (lastPlayedDate p) as [last|] eqn:E; [|done].
  by destruct (negb (String.eqb last "") && negb (String.eqb last today)).
Qed.

Lemma updateStreak_yesterday today p prev :
  lastPlayedDate p = Some prev →
  streak (updateStreak today prev p) = streak p.
Proof.
  intros H. unfold updateStreak. rewrite H.
  case_bool_decide; [done|]. by rewrite bool_decide_eq_true_2.
Qed.

Lemma play_days_continue prev days p :
  days_differ prev days →
  lastPlayedDate p = Some prev →
  streak (play_days prev days p) = streak p + Z.of_nat (length days).
Proof.
  revert prev p. induction days as [|d days IH]; intros prev p Hdiff Hlast.
  - simpl. lia.
  - destruct Hdiff as [Hne Hdiff]. simpl play_days.
    rewrite (IH d); [|done|apply recordPlay_after].
    unfold recordPlay.
    rewrite updateStreak_lastPlayedDate, Hlast.
    rewrite bool_decide_eq_false_2 by congruence. simpl.
    rewrite bool_decide_eq_true_2 by done. simpl.
    rewrite (updateStreak_yesterday d p prev Hlast).
    cbn [length]. lia.
Qed.

(** X7. Playing on consecutive days builds the streak day by day: if no
    day equals the day before it, then from a profile last played on the
    eve of the first day the streak grows by the number of days, and from
    a profile never played it equals the number of days. *)
Theorem streak_counts_consecutive_days prev days p :
  days_differ prev days →
  (lastPlayedDate p = Some prev →
     streak (play_days prev days p) = streak p + Z.of_nat (length days))
  ∧ (lastPlayedDate p = None → days ≠ [] →
     streak (play_days prev days p) = Z.of_nat (length days)).
Proof.
  intros Hdiff. split; [by apply play_days_continue|].
  intros Hnever Hdays. destruct days as [|d days]; [done|].
  destruct Hdiff as [Hne Hdiff]. simpl play_days.
  rewrite (play_days_continue d days); [|done|apply recordPlay_after].
  unfold recordPlay. rewrite updateStreak_lastPlayedDate, Hnever.
  simpl. cbn [length]. lia.
Qed.

Lemma streak_counts_consecutive_days_witness :
  days_differ "2024-01-01" ["2024-01-02"; "2024-01-03"; "2024-01-04"]%string
  ∧ streak (play_days "2024-01-01"
              ["2024-01-02"; "2024-01-03"; "2024-01-04"]%string
              createDefaultProfile) = 3.
Proof.
  assert (H : days_differ "2024-01-01"
                ["2024-01-02"; "2024-01-03"; "2024-01-04"]%string).
  { simpl. repeat split; discriminate. }
  split; [exact H|].
  apply (proj2 (streak_counts_consecutive_days _ _ createDefaultProfile H));
    [reflexivity | discriminate].
Defined.

(** X8. A second game on the same day does not count again: after
    [recordPlay] the profile is marked as played today and a further
    [recordPlay] or [updateStreak] of that day changes nothing. After a
    missed day (last played neither today nor yesterday) [updateStreak]
    shows a streak of 0 and the next game starts a new streak at 1. *)
Theorem streak_counts_a_day_once today yesterday p :
  lastPlayedDate (recordPlay today yesterday p) = Some today
  ∧ recordPlay today yesterday (recordPlay today yesterday p)
    = recordPlay today yesterday p
  ∧ updateStreak today yesterday (recordPlay today yesterday p)
    = recordPlay today yesterday p
  ∧ (∀ last, lastPlayedDate p = Some last →
       last ≠ today → last ≠ yesterday → last ≠ ""%string →
       streak (updateStreak today yesterday p) = 0
       ∧ streak (recordPlay today yesterday
                   (updateStreak today yesterday p)) = 1).
Proof.
  pose proof (recordPlay_after today yesterday p) as Hafter.
  split; [done|]. split; [|split].
  - unfold recordPlay at 1. by rewrite Hafter, bool_decide_eq_true_2.
  - unfold updateStreak. by rewrite Hafter, bool_decide_eq_true_2.
  - intros last Hlast Ht Hy He.
    assert (Hreset : updateStreak today yesterday p
                     = with_streak 0 (lastPlayedDate p) p).
    { unfold updateStreak. rewrite Hlast.
      rewrite !bool_decide_eq_false_2 by congruence.
      apply String.eqb_neq in Ht, He. by rewrite Ht, He. }
    rewrite Hreset. split; [done|].
    unfold recordPlay. simpl. rewrite Hlast.
    by rewrite !bool_decide_eq_false_2 by congruence.
Qed.

Lemma streak_counts_a_day_once_witness :
  let p := with_streak 5 (Some "2024-01-01"%string) createDefaultProfile in
  streak (updateStreak "2024-01-09" "2024-01-08" p) = 0
  ∧ streak (recordPlay "2024-01-09" "2024-01-08"
              (updateStreak "2024-01-09" "2024-01-08" p)) = 1.
Proof.
  intros p.
  destruct (streak_counts_a_day_once "2024-01-09" "2024-01-08" p)
    as (_ & _ & _ & H).
  apply (H "2024-01-01"%string); [reflexivity | discriminate..].
Defined.

End Streak.

(* ===================================================================== *)
(** ** Daily quests *)
(* ===================================================================== *)

Section Quests.

Import Player.

Lemma check_each_spec ts qs :
  let '(qs', x, c, done) := check_each ts qs in
  length qs' = length qs
  ∧ x = sum_xp done ∧ c = sum_coins done
  ∧ Forall (fun q => completed q = true) done
  ∧ done
    = complete <$> List.filter
                     (fun q => negb (completed q) && quest_done ts q) qs
  ∧ qs' = (fun q => if negb (completed q) && quest_done ts q
                    then complete q else q) <$> qs.
Proof.
  induction qs as [|q qs IH]; simpl; [done|].
  destruct (check_each ts qs) as [[[qs' x] c] done].
  destruct IH as (Hlen & -> & -> & Hall & -> & ->).
  destruct (completed q) eqn:Hc; simpl.
  - rewrite length_fmap. repeat split; done.
  - destruct (quest_done ts q) eqn:Hd; simpl.
    + rewrite length_fmap. repeat split; try done.
      by constructor.
    + rewrite length_fmap. repeat split; done.
Qed.

Lemma check_each_again ts qs :
  check_each ts (check_each ts qs).1.1.1 = ((check_each ts qs).1.1.1, 0, 0, []).
Proof.
  induction qs as [|q qs IH]; simpl; [done|].
  destruct (check_each ts qs) as [[[qs' x] c] done]. simpl in IH.
  destruct (completed q) eqn:Hc; simpl.
  - by rewrite Hc, IH.
  - destruct (quest_done ts q) eqn:Hd; simpl.
    + by rewrite IH.
    + by rewrite Hc, Hd, IH.
Qed.

(** X9. [checkQuests] pays every quest once: it completes exactly the
    quests that were open and whose condition holds, returns them in
    order, adds the sum of their rewards to experience and coins, and
    leaves the other quests, the level and everything else alone.
    Running it again with the same statistics pays nothing and changes
    nothing. *)
Theorem checkQuests_pays_once p :
  let p' := (checkQuests p).1 in
  let paid := (checkQuests p).2 in
  paid = complete <$> List.filter
                        (fun q => negb (completed q)
                                  && quest_done (todayStats p) q)
                        (quests p)
  ∧ quests p' = (fun q => if negb (completed q)
                                && quest_done (todayStats p) q
                           then complete q else q) <$> quests p
  ∧ xp (core p') = xp (core p) + sum_xp paid
  ∧ coins (core p') = coins (core p) + sum_coins paid
  ∧ level (core p') = level (core p)
  ∧ with_quests (quests p)
      (with_core (with_coins (coins (core p))
                    (with_xp (xp (core p)) (core p'))) p') = p
  ∧ checkQuests p' = (p', []).
Proof.
  unfold checkQuests.
  pose proof (check_each_spec (todayStats p) (quests p)) as Hspec.
  pose proof (check_each_again (todayStats p) (quests p)) as Hagain.
  destruct (check_each (todayStats p) (quests p)) as [[[qs' x] c] done].
  destruct Hspec as (Hlen & -> & -> & Hall & Hdone & Hqs).
  simpl in *. rewrite Hagain.
  repeat split; try done.
  - by destruct p as [[] ? ? ? ? ? ? ? ? ?].
  - unfold with_quests, with_core, with_coins, with_xp. simpl.
    rewrite !Z.add_0_r. done.
Qed.

End Quests.

(* ===================================================================== *)
(** ** The quest hash *)
(* ===================================================================== *)

Section Hash.

Import Player.

Lemma to_int32_repr a : ∃ k, to_int32 a = a + k * 2 ^ 32.
Proof.
  unfold to_int32. exists (- ((a + 2 ^ 31) / 2 ^ 32)).
  rewrite Z.mod_eq by lia. lia.
Qed.

Lemma to_int32_shift a k : to_int32 (a + k * 2 ^ 32) = to_int32 a.
Proof.
  unfold to_int32. f_equal.
  replace (a + k * 2 ^ 32 + 2 ^ 31) with (a + 2 ^ 31 + k * 2 ^ 32) by lia.
  apply Z_mod_plus_full.
Qed.

Lemma to_int32_range a : - 2 ^ 31 ≤ to_int32 a < 2 ^ 31.
Proof.
  unfold to_int32.
  pose proof (Z.mod_pos_bound (a + 2 ^ 31) (2 ^ 32) ltac:(lia)). lia.
Qed.

Lemma hash_step h p code :
  h = to_int32 p →
  to_int32 (to_int32 (to_int32 h * 2 ^ 5) - h + code)
  = to_int32 (31 * p + code).
Proof.
  intros ->.
  destruct (to_int32_repr p) as [k1 H1].
  destruct (to_int32_repr (to_int32 p)) as [k2 H2].
  destruct (to_int32_repr (to_int32 (to_int32 p) * 2 ^ 5)) as [k3 H3].
  rewrite H3, H2, H1.
  replace ((p + k1 * 2 ^ 32 + k2 * 2 ^ 32) * 2 ^ 5 + k3 * 2 ^ 32
           - (p + k1 * 2 ^ 32) + code)
    with (31 * p + code + (31 * k1 + 32 * k2 + k3) * 2 ^ 32) by lia.
  apply to_int32_shift.
Qed.

Lemma hash_loop str h p :
  h = to_int32 p →
  fold_left
    (fun hash code => to_int32 (to_int32 (to_int32 hash * 2 ^ 5) - hash + code))
    str h
  = to_int32 (fold_left (fun acc code => 31 * acc + code) str p).
Proof.
  revert h p. induction str as [|c str IH]; intros h p Hh; simpl; [done|].
  apply IH. by apply hash_step.
Qed.

(** X10. The shift-and-wrap loop of [hashStr] computes the polynomial
    hash with base 31 of the code units, reduced to a signed 32-bit
    integer, and returns its absolute value: a number from 0 to 2^31
    inclusive. *)
Theorem hashStr_is_polynomial_hash str :
  hashStr str = Z.abs (to_int32 (poly31 str))
  ∧ 0 ≤ hashStr str ≤ 2 ^ 31.
Proof.
  assert (H : hashStr str = Z.abs (to_int32 (poly31 str))).
  { unfold hashStr, poly31. f_equal. by apply hash_loop. }
  split; [exact H|]. rewrite H.
  pose proof (to_int32_range (poly31 str)). lia.
Qed.

End Hash.

(* ===================================================================== *)
(** ** Profile figures *)
(* ===================================================================== *)

Section Figures.

Import Player.

Lemma Qdiv_times100_bounds a b :
  0 ≤ a → a < b →
  (0 <= inject_Z a / inject_Z b * 100)%Q
  ∧ (inject_Z a / inject_Z b * 100 < 100)%Q.
Proof.
  intros Ha Hab.
  assert (Hb : (0 < inject_Z b)%Q) by (rewrite <- (Zlt_Qlt 0); lia).
  assert (Ha' : (0 <= inject_Z a)%Q) by (rewrite <- (Zle_Qle 0); lia).
  assert (Hab' : (inject_Z a < inject_Z b)%Q) by (by rewrite <- Zlt_Qlt).
  split.
  - apply Qmult_le_0_compat; [|done].
    apply Qle_shift_div_l; [done|]. by rewrite Qmult_0_l.
  - rewrite <- (Qmult_1_l 100) at 2.
    apply Qmult_lt_compat_r; [done|].
    apply Qlt_shift_div_r; [done|]. by rewrite Qmult_1_l.
Qed.

Lemma level_bracket x :
  0 ≤ x →
  xpForLevel (levelFromXP x) ≤ x ∧ x < xpForLevel (levelFromXP x + 1).
Proof.
  intros Hx. unfold levelFromXP, xpForLevel.
  assert (Hq : 0 ≤ x / 100) by (apply Z.div_pos; lia).
  pose proof (Z.sqrt_spec (x / 100) Hq) as [Hlo Hhi].
  pose proof (Z.sqrt_nonneg (x / 100)) as Hs.
  pose proof (Z.mul_div_le x 100 ltac:(lia)) as Hle.
  pose proof (Z.mul_succ_div_gt x 100 ltac:(lia)) as Hgt.
  unfold Z.succ in *. split; nia.
Qed.

(** X11. [getXPProgress] never divides by zero for a level that is not
    negative: the experience needed for the next level is
    [(2 level + 1) 100]. When the stored level is the level of the
    stored experience, the progress lies in [[0, needed)] and the
    percentage is a number in [[0, 100)]. *)
Theorem getXPProgress_within_level p :
  0 ≤ level (core p) →
  needed (getXPProgress p) = (2 * level (core p) + 1) * 100
  ∧ 0 < needed (getXPProgress p)
  ∧ (0 ≤ xp (core p) → level (core p) = levelFromXP (xp (core p)) →
       0 ≤ progress (getXPProgress p) < needed (getXPProgress p)
       ∧ ∃ q, percent (getXPProgress p) = JS.Fin q
              ∧ (0 <= q)%Q ∧ (q < 100)%Q).
Proof.
  intros Hl.
  assert (Hn : needed (getXPProgress p) = (2 * level (core p) + 1) * 100).
  { unfold getXPProgress, xpForLevel. simpl. lia. }
  split; [exact Hn|]. split; [lia|].
  intros Hxp Hlevel.
  destruct (level_bracket (xp (core p)) Hxp) as (Hlo & Hhi).
  rewrite <- Hlevel in Hlo, Hhi.
  assert (Hp : 0 ≤ progress (getXPProgress p) < needed (getXPProgress p)).
  { unfold getXPProgress. simpl. lia. }
  split; [exact Hp|].
  destruct (Qdiv_times100_bounds _ _ (proj1 Hp) (proj2 Hp)) as [H0 H100].
  unfold getXPProgress in *. simpl in *.
  unfold JS.div.
  replace (_ =? 0) with false by (symmetry; apply Z.eqb_neq; lia).
  simpl. eexists. split.
  - rewrite (proj2 (Qle_bool_iff _ _) (Qlt_le_weak _ _ H100)). reflexivity.
  - by split.
Qed.

Lemma getXPProgress_within_level_witness :
  let p := with_core (with_xp 1234 (updateELO 25
                        {| md_result := Some Win; md_opponent := "GridNinja";
                           md_difficulty := "easy";
                           md_playerProgress := JS.Fin 100;
                           md_aiProgress := JS.Fin 50; md_timeUsed := 600 |}
                        "2024-01-01" (with_xp 1159 createDefaultData)))
             createDefaultProfile in
  0 ≤ level (core p)
  ∧ needed (getXPProgress p) = 700
  ∧ progress (getXPProgress p) = 334.
Proof.
  intros p.
  assert (H : 0 ≤ level (core p)) by (by vm_compute).
  destruct (getXPProgress_within_level p H) as (Hn & _ & _).
  split; [exact H|]. split; [exact Hn|]. reflexivity.
Defined.

(** *** Rounding to a double keeps a number below a whole bound *)

Lemma nearest_even_le n d j :
  0 < d → n ≤ j * d → nearest_even n d ≤ j.
Proof.
  intros Hd Hn. unfold nearest_even.
  pose proof (Z.div_mod n d ltac:(lia)) as Hdm.
  pose proof (Z.mod_pos_bound n d Hd) as Hr.
  assert (Hf : n / d ≤ j).
  { apply Z.div_le_upper_bound; [done|lia]. }
  destruct (Z.eq_dec (n / d) j) as [Heq|Hne].
  - assert (n mod d = 0) by nia.
    replace (2 * (n mod d) <? d) with true by (symmetry; apply Z.ltb_lt; lia).
    lia.
  - repeat match goal with |- context [if ?c then _ else _] => destruct c end;
      lia.
Qed.

Lemma nearest_even_nonneg n d : 0 < d → 0 ≤ n → 0 ≤ nearest_even n d.
Proof.
  intros Hd Hn. unfold nearest_even.
  pose proof (Z.div_pos n d Hn Hd).
  repeat match goal with |- context [if ?c then _ else _] => destruct c end;
    lia.
Qed.

Lemma exponent_le n d k :
  0 < n → 0 < d → 0 ≤ k → n < 2 ^ k * d → exponent n d ≤ k - 1.
Proof.
  intros Hn Hd Hk Hlt. unfold exponent.
  set (e := Z.log2 n - Z.log2 d).
  assert (He : e ≤ k).
  { pose proof (Z.log2_spec d Hd) as [_ Hdu].
    assert (n < 2 ^ (k + Z.succ (Z.log2 d))).
    { rewrite Z.pow_add_r by (pose proof (Z.log2_nonneg d); lia).
      pose proof (Z.pow_pos_nonneg 2 k ltac:(lia) Hk). nia. }
    apply Z.log2_lt_pow2 in H; [|done]. lia. }
  destruct (scale2 n d (- e)) as [n' d'] eqn:Hs.
  destruct (d' <=? n') eqn:Ht; [|lia].
  destruct (Z.eq_dec e k) as [->|Hne]; [|lia].
  exfalso. unfold scale2 in Hs. apply Z.leb_le in Ht.
  destruct (0 <=? - k) eqn:Hk0.
  - apply Z.leb_le in Hk0. assert (k = 0) as -> by lia.
    injection Hs as <- <-. simpl in *. lia.
  - injection Hs as <- <-. rewrite Z.opp_involutive in Ht. lia.
Qed.

Lemma double_nonneg q : (0 <= q)%Q → (0 <= double q)%Q.
Proof.
  intros Hq. unfold double.
  destruct q as [n d]. unfold Qle in Hq. simpl in Hq.
  assert (Hn : 0 ≤ n) by lia. simpl Qnum. simpl Qden.
  destruct (Z.abs n =? 0) eqn:Hz; [apply Qle_refl|].
  apply Z.eqb_neq in Hz.
  destruct (scale2 (Z.abs n) (Z.pos d) (52 - exponent (Z.abs n) (Z.pos d)))
    as [n' d'] eqn:Hs.
  assert (Hpos : 0 ≤ n' ∧ 0 < d').
  { unfold scale2 in Hs.
    destruct (0 <=? 52 - exponent (Z.abs n) (Z.pos d)) eqn:Hk;
      injection Hs as <- <-.
    - apply Z.leb_le in Hk.
      pose proof (Z.pow_pos_nonneg 2 _ ltac:(lia) Hk). nia.
    - apply Z.leb_gt in Hk.
      pose proof (Z.pow_pos_nonneg 2 (- (52 - exponent (Z.abs n) (Z.pos d)))
                    ltac:(lia) ltac:(lia)). nia. }
  pose proof (nearest_even_nonneg n' d' (proj2 Hpos) (proj1 Hpos)) as Hm.
  set (m := nearest_even n' d') in *. clearbody m.
  destruct (scale2 m 1 (exponent (Z.abs n) (Z.pos d) - 52)) as [n2 d2] eqn:Hs2.
  rewrite Qred_correct. unfold Qle. simpl.
  assert (0 ≤ n2).
  { unfold scale2 in Hs2.
    destruct (0 <=? exponent (Z.abs n) (Z.pos d) - 52) eqn:Hk;
      injection Hs2 as <- <-; [|lia].
    apply Z.leb_le in Hk.
    pose proof (Z.pow_pos_nonneg 2 _ ltac:(lia) Hk). nia. }
  assert (0 ≤ Z.sgn n) by lia. nia.
Qed.

Lemma double_le_Z q k :
  (0 <= q)%Q → (q <= inject_Z k)%Q → 0 < k < 2 ^ 53 →
  (double q <= inject_Z k)%Q.
Proof.
  intros Hq Hle Hk. unfold double.
  destruct q as [n d]. unfold Qle in Hq, Hle. simpl in Hq, Hle.
  assert (Hn : 0 ≤ n) by lia. simpl Qnum. simpl Qden.
  destruct (Z.abs n =? 0) eqn:Hz.
  { unfold Qle. simpl. lia. }
  apply Z.eqb_neq in Hz. rewrite (Z.abs_eq n Hn) in *.
  assert (He : exponent n (Z.pos d) ≤ 52).
  { pose proof (exponent_le n (Z.pos d) 53 ltac:(lia) ltac:(lia) ltac:(lia)).
    nia. }
  set (e := exponent n (Z.pos d)) in *. clearbody e.
  unfold scale2 at 1.
  replace (0 <=? 52 - e) with true by (symmetry; apply Z.leb_le; lia).
  pose proof (Z.pow_pos_nonneg 2 (52 - e) ltac:(lia) ltac:(lia)) as Hp.
  pose proof (nearest_even_le (n * 2 ^ (52 - e)) (Z.pos d) (k * 2 ^ (52 - e))
                ltac:(lia) ltac:(nia)) as Hm.
  set (m := nearest_even _ _) in *. clearbody m.
  rewrite (Z.sgn_pos n) by lia.
  unfold scale2.
  destruct (0 <=? e - 52) eqn:Hk0.
  - apply Z.leb_le in Hk0. assert (e = 52) as -> by lia.
    rewrite Qred_correct. unfold Qle. simpl in *. lia.
  - rewrite Qred_correct. unfold Qle. simpl.
    replace (- (e - 52)) with (52 - e) by lia.
    rewrite Z2Pos.id by lia. lia.
Qed.

Lemma Qfloor_percent a b :
  0 ≤ a → a ≤ b → 0 < b →
  0 ≤ Qfloor (double (double (inject_Z a / inject_Z b) * 100) + (1 # 2))
    ≤ 100.
Proof.
  intros Ha Hab Hb.
  assert (Hb' : (0 < inject_Z b)%Q) by (rewrite <- (Zlt_Qlt 0); lia).
  assert (Ha' : (0 <= inject_Z a)%Q) by (rewrite <- (Zle_Qle 0); lia).
  assert (Hab' : (inject_Z a <= inject_Z b)%Q) by (by rewrite <- Zle_Qle).
  assert (H0 : (0 <= inject_Z a / inject_Z b)%Q).
  { apply Qle_shift_div_l; [done|]. by rewrite Qmult_0_l. }
  assert (H1 : (inject_Z a / inject_Z b <= 1)%Q).
  { apply Qle_shift_div_r; [done|]. by rewrite Qmult_1_l. }
  pose proof (double_nonneg _ H0) as G0.
  pose proof (double_le_Z _ 1 H0 H1 ltac:(lia)) as G1.
  set (x := double (inject_Z a / inject_Z b)) in *. clearbody x.
  assert (K0 : (0 <= x * 100)%Q) by (by apply Qmult_le_0_compat).
  assert (K1 : (x * 100 <= inject_Z 100)%Q).
  { change (inject_Z 100) with (1 * 100)%Q.
    by apply Qmult_le_compat_r. }
  pose proof (double_nonneg _ K0) as L0.
  pose proof (double_le_Z _ 100 K0 K1 ltac:(lia)) as L1.
  set (y := double (x * 100)) in *. clearbody y.
  split.
  - change 0 with (Qfloor 0). apply Qfloor_resp_le.
    apply (Qle_trans _ y); [done|].
    rewrite <- (Qplus_0_r y) at 1. by apply Qplus_le_r.
  - apply (Z.le_trans _ (Qfloor (inject_Z 100 + (1 # 2)))); [|done].
    apply Qfloor_resp_le. by apply Qplus_le_l.
Qed.

(** X12. The win rate of [getStats] is always a whole number: 0 when no
    game has been played, and between 0 and 100 when the games won are
    between 0 and the games played. *)
Theorem getStats_winRate_is_a_percentage p :
  ∃ z, winRate (getStats p) = JS.Fin (inject_Z z)
       ∧ (totalGamesPlayed p ≤ 0 → z = 0)
       ∧ (0 ≤ totalGamesWon p ≤ totalGamesPlayed p → 0 ≤ z ≤ 100).
Proof.
  unfold getStats. cbn [winRate].
  destruct (0 <? totalGamesPlayed p) eqn:E.
  - apply Z.ltb_lt in E. unfold JS.div.
    replace (totalGamesPlayed p =? 0) with false
      by (symmetry; apply Z.eqb_neq; lia).
    cbn [JS.times100 JS.to_double JS.round]. eexists.
    split; [reflexivity|].
    split; [lia|]. intros [Hw Hp]. by apply Qfloor_percent.
  - apply Z.ltb_ge in E. exists 0. split; [reflexivity|].
    split; [done|]. lia.
Qed.

End Figures.

(* ===================================================================== *)
(** ** Clock text *)
(* ===================================================================== *)

Section ClockText.

Lemma below_by_enumeration (P : Z → bool) (n : nat) :
  forallb (fun k => P (Z.of_nat k)) (seq 0 n) = true →
  ∀ z, 0 ≤ z < Z.of_nat n → P z = true.
Proof.
  intros H z Hz. rewrite forallb_forall in H.
  specialize (H (Z.to_nat z)). rewrite Z2Nat.id in H by lia.
  apply H, in_seq. lia.
Qed.

Lemma formatTime_checked :
  forallb (fun k => formats_agree (Z.of_nat k)) (seq 0 (Z.to_nat 6000)) = true.
Proof. vm_compute. reflexivity. Qed.

(** X13. For a whole number of seconds from 0 to 5999, [PvP.formatTime]
    gives the five characters [MM:SS]: two digits of minutes, a colon,
    two digits of seconds below 60. [Player.formatTime] gives the same
    text except at 0, where it gives [--:--] as it does for a missing
    time. *)
Theorem formatTime_is_mm_ss seconds :
  0 ≤ seconds < 6000 →
  PvP.formatTime seconds = mm_ss seconds
  ∧ String.length (PvP.formatTime seconds) = 5%nat
  ∧ Player.formatTime (Some seconds)
    = (if seconds =? 0 then "--:--"%string else mm_ss seconds)
  ∧ Player.formatTime None = "--:--"%string.
Proof.
  intros H.
  assert (Hc : formats_agree seconds = true).
  { apply (below_by_enumeration formats_agree (Z.to_nat 6000));
      [exact formatTime_checked | lia]. }
  apply andb_true_iff in Hc as [H1 H2].
  apply bool_decide_eq_true in H1, H2.
  split; [exact H1|]. split; [by rewrite H1|].
  split; [|reflexivity].
  rewrite H2. destruct seconds; try done; lia.
Qed.

Lemma formatTime_is_mm_ss_witness :
  0 ≤ 65 < 6000
  ∧ PvP.formatTime 65 = "01:05"%string
  ∧ Player.formatTime (Some 65) = "01:05"%string.
Proof.
  assert (H : 0 ≤ 65 < 6000) by lia.
  destruct (formatTime_is_mm_ss 65 H) as (H1 & _ & H2 & _).
  split; [exact H|]. split; [exact H1|exact H2].
Defined.

End ClockText.

(* ===================================================================== *)
(** ** What every engine call keeps *)
(* ===================================================================== *)

Section EngineInvariants.

#[local] Arguments boards_agree : simpl never.
#[local] Arguments determine : simpl never.
#[local] Arguments summary : simpl never.
#[local] Arguments Player.updateELO : simpl never.
#[local] Arguments ai_delay : simpl never.

(** Run a computation on a world whose session is known, splitting on
    every test it makes; [extra] is tried before each split. *)
Ltac exec_with Hb extra :=
  repeat first
    [ rewrite Hb
    | extra
    | progress simpl
    | progress unfold bind, ret, lift, assign, deref_battle, read_battle,
        call_if, call, set_timer, clear_timer, Player_updateELO
    | progress unfold beginBattle, scheduleNextAICell, ai_step,
        countdown_tick, playerPlace, playerErase, playerFinish,
        quitBattle, endBattle
    | match goal with
      | |- context [match ?x with _ => _ end] =>
          lazymatch x with
          | context [match _ with _ => _ end] => fail
          | _ => destruct x eqn:?
          end
      end ].

Ltac exec_op Hb := exec_with Hb fail.

Lemma later_state_refl b : later_state b b.
Proof. unfold later_state. repeat split; auto; lia. Qed.

Lemma later_state_trans b1 b2 b3 :
  later_state b1 b2 → later_state b2 b3 → later_state b1 b3.
Proof.
  unfold later_state. intros H G. destruct_and!.
  repeat split; try congruence; try lia; auto.
Qed.

Lemma world_later_refl w : world_later w w.
Proof. intros b Hb. exists b. split; [done|apply later_state_refl]. Qed.

Lemma world_later_trans w1 w2 w3 :
  world_later w1 w2 → world_later w2 w3 → world_later w1 w3.
Proof.
  intros H G b Hb. destruct (H b Hb) as (b2 & Hb2 & H12).
  destruct (G b2 Hb2) as (b3 & Hb3 & H23).
  exists b3. split; [done|]. by eapply later_state_trans.
Qed.

Ltac close_later :=
  eexists; split; [reflexivity|];
  unfold later_state; simpl; repeat split; auto; try congruence; lia.

Lemma countdown_tick_later tick fin now w :
  world_later w (world_of (countdown_tick tick fin now w)).
Proof. intros b Hb. exec_op Hb; close_later. Qed.

Lemma ai_step_later prog fin now u w :
  world_later w (world_of (ai_step prog fin now u w)).
Proof. intros b Hb. exec_op Hb; close_later. Qed.

Lemma beginBattle_later prog tick fin u w :
  world_later w (world_of (beginBattle prog tick fin u w)).
Proof. intros b Hb. exec_op Hb; close_later. Qed.

Lemma playerPlace_later row col num w :
  world_later w (world_of (playerPlace row col num w)).
Proof. intros b Hb. exec_op Hb; close_later. Qed.

Lemma playerErase_later row col w :
  world_later w (world_of (playerErase row col w)).
Proof. intros b Hb. exec_op Hb; close_later. Qed.

Lemma playerFinish_later cb now w :
  world_later w (world_of (playerFinish cb now w)).
Proof. intros b Hb. exec_op Hb; close_later. Qed.

Lemma quitBattle_later cb now w :
  world_later w (world_of (quitBattle cb now w)).
Proof. intros b Hb. exec_op Hb; close_later. Qed.

Lemma fire_later id now u w : world_later w (world_of (fire id now u w)).
Proof.
  unfold fire.
  destruct (List.find _ (timers w)) as [t|]; [|apply world_later_refl].
  destruct (timer_body t) as [tick fin|prog fin].
  - apply countdown_tick_later.
  - eapply world_later_trans; [|apply ai_step_later].
    intros b Hb. exists b. split; [done|apply later_state_refl].
Qed.

Lemma step_later generate e w :
  is_start e = false → world_later w (PvP.step generate e w).
Proof.
  destruct e; simpl; [done|..]; intros _.
  - apply beginBattle_later.
  - apply playerPlace_later.
  - apply playerErase_later.
  - apply playerFinish_later.
  - apply quitBattle_later.
  - apply fire_later.
Qed.

(** X14. Within the life of a session (any engine calls and timer
    firings up to the next [startBattle]) the session stays in place,
    what [startBattle] fixed (seed, difficulty, puzzle, solution,
    original cells, opponent, queue, total and speed) never changes, the
    clock never goes up, the AI's cell count and the player's mistake
    count never go down, and the flags [started], [ended],
    [playerFinished] and [aiFinished] are never taken back. *)
Theorem session_only_advances generate es w b :
  forallb (fun e => negb (is_start e)) es = true →
  battle w = Some b →
  ∃ b', battle (PvP.run generate es w) = Some b' ∧ later_state b b'.
Proof.
  intros Hes Hb.
  assert (H : world_later w (PvP.run generate es w)); [|by apply H].
  clear b Hb. revert w. induction es as [|e es IH]; intros w; simpl.
  - apply world_later_refl.
  - apply andb_true_iff in Hes as [He Hes]. apply negb_true_iff in He.
    eapply world_later_trans; [by apply step_later | by apply IH].
Qed.

Lemma session_only_advances_witness :
  let es := [ BeginBattle (Some 1%nat) (Some 2%nat) (Some 3%nat) (halves 0%nat);
              Fire 1 "2024-01-01" (halves 0%nat);
              Fire 2 "2024-01-01" (halves 0%nat);
              PlayerPlace 0 0 (JNum 7) ] in
  ∃ b',
    battle (PvP.run (generate_with []) es (holding sample_session)) = Some b'
    ∧ later_state sample_session b'
    ∧ timeRemaining b' = 599 ∧ aiCellsFilled b' = 1 ∧ playerMistakes b' = 1.
Proof.
  intros es.
  destruct (session_only_advances (generate_with []) es
              (holding sample_session) sample_session eq_refl eq_refl)
    as (b' & Hb' & Hlater).
  exists b'. split; [exact Hb'|]. split; [exact Hlater|].
  vm_compute in Hb'. injection Hb' as <-. repeat split.
Defined.

Ltac clock_op Hok :=
  unfold clock_ok;
  match goal with
  | |- context [battle (world_of (_ ?w))] =>
      let b := fresh "b" in
      let Hb := fresh "Hb" in
      destruct (battle w) as [b|] eqn:Hb;
      [ destruct (Hok b Hb) as [[? ?] ?] | ];
      exec_op Hb;
      intros ? ?; simplify_eq; simpl in *; simplify_eq;
      repeat split; intros; try lia; try congruence; auto
  end.

Lemma countdown_tick_clock tick fin now w :
  clock_ok w → clock_ok (world_of (countdown_tick tick fin now w)).
Proof. intros Hok. clock_op Hok. Qed.

Lemma ai_step_clock prog fin now u w :
  clock_ok w → clock_ok (world_of (ai_step prog fin now u w)).
Proof. intros Hok. clock_op Hok. Qed.

Lemma beginBattle_clock prog tick fin u w :
  clock_ok w → clock_ok (world_of (beginBattle prog tick fin u w)).
Proof. intros Hok. clock_op Hok. Qed.

Lemma playerPlace_clock row col num w :
  clock_ok w → clock_ok (world_of (playerPlace row col num w)).
Proof. intros Hok. clock_op Hok. Qed.

Lemma playerErase_clock row col w :
  clock_ok w → clock_ok (world_of (playerErase row col w)).
Proof. intros Hok. clock_op Hok. Qed.

Lemma playerFinish_clock cb now w :
  clock_ok w → clock_ok (world_of (playerFinish cb now w)).
Proof. intros Hok. clock_op Hok. Qed.

Lemma quitBattle_clock cb now w :
  clock_ok w → clock_ok (world_of (quitBattle cb now w)).
Proof. intros Hok. clock_op Hok. Qed.

Lemma fire_clock id now u w :
  clock_ok w → clock_ok (world_of (fire id now u w)).
Proof.
  intros Hok. unfold fire.
  destruct (List.find _ (timers w)) as [t|]; [|done].
  destruct (timer_body t) as [tick fin|prog fin].
  - by apply countdown_tick_clock.
  - by apply ai_step_clock.
Qed.

Lemma startBattle_clock generate difficulty seed rand w :
  clock_ok w →
  clock_ok (world_of (startBattle generate difficulty seed rand w)).
Proof.
  intros Hok. unfold startBattle, bind, lift.
  destruct (scan_cells _ all_cells []) as [cells|]; [|done].
  intros b Hb. simpl in Hb. injection Hb as <-. simpl.
  unfold BATTLE_TIME. lia.
Qed.

(** X15. The clock stays within its budget whatever happens, timers of
    superseded sessions included: after any sequence of engine calls and
    timer firings from a state where it holds (the initial state is
    one), [timeRemaining] is between 0 and 600 and a session that has not
    ended has at least one second left. *)
Theorem clock_stays_within_budget generate es w :
  clock_ok w → clock_ok (PvP.run generate es w).
Proof.
  revert w. induction es as [|e es IH]; intros w Hok; simpl; [done|].
  apply IH. destruct e; simpl.
  - by apply startBattle_clock.
  - by apply beginBattle_clock.
  - by apply playerPlace_clock.
  - by apply playerErase_clock.
  - by apply playerFinish_clock.
  - by apply quitBattle_clock.
  - by apply fire_clock.
Qed.

Lemma clock_stays_within_budget_witness :
  clock_ok initial_world
  ∧ clock_ok
      (PvP.run (generate_with [(0, 0); (4, 5)]%nat)
         [ StartBattle "medium" 1 zeros;
           BeginBattle (Some 1%nat) (Some 2%nat) (Some 3%nat) (halves 0%nat);
           StartBattle "medium" 2 zeros;
           Fire 1 "2024-01-01" (halves 0%nat) ]
         initial_world).
Proof.
  assert (H : clock_ok initial_world) by (intros b Hb; discriminate Hb).
  split; [exact H|]. by apply clock_stays_within_budget.
Defined.

Lemma frozen_refl b : frozen b b.
Proof. unfold frozen. by destruct b. Qed.

Lemma frozen_ended b b' : frozen b b' → ended b' = ended b.
Proof. unfold frozen. intros <-. done. Qed.

Lemma frozen_trans b1 b2 b3 : frozen b1 b2 → frozen b2 b3 → frozen b1 b3.
Proof.
  unfold frozen. intros H12 H23.
  destruct b1, b2, b3. unfold set_started, set_timerIntervalId in *.
  simpl in *. injection H12; injection H23; intros; subst. reflexivity.
Qed.

Lemma world_frozen_refl w : world_frozen w w.
Proof.
  intros b Hb He. split; [|done]. exists b. split; [done|apply frozen_refl].
Qed.

Lemma world_frozen_trans w1 w2 w3 :
  world_frozen w1 w2 → world_frozen w2 w3 → world_frozen w1 w3.
Proof.
  intros H G b Hb He.
  destruct (H b Hb He) as ((b2 & Hb2 & H12) & Hc & Hd).
  assert (He2 : ended b2 = true) by (by rewrite (frozen_ended _ _ H12)).
  destruct (G b2 Hb2 He2) as ((b3 & Hb3 & H23) & Gc & Gd).
  split; [|split; congruence].
  exists b3. split; [done|]. by eapply frozen_trans.
Qed.

Ltac frozen_op :=
  let b := fresh "b" in
  let Hb := fresh "Hb" in
  let He := fresh "He" in
  intros b Hb He;
  exec_with Hb ltac:(rewrite He);
  first
    [ congruence
    | (split; [|done]);
      eexists; (split; [reflexivity|]);
      unfold frozen; destruct b; simpl in *; subst; reflexivity ].

Lemma countdown_tick_frozen tick fin now w :
  world_frozen w (world_of (countdown_tick tick fin now w)).
Proof. frozen_op. Qed.

Lemma ai_step_frozen prog fin now u w :
  world_frozen w (world_of (ai_step prog fin now u w)).
Proof. frozen_op. Qed.

Lemma beginBattle_frozen prog tick fin u w :
  world_frozen w (world_of (beginBattle prog tick fin u w)).
Proof. frozen_op. Qed.

Lemma playerPlace_frozen row col num w :
  world_frozen w (world_of (playerPlace row col num w)).
Proof. frozen_op. Qed.

Lemma playerErase_frozen row col w :
  world_frozen w (world_of (playerErase row col w)).
Proof. frozen_op. Qed.

Lemma playerFinish_frozen cb now w :
  world_frozen w (world_of (playerFinish cb now w)).
Proof. frozen_op. Qed.

Lemma quitBattle_frozen cb now w :
  world_frozen w (world_of (quitBattle cb now w)).
Proof. frozen_op. Qed.

Lemma fire_frozen id now u w : world_frozen w (world_of (fire id now u w)).
Proof.
  unfold fire.
  destruct (List.find _ (timers w)) as [t|]; [|apply world_frozen_refl].
  destruct (timer_body t) as [tick fin|prog fin].
  - apply countdown_tick_frozen.
  - eapply world_frozen_trans; [|apply ai_step_frozen].
    intros b Hb He. split; [|done]. exists b. split; [done|apply frozen_refl].
Qed.

Lemma run_frozen generate es w :
  forallb (fun e => negb (is_start e)) es = true →
  world_frozen w (PvP.run generate es w).
Proof.
  revert w. induction es as [|e es IH]; intros w Hes; simpl.
  - apply world_frozen_refl.
  - apply andb_true_iff in Hes as [He Hes]. apply negb_true_iff in He.
    eapply world_frozen_trans; [|by apply IH].
    destruct e; simpl; [done|..].
    + apply beginBattle_frozen.
    + apply playerPlace_frozen.
    + apply playerErase_frozen.
    + apply playerFinish_frozen.
    + apply quitBattle_frozen.
    + apply fire_frozen.
Qed.

(** X16. Nothing reaches the outside after a session has ended: up to
    the next [startBattle], no engine call or timer firing makes any
    call (no [onTimerTick], [onAIProgress], completion callback or rating
    update), the player data stays as it is, and the session keeps every
    field except that a late [beginBattle] may still set [started] and
    the countdown id; the session is never active again. *)
Theorem ended_session_is_silent generate es w b :
  forallb (fun e => negb (is_start e)) es = true →
  battle w = Some b → ended b = true →
  (∃ b', battle (PvP.run generate es w) = Some b' ∧ frozen b b')
  ∧ calls (PvP.run generate es w) = calls w
  ∧ data (PvP.run generate es w) = data w
  ∧ isActive (PvP.run generate es w) = false.
Proof.
  intros Hes Hb He.
  destruct (run_frozen generate es w Hes b Hb He)
    as ((b' & Hb' & Hfrozen) & Hcalls & Hdata).
  split; [by exists b'|]. split; [done|]. split; [done|].
  unfold isActive. rewrite Hb', (frozen_ended _ _ Hfrozen), He.
  apply andb_false_r.
Qed.

Lemma ended_session_is_silent_witness :
  let w := world_of (quitBattle (Some 3%nat) "2024-01-01"
                       (holding sample_session)) in
  let es := [ BeginBattle (Some 1%nat) (Some 2%nat) (Some 3%nat) (halves 0%nat);
              Fire 1 "2024-01-02" (halves 0%nat);
              PlayerPlace 0 0 (JNum 1);
              QuitBattle (Some 3%nat) "2024-01-02" ] in
  (ended <$> battle w) = Some true
  ∧ calls (PvP.run (generate_with []) es w) = calls w
  ∧ (started <$> battle (PvP.run (generate_with []) es w)) = Some true
  ∧ isActive (PvP.run (generate_with []) es w) = false.
Proof.
  intros w es.
  assert (Hb : battle w = Some (default sample_session (battle w)))
    by reflexivity.
  destruct (ended_session_is_silent (generate_with []) es w _ eq_refl Hb
              eq_refl) as (_ & Hcalls & _ & Hactive).
  split; [reflexivity|]. split; [exact Hcalls|].
  split; [reflexivity|exact Hactive].
Defined.


(** *** Placing and erasing *)

Lemma playerPlace_accepted w b row col num s board agree :
  battle w = Some b → ended b = false → playerFinished b = false →
  grid_get (original b) row col = Some (JNum 0) →
  grid_get (solution b) row col = Some s →
  grid_set (playerBoard b) row col num = Some board →
  boards_agree all_cells board (solution b) = Some agree →
  playerPlace row col num w
  = Return (Some {| isCorrect := strict_eq num s;
                    finished := strict_eq num s && agree |})
      (with_battle
         (Some
            (if strict_eq num s then
               (if agree then set_playerFinished true else id)
                 (set_playerCellsFilled (playerCellsFilled b + 1)
                    (set_playerBoard board b))
             else
               set_playerMistakes (playerMistakes b + 1)
                 (set_playerBoard board b)))
         w).
Proof.
  intros Hb He Hpf Ho Hs Hset Hagree.
  unfold playerPlace, bind, read_battle, lift, assign, deref_battle, ret.
  rewrite Hb, He, Hpf. simpl. rewrite Ho. simpl. rewrite Hs, Hset, Hb.
  simpl. destruct (strict_eq num s); simpl; [|done].
  rewrite Hagree. by destruct agree.
Qed.

Lemma playerPlace_not_accepted w b row col num :
  battle w = Some b →
  ended b || playerFinished b || is_original b row col = true →
  world_of (playerPlace row col num w) = w.
Proof.
  intros Hb Href.
  unfold playerPlace, bind, read_battle, lift, ret. rewrite Hb.
  destruct (ended b || playerFinished b) eqn:E; [done|].
  simpl in Href. unfold is_original in Href.
  destruct (grid_get (original b) row col) as [o|]; [|done].
  unfold strict_eq. simpl.
  destruct (decide (o = JNum 0)) as [->|Hne].
  - by rewrite bool_decide_eq_true_2 in Href.
  - by rewrite (bool_decide_eq_false_2 (o = JNum 0)).
Qed.

Lemma playerErase_accepted w b row col cur s board :
  battle w = Some b → ended b = false →
  grid_get (original b) row col = Some (JNum 0) →
  grid_get (playerBoard b) row col = Some cur →
  grid_get (solution b) row col = Some s →
  grid_set (playerBoard b) row col (JNum 0) = Some board →
  playerErase row col w
  = Return tt
      (with_battle
         (Some
            (set_playerBoard board
               (if negb (strict_eq cur (JNum 0)) && strict_eq cur s
                then set_playerCellsFilled (playerCellsFilled b - 1) b
                else b)))
         w).
Proof.
  intros Hb He Ho Hcur Hs Hset.
  unfold playerErase, bind, read_battle, lift, assign, deref_battle, ret.
  rewrite Hb, He. simpl. rewrite Ho. simpl. rewrite Hcur, Hset. simpl.
  destruct (strict_eq cur (JNum 0)); simpl.
  - by rewrite Hb.
  - rewrite Hs. simpl. destruct (strict_eq cur s); simpl;
      rewrite Hb; simpl; [done|by destruct b].
Qed.

Lemma playerErase_not_accepted w b row col :
  battle w = Some b →
  ended b || is_original b row col = true →
  world_of (playerErase row col w) = w.
Proof.
  intros Hb Href.
  unfold playerErase, bind, read_battle, lift, ret. rewrite Hb.
  destruct (ended b) eqn:E; [done|].
  simpl in Href. unfold is_original in Href.
  destruct (grid_get (original b) row col) as [o|]; [|done].
  unfold strict_eq. simpl.
  destruct (decide (o = JNum 0)) as [->|Hne].
  - by rewrite bool_decide_eq_true_2 in Href.
  - by rewrite (bool_decide_eq_false_2 (o = JNum 0)).
Qed.

(** X17. For a cell of the 9×9 boards, [playerErase] does nothing
    exactly when there is no session, the session has ended or the cell
    is original; it does not look at [playerFinished]. Otherwise it
    clears the cell to 0 and takes one off [playerCellsFilled] exactly
    when the cell held a non-zero value equal to the solution's; nothing
    else changes. *)
Theorem playerErase_cases w row col :
  (row < 9)%nat → (col < 9)%nat →
  (∀ b, battle w = Some b → boards9 b) →
  (erase_refused w row col = true → playerErase row col w = Return tt w)
  ∧ (erase_refused w row col = false →
     ∃ b board cur s,
       battle w = Some b
       ∧ grid_get (playerBoard b) row col = Some cur
       ∧ grid_get (solution b) row col = Some s
       ∧ grid_set (playerBoard b) row col (JNum 0) = Some board
       ∧ grid_get board row col = Some (JNum 0)
       ∧ (∀ r c, (r, c) ≠ (row, col) →
            grid_get board r c = grid_get (playerBoard b) r c)
       ∧ playerErase row col w
         = Return tt
             (with_battle
                (Some
                   (set_playerBoard board
                      (if negb (strict_eq cur (JNum 0)) && strict_eq cur s
                       then set_playerCellsFilled (playerCellsFilled b - 1) b
                       else b)))
                w)).
Proof.
  intros Hrow Hcol Hwf. unfold erase_refused.
  destruct (battle w) as [b|] eqn:Hb.
  - destruct (Hwf b eq_refl) as (Horig & Hsol & Hboard).
    split.
    + intros Href.
      unfold playerErase, bind, read_battle, lift, ret. rewrite Hb.
      destruct (ended b); [done|].
      destruct (grid9_get _ row col Horig Hrow Hcol) as (? & o & _ & _ & Ho).
      rewrite Ho. simpl in Href. unfold is_original in Href.
      rewrite Ho in Href. unfold strict_eq. simpl.
      destruct (decide (o = JNum 0)) as [->|Hne].
      * by rewrite bool_decide_eq_true_2 in Href.
      * by rewrite (bool_decide_eq_false_2 (o = JNum 0)).
    + intros Href. apply orb_false_iff in Href as [He Ho].
      apply is_original_false in Ho.
      destruct (grid9_get _ row col Hboard Hrow Hcol)
        as (? & cur & _ & _ & Hcur).
      destruct (grid9_get _ row col Hsol Hrow Hcol) as (? & s & _ & _ & Hs).
      destruct (grid9_set _ row col (JNum 0) Hboard Hrow Hcol)
        as (board & Hset & _ & Hnew & Hold).
      exists b, board, cur, s. repeat split; try done.
      by apply playerErase_accepted.
  - split; [|done]. intros _.
    unfold playerErase, bind, read_battle. by rewrite Hb.
Qed.

Lemma playerErase_cases_witness :
  let w := world_of (playerPlace 0 0 (JNum 1) (holding sample_session)) in
  erase_refused w 0 0 = false
  ∧ (playerCellsFilled <$> battle w) = Some 1
  ∧ (playerCellsFilled <$> battle (world_of (playerErase 0 0 w))) = Some 0.
Proof.
  intros w.
  destruct (playerErase_cases w 0 0) as [_ H].
  - lia.
  - lia.
  - intros b Hb. vm_compute in Hb. injection Hb as <-.
    repeat split; repeat constructor.
  - split; [reflexivity|]. split; [reflexivity|].
    destruct (H eq_refl) as (b & board & cur & s & Hb & Hcur & Hs & Hset
                              & _ & _ & Hrun).
    rewrite Hrun. vm_compute in Hb, Hcur, Hs, Hset.
    injection Hb as <-. injection Hcur as <-. injection Hs as <-.
    injection Hset as <-. reflexivity.
Defined.


Lemma grid_set_in_range (g : Grid) row col v r :
  g !! row = Some r → (col < length r)%nat →
  grid_set g row col v = Some (<[row := <[col := v]> r]> g).
Proof.
  intros Hr Hc. unfold grid_set, array_set. rewrite Hr.
  by replace (col <? length r)%nat with true
    by (symmetry; apply Nat.ltb_lt; lia).
Qed.

(** X18. Placing a value into an empty cell and erasing it again gives
    back the board and the count of filled cells, whatever the value
    was (the solution has a non-zero value there). What stays is one
    more mistake if the value was wrong, and [playerFinished] if the
    value was the one that completed the board: the erasure does not
    take the flag back. Every other field is as before. *)
Theorem place_then_erase_restores w b row col num :
  battle w = Some b → boards9 b →
  ended b = false → playerFinished b = false →
  grid_get (original b) row col = Some (JNum 0) →
  grid_get (playerBoard b) row col = Some (JNum 0) →
  grid_get (solution b) row col ≠ Some (JNum 0) →
  ∃ b' board,
    battle (world_of (playerErase row col
                        (world_of (playerPlace row col num w)))) = Some b'
    ∧ grid_set (playerBoard b) row col num = Some board
    ∧ playerBoard b' = playerBoard b
    ∧ playerCellsFilled b' = playerCellsFilled b
    ∧ playerMistakes b'
      = playerMistakes b
        + (if bool_decide (grid_get (solution b) row col = Some num)
           then 0 else 1)
    ∧ playerFinished b'
      = bool_decide (grid_get (solution b) row col = Some num)
        && grids_agree board (solution b)
    ∧ set_playerFinished false (set_playerMistakes (playerMistakes b) b')
      = b.
Proof.
  intros Hb (Horig & Hsol & Hboard) He Hpf Ho Hcur Hnz.
  destruct (grid9_in_range _ _ _ _ Horig Ho) as [Hrow Hcol]; [done|].
  destruct (grid9_get _ row col Hsol Hrow Hcol) as (? & s & _ & _ & Hs).
  destruct (grid9_row _ row Hboard Hrow) as (r & Hr & Hlen).
  assert (Hrc : r !! col = Some (JNum 0)).
  { unfold grid_get in Hcur. rewrite Hr in Hcur.
    destruct (r !! col) as [v0|] eqn:E; simpl in Hcur; [congruence|].
    apply lookup_ge_None in E. lia. }
  pose proof (grid_set_in_range _ row col num r Hr ltac:(lia)) as Hset.
  set (board := <[row := <[col := num]> r]> (playerBoard b)) in *.
  assert (Hb9 : length board = 9%nat)
    by (unfold board; rewrite length_insert; apply Hboard).
  pose proof (boards_agree_spec all_cells board (solution b) Hb9
                (proj1 Hsol)
                (fun rc Hrc' => proj1 (all_cells_rows rc Hrc'))) as Hagree.
  fold (grids_agree board (solution b)) in Hagree.
  remember (grids_agree board (solution b)) as agree eqn:Hag.
  rewrite (playerPlace_accepted w b row col num s board _
             Hb He Hpf Ho Hs Hset Hagree).
  simpl world_of.
  set (b1 := if strict_eq num s then _ else _).
  assert (Hb1 : playerBoard b1 = board ∧ ended b1 = false
                ∧ original b1 = original b ∧ solution b1 = solution b).
  { unfold b1. destruct (strict_eq num s); [|done]. by destruct agree. }
  destruct Hb1 as (Hboard1 & He1 & Ho1 & Hs1).
  assert (Hr1 : board !! row = Some (<[col := num]> r)).
  { unfold board. apply list_lookup_insert_eq.
    apply lookup_lt_Some in Hr. lia. }
  assert (Hcur1 : grid_get board row col = Some num).
  { unfold grid_get. rewrite Hr1.
    by rewrite list_lookup_insert_eq by lia. }
  pose proof (grid_set_in_range board row col (JNum 0) _ Hr1
                ltac:(rewrite length_insert; lia)) as Hset1.
  pose proof (playerErase_accepted (with_battle (Some b1) w) b1 row col num s
                (<[row := <[col := JNum 0]> (<[col := num]> r)]> board)
                eq_refl He1) as Herase.
  rewrite Ho1, Hs1, Hboard1 in Herase.
  rewrite (Herase Ho Hcur1 Hs Hset1). clear Herase.
  simpl world_of.
  assert (Hback : <[row := <[col := JNum 0]> (<[col := num]> r)]> board
                  = playerBoard b).
  { unfold board.
    rewrite list_insert_insert_eq, list_insert_insert_eq.
    rewrite (list_insert_id r col (JNum 0) Hrc).
    by apply list_insert_id. }
  rewrite Hback.
  assert (Hright : bool_decide (grid_get (solution b) row col = Some num)
                   = strict_eq num s).
  { rewrite Hs. unfold strict_eq. apply bool_decide_ext.
    split; congruence. }
  assert (Hnum : strict_eq num s = true → strict_eq num (JNum 0) = false).
  { unfold strict_eq. intros ->%bool_decide_eq_true.
    apply bool_decide_eq_false. congruence. }
  rewrite Hright. eexists _, board. split; [reflexivity|].
  split; [done|]. rewrite <- Hag. clear Hag Hagree. clearbody board. unfold b1. clear b1 Hboard1 He1 Ho1 Hs1.
  destruct (strict_eq num s) eqn:E.
  - rewrite (Hnum eq_refl). simpl.
    destruct agree; simpl; rewrite ?Hpf;
      (split; [done|]); (split; [lia|]); (split; [lia|]); (split; [done|]);
      (replace (playerCellsFilled b + 1 - 1) with (playerCellsFilled b)
         by lia);
      clear -Hpf; destruct b; simpl in *; by subst.
  - rewrite andb_false_r. simpl. rewrite Hpf.
    split; [done|]. split; [done|]. split; [done|]. split; [done|].
    clear -Hpf. destruct b; simpl in *; by subst.
Qed.

Lemma place_then_erase_restores_witness :
  ∃ b',
    battle (world_of (playerErase 0 0
              (world_of (playerPlace 0 0 (JNum 7) (holding sample_session)))))
    = Some b'
    ∧ playerBoard b' = playerBoard sample_session
    ∧ playerCellsFilled b' = 0
    ∧ playerMistakes b' = 1
    ∧ playerFinished b' = false.
Proof.
  destruct (place_then_erase_restores (holding sample_session)
              sample_session 0 0 (JNum 7))
    as (b' & board & Hb' & _ & Hboard & Hcount & Hmist & Hfin & _);
    try reflexivity; try discriminate.
  - repeat split; repeat constructor.
  - exists b'. split; [exact Hb'|]. split; [exact Hboard|].
    split; [exact Hcount|]. split; [exact Hmist|exact Hfin].
Defined.

(** *** The count of filled cells against the board *)

Lemma filter_off_point {A} (f g : A → bool) (x : A) (l : list A) :
  x ∉ l → (∀ y, y ≠ x → g y = f y) → List.filter g l = List.filter f l.
Proof.
  intros Hx Hfg. induction l as [|y l IH]; simpl; [done|].
  apply not_elem_of_cons in Hx as [Hne Hx].
  rewrite (Hfg y) by done. rewrite IH by done. done.
Qed.

Lemma filter_length_change {A} (f g : A → bool) (x : A) (l : list A) :
  NoDup l → x ∈ l → (∀ y, y ≠ x → g y = f y) →
  Z.of_nat (length (List.filter g l))
  = Z.of_nat (length (List.filter f l)) + Z.b2z (g x) - Z.b2z (f x).
Proof.
  intros Hnd Hx Hfg. induction l as [|y l IH]; [by apply elem_of_nil in Hx|].
  apply NoDup_cons in Hnd as [Hy Hnd].
  apply elem_of_cons in Hx as [->|Hx]; simpl.
  - rewrite (filter_off_point f g y l Hy Hfg).
    destruct (g y), (f y); simpl length; simpl Z.b2z; lia.
  - assert (Hne : y ≠ x) by (intros ->; done).
    rewrite (Hfg y Hne).
    destruct (f y); simpl length; rewrite ?Nat2Z.inj_succ, IH by done; lia.
Qed.

Lemma all_cells_NoDup : NoDup all_cells.
Proof. apply (bool_decide_unpack _). by vm_compute. Qed.

Lemma all_cells_in row col :
  (row < 9)%nat → (col < 9)%nat → (row, col) ∈ all_cells.
Proof.
  intros Hr Hc. unfold all_cells.
  apply list_elem_of_bind. exists row. split; [|apply elem_of_seq; lia].
  apply list_elem_of_bind. exists col. split; [|apply elem_of_seq; lia].
  by apply list_elem_of_singleton.
Qed.

Lemma matching_cells_same b b' :
  playerBoard b' = playerBoard b → solution b' = solution b →
  original b' = original b →
  matching_cells b' = matching_cells b.
Proof.
  intros H1 H2 H3.
  unfold matching_cells, is_original, cell_matches. by rewrite H1, H2, H3.
Qed.

Lemma matching_cells_write b board row col v :
  (row < 9)%nat → (col < 9)%nat →
  grid_get board row col = Some v →
  (∀ r c, (r, c) ≠ (row, col) →
     grid_get board r c = grid_get (playerBoard b) r c) →
  is_original b row col = false →
  matching_cells (set_playerBoard board b)
  = matching_cells b
    + Z.b2z (bool_decide (Some v = grid_get (solution b) row col))
    - Z.b2z (cell_matches b (row, col)).
Proof.
  intros Hrow Hcol Hnew Hold Ho. unfold matching_cells.
  set (f := fun rc : nat * nat =>
              negb (is_original b rc.1 rc.2) && cell_matches b rc).
  set (g := fun rc : nat * nat =>
              negb (is_original (set_playerBoard board b) rc.1 rc.2)
              && cell_matches (set_playerBoard board b) rc).
  assert (Hg : g (row, col)
               = bool_decide (Some v = grid_get (solution b) row col)).
  { unfold g, is_original, cell_matches in *.
    cbn [original solution playerBoard set_playerBoard fst snd].
    rewrite Ho, Hnew. done. }
  assert (Hf : f (row, col) = cell_matches b (row, col)).
  { unfold f. cbn [fst snd]. rewrite Ho. done. }
  assert (Hfg : ∀ y, y ≠ (row, col) → g y = f y).
  { intros [r c] Hne. unfold f, g, is_original, cell_matches.
    cbn [original solution playerBoard set_playerBoard fst snd].
    by rewrite (Hold r c Hne). }
  rewrite (filter_length_change f g (row, col) all_cells all_cells_NoDup
             (all_cells_in _ _ Hrow Hcol) Hfg).
  by rewrite Hg, Hf.
Qed.

Lemma cell_matches_nonzero b row col cur s :
  grid_get (playerBoard b) row col = Some cur →
  grid_get (solution b) row col = Some s →
  cell_matches b (row, col) = strict_eq cur s.
Proof.
  intros Hc Hs. unfold cell_matches, strict_eq. simpl. rewrite Hc, Hs.
  apply bool_decide_ext. split; congruence.
Qed.

#[local] Arguments matching_cells : simpl never.
#[local] Arguments cell_matches : simpl never.
#[local] Arguments is_original : simpl never.

Lemma sound_write b board b' :
  sound b → grid9 board →
  playerBoard b' = board → solution b' = solution b →
  original b' = original b →
  sound b'.
Proof.
  intros [(Ho & Hs & _) Hnz] Hboard H1 H2 H3.
  split; [|by rewrite H2]. unfold boards9. by rewrite H1, H2, H3.
Qed.

Lemma drift_place w b row col num :
  battle w = Some b → sound b →
  ∃ b', battle (world_of (playerPlace row col num w)) = Some b'
        ∧ sound b'
        ∧ drift b' = drift b + overwrite (PlayerPlace row col num) w.
Proof.
  intros Hb Hsound. pose proof Hsound as [(Horig & Hsol & Hboard) Hnz].
  unfold overwrite. rewrite Hb.
  destruct (ended b || playerFinished b || is_original b row col) eqn:Href.
  - rewrite (playerPlace_not_accepted w b row col num Hb Href).
    exists b. split; [done|]. split; [done|].
    replace (negb (ended b) && negb (playerFinished b)
             && negb (is_original b row col)) with false; [simpl; lia|].
    destruct (ended b), (playerFinished b), (is_original b row col);
      done.
  - apply orb_false_iff in Href as [Href Ho].
    apply orb_false_iff in Href as [He Hpf].
    rewrite He, Hpf, Ho. simpl.
    pose proof (proj1 (is_original_false b row col) Ho) as Ho'.
    destruct (grid9_in_range _ _ _ _ Horig Ho') as [Hrow Hcol]; [done|].
    destruct (grid9_get _ row col Hsol Hrow Hcol) as (? & s & _ & _ & Hs).
    destruct (grid9_get _ row col Hboard Hrow Hcol)
      as (? & cur & _ & _ & Hcur).
    destruct (grid9_set _ row col num Hboard Hrow Hcol)
      as (board & Hset & Hboard' & Hnew & Hold).
    pose proof (boards_agree_spec all_cells board (solution b)
                  (proj1 Hboard') (proj1 Hsol)
                  (fun rc Hrc' => proj1 (all_cells_rows rc Hrc'))) as Hagree.
    set (agree := forallb _ all_cells) in Hagree. clearbody agree.
    rewrite (playerPlace_accepted w b row col num s board agree
               Hb He Hpf Ho' Hs Hset Hagree).
    simpl world_of. eexists. split; [reflexivity|].
    pose proof (matching_cells_write b board row col num Hrow Hcol Hnew
                  Hold Ho) as Hm.
    rewrite Hs in Hm.
    assert (Hright : bool_decide (Some num = Some s) = strict_eq num s).
    { unfold strict_eq. apply bool_decide_ext. split; congruence. }
    rewrite Hright in Hm.
    split.
    + apply (sound_write b board); try done;
        (destruct (strict_eq num s); [destruct agree|]; done).
    + unfold drift.
      destruct (strict_eq num s) eqn:E; [destruct agree|]; simpl;
        (rewrite (matching_cells_same (set_playerBoard board b) _) by done);
        rewrite Hm; simpl;
        destruct (cell_matches b (row, col)); simpl; lia.
Qed.

Lemma drift_erase w b row col :
  battle w = Some b → sound b →
  ∃ b', battle (world_of (playerErase row col w)) = Some b'
        ∧ sound b' ∧ drift b' = drift b.
Proof.
  intros Hb Hsound. pose proof Hsound as [(Horig & Hsol & Hboard) Hnz].
  destruct (ended b || is_original b row col) eqn:Href.
  - rewrite (playerErase_not_accepted w b row col Hb Href).
    by exists b.
  - apply orb_false_iff in Href as [He Ho].
    pose proof (proj1 (is_original_false b row col) Ho) as Ho'.
    destruct (grid9_in_range _ _ _ _ Horig Ho') as [Hrow Hcol]; [done|].
    destruct (grid9_get _ row col Hsol Hrow Hcol) as (? & s & _ & _ & Hs).
    destruct (grid9_get _ row col Hboard Hrow Hcol)
      as (? & cur & _ & _ & Hcur).
    destruct (grid9_set _ row col (JNum 0) Hboard Hrow Hcol)
      as (board & Hset & Hboard' & Hnew & Hold).
    rewrite (playerErase_accepted w b row col cur s board
               Hb He Ho' Hcur Hs Hset).
    simpl world_of. eexists. split; [reflexivity|].
    pose proof (matching_cells_write b board row col (JNum 0) Hrow Hcol Hnew
                  Hold Ho) as Hm.
    rewrite Hs in Hm.
    rewrite (bool_decide_eq_false_2 (Some (JNum 0) = Some s)) in Hm
      by (intros [= <-]; by apply (Hnz row col)).
    rewrite (cell_matches_nonzero b row col cur s Hcur Hs) in Hm.
    assert (Hheld : negb (strict_eq cur (JNum 0)) && strict_eq cur s
                    = strict_eq cur s).
    { unfold strict_eq. destruct (decide (cur = s)) as [->|Hne].
      - rewrite (bool_decide_eq_false_2 (s = JNum 0))
          by (intros ->; by apply (Hnz row col)).
        done.
      - rewrite (bool_decide_eq_false_2 (cur = s)) by done.
        apply andb_false_r. }
    rewrite Hheld.
    split.
    + apply (sound_write b board); try done;
        by destruct (strict_eq cur s).
    + unfold drift.
      rewrite (matching_cells_same (set_playerBoard board b) _)
        by (by destruct (strict_eq cur s)).
      rewrite Hm. destruct (strict_eq cur s); simpl; lia.
Qed.

Ltac close_kept := eexists; split; [reflexivity|]; simpl; done.

Lemma board_kept_refl w : board_kept w w.
Proof. intros b Hb. by exists b. Qed.

Lemma board_kept_trans w1 w2 w3 :
  board_kept w1 w2 → board_kept w2 w3 → board_kept w1 w3.
Proof.
  intros H G b Hb. destruct (H b Hb) as (b2 & Hb2 & ? & ? & ? & ?).
  destruct (G b2 Hb2) as (b3 & Hb3 & ? & ? & ? & ?).
  exists b3. repeat split; congruence.
Qed.

Lemma countdown_tick_kept tick fin now w :
  board_kept w (world_of (countdown_tick tick fin now w)).
Proof. intros b Hb. exec_op Hb; close_kept. Qed.

Lemma ai_step_kept prog fin now u w :
  board_kept w (world_of (ai_step prog fin now u w)).
Proof. intros b Hb. exec_op Hb; close_kept. Qed.

Lemma beginBattle_kept prog tick fin u w :
  board_kept w (world_of (beginBattle prog tick fin u w)).
Proof. intros b Hb. exec_op Hb; close_kept. Qed.

Lemma playerFinish_kept cb now w :
  board_kept w (world_of (playerFinish cb now w)).
Proof. intros b Hb. exec_op Hb; close_kept. Qed.

Lemma quitBattle_kept cb now w :
  board_kept w (world_of (quitBattle cb now w)).
Proof. intros b Hb. exec_op Hb; close_kept. Qed.

Lemma fire_kept id now u w : board_kept w (world_of (fire id now u w)).
Proof.
  unfold fire.
  destruct (List.find _ (timers w)) as [t|]; [|apply board_kept_refl].
  destruct (timer_body t) as [tick fin|prog fin].
  - apply countdown_tick_kept.
  - eapply board_kept_trans; [|apply ai_step_kept].
    intros b Hb. by exists b.
Qed.

Lemma drift_kept w w' b :
  board_kept w w' → battle w = Some b → sound b →
  ∃ b', battle w' = Some b' ∧ sound b' ∧ drift b' = drift b + 0.
Proof.
  intros H Hb Hsound. destruct (H b Hb) as (b' & Hb' & H1 & H2 & H3 & H4).
  exists b'. split; [done|]. split.
  - apply (sound_write b (playerBoard b)); try done. apply Hsound.
  - unfold drift. rewrite H4, (matching_cells_same b b') by done. lia.
Qed.

Lemma drift_step generate e w b :
  is_start e = false → battle w = Some b → sound b →
  ∃ b', battle (PvP.step generate e w) = Some b'
        ∧ sound b' ∧ drift b' = drift b + overwrite e w.
Proof.
  intros He Hb Hsound.
  destruct e as [| | |r c| | |]; try discriminate He.
  - apply (drift_kept w); [apply beginBattle_kept|done..].
  - by apply drift_place.
  - destruct (drift_erase w b r c Hb Hsound) as (b' & ? & ? & ?).
    exists b'. unfold overwrite. simpl. split; [done|]. split; [done|lia].
  - apply (drift_kept w); [apply playerFinish_kept|done..].
  - apply (drift_kept w); [apply quitBattle_kept|done..].
  - apply (drift_kept w); [apply fire_kept|done..].
Qed.

Lemma overwrites_nonneg generate es w : 0 ≤ overwrites generate es w.
Proof.
  revert w. induction es as [|e es IH]; intros w; simpl; [lia|].
  specialize (IH (PvP.step generate e w)).
  assert (0 ≤ overwrite e w); [|lia].
  unfold overwrite. destruct e; try lia.
  destruct (battle w) as [b|]; [|lia].
  destruct (_ && _); lia.
Qed.

Lemma drift_run generate es w b :
  forallb (fun e => negb (is_start e)) es = true →
  battle w = Some b → sound b →
  ∃ b', battle (PvP.run generate es w) = Some b'
        ∧ drift b' = drift b + overwrites generate es w.
Proof.
  revert w b. induction es as [|e es IH]; intros w b Hes Hb Hsound.
  - exists b. simpl. split; [done|lia].
  - apply andb_true_iff in Hes as [He Hes]. apply negb_true_iff in He.
    destruct (drift_step generate e w b He Hb Hsound)
      as (b1 & Hb1 & Hsound1 & Hd1).
    destruct (IH _ b1 Hes Hb1 Hsound1) as (b' & Hb' & Hd).
    exists b'. split; [done|]. simpl overwrites. lia.
Qed.

Lemma matching_cells_untouched b :
  playerBoard b = original b →
  (∀ r c, grid_get (solution b) r c ≠ Some (JNum 0)) →
  matching_cells b = 0.
Proof.
  intros Hsame Hnz. unfold matching_cells.
  rewrite (filter_off_point (fun _ => false) _ (0, 9)%nat).
  - by induction all_cells.
  - intros H. apply all_cells_rows in H. simpl in H. lia.
  - intros [r c] _. unfold is_original, cell_matches. rewrite Hsame.
    cbn [fst snd].
    destruct (decide (grid_get (original b) r c = Some (JNum 0)))
      as [E|E].
    + rewrite E. rewrite (bool_decide_eq_true_2 _ eq_refl).
      rewrite bool_decide_eq_false_2; [done|].
      intros E'. by apply (Hnz r c).
    + by rewrite (bool_decide_eq_false_2 _ E).
Qed.

Lemma startBattle_session generate difficulty seed rand w :
  grid9 (gen_puzzle (generate difficulty seed)) →
  grid9 (gen_solution (generate difficulty seed)) →
  ∃ b, battle (world_of (startBattle generate difficulty seed rand w))
       = Some b
       ∧ solution b = gen_solution (generate difficulty seed)
       ∧ original b = gen_puzzle (generate difficulty seed)
       ∧ playerBoard b = gen_puzzle (generate difficulty seed)
       ∧ playerCellsFilled b = 0.
Proof.
  intros [Hp _] [Hs _]. unfold startBattle, bind, lift.
  rewrite (scan_cells_spec _ _ [] Hp Hs)
    by (intros rc Hrc; by apply all_cells_rows).
  cbv beta iota zeta. eexists. split; [reflexivity|]. done.
Qed.

(** X19. From [startBattle] on a puzzle with 9×9 grids and a solution
    without empty cells, through any engine calls and timer firings up
    to the next [startBattle], [playerCellsFilled] is the number of
    non-original cells of [playerBoard] that hold their solution value
    plus the number of placements made onto a cell that already held
    its solution value; it is never below the number of solved cells. *)
Theorem playerCellsFilled_accounting generate difficulty seed rand es w :
  let d := generate difficulty seed in
  let w0 := PvP.step generate (StartBattle difficulty seed rand) w in
  grid9 (gen_puzzle d) → grid9 (gen_solution d) →
  (∀ r c, grid_get (gen_solution d) r c ≠ Some (JNum 0)) →
  forallb (fun e => negb (is_start e)) es = true →
  ∃ b', battle (PvP.run generate es w0) = Some b'
        ∧ playerCellsFilled b'
          = matching_cells b' + overwrites generate es w0
        ∧ matching_cells b' ≤ playerCellsFilled b'.
Proof.
  intros d w0 Hp Hs Hnz Hes.
  assert (Hstart : ∃ b, battle w0 = Some b ∧ sound b ∧ drift b = 0).
  { subst w0. cbn [PvP.step].
    destruct (startBattle_session generate difficulty seed rand w Hp Hs)
      as (b & -> & Hsol & Horig & Hboard & Hfilled).
    exists b. split; [done|].
    assert (Hsound : sound b).
    { split; [|by rewrite Hsol].
      unfold boards9. by rewrite Hsol, Horig, Hboard. }
    split; [done|]. unfold drift.
    rewrite matching_cells_untouched;
      [lia | congruence | apply Hsound]. }
  destruct Hstart as (b & Hb & Hsound & Hd).
  destruct (drift_run generate es w0 b Hes Hb Hsound) as (b' & Hb' & Hd').
  exists b'. split; [done|].
  pose proof (overwrites_nonneg generate es w0).
  unfold drift in *. split; lia.
Qed.

Lemma solved_is_full r c : grid_get solved r c ≠ Some (JNum 0).
Proof.
  do 9 (destruct r as [|r];
        [do 9 (destruct c as [|c]; [by vm_compute|]); by vm_compute|]).
  by vm_compute.
Qed.

Lemma playerCellsFilled_accounting_witness :
  let es := [ PlayerPlace 0 0 (JNum 1); PlayerPlace 0 0 (JNum 1);
              PlayerPlace 4 5 (JNum 9); PlayerErase 4 5 ] in
  ∃ b', battle (PvP.run (generate_with [(0, 0); (4, 5)]%nat) es
                  (holding sample_session))
        = Some b'
        ∧ playerCellsFilled b' = 2 ∧ matching_cells b' = 1.
Proof.
  intros es.
  destruct (playerCellsFilled_accounting
              (generate_with [(0, 0); (4, 5)]%nat) "medium" 1%nat zeros es
              initial_world)
    as (b' & Hb' & Hacc & _).
  - split; [reflexivity|]. repeat constructor.
  - split; [reflexivity|]. repeat constructor.
  - apply solved_is_full.
  - reflexivity.
  - exists b'. split; [exact Hb'|].
    vm_compute in Hb'. injection Hb' as <-. by vm_compute.
Defined.

(** *** The battle screen *)

Ltac finish_op Hok :=
  unfold finish_ends;
  match goal with
  | |- context [battle (world_of (_ ?w))] =>
      let b := fresh "b" in
      let Hb := fresh "Hb" in
      destruct (battle w) as [b|] eqn:Hb;
      [ specialize (Hok b Hb) | ];
      exec_op Hb;
      intros ? ?; simplify_eq; simpl in *; simplify_eq;
      intros; try congruence; auto;
      try match goal with
          | H : playerFinished _ = true |- _ => apply Hok in H; congruence
          end
  end.

Lemma countdown_tick_finish_ends tick fin now w :
  finish_ends w → finish_ends (world_of (countdown_tick tick fin now w)).
Proof. intros Hok. finish_op Hok. Qed.

Lemma ai_step_finish_ends prog fin now u w :
  finish_ends w → finish_ends (world_of (ai_step prog fin now u w)).
Proof. intros Hok. finish_op Hok. Qed.

Lemma beginBattle_finish_ends prog tick fin u w :
  finish_ends w → finish_ends (world_of (beginBattle prog tick fin u w)).
Proof. intros Hok. finish_op Hok. Qed.

Lemma playerErase_finish_ends row col w :
  finish_ends w → finish_ends (world_of (playerErase row col w)).
Proof. intros Hok. finish_op Hok. Qed.

Lemma playerFinish_finish_ends cb now w :
  finish_ends w → finish_ends (world_of (playerFinish cb now w)).
Proof. intros Hok. finish_op Hok. Qed.

Lemma quitBattle_finish_ends cb now w :
  finish_ends w → finish_ends (world_of (quitBattle cb now w)).
Proof. intros Hok. finish_op Hok. Qed.

Lemma fire_finish_ends id now u w :
  finish_ends w → finish_ends (world_of (fire id now u w)).
Proof.
  intros Hok. unfold fire.
  destruct (List.find _ (timers w)) as [t|]; [|done].
  destruct (timer_body t) as [tick fin|prog fin].
  - by apply countdown_tick_finish_ends.
  - by apply ai_step_finish_ends.
Qed.

Lemma startBattle_finish_ends generate difficulty seed rand w :
  finish_ends w →
  finish_ends (world_of (startBattle generate difficulty seed rand w)).
Proof.
  intros Hok. unfold startBattle, bind, lift.
  destruct (scan_cells _ all_cells []) as [cells|]; [|done].
  intros b Hb. simpl in Hb. by injection Hb as <-.
Qed.

Lemma onBattleNumberInput_finish_ends num now s :
  finish_ends (UI.engine s) →
  finish_ends (UI.engine (UI.onBattleNumberInput num now s)).
Proof.
  intros Hok. unfold UI.onBattleNumberInput.
  destruct (UI.battleSelectedCell s) as [[row col]|]; [|done].
  unfold finish_ends.
  destruct (battle (UI.engine s)) as [b|] eqn:Hb;
    [specialize (Hok b Hb)|];
    exec_op Hb;
    intros ? ?; simplify_eq; simpl in *; simplify_eq;
    intros; try congruence; auto;
    try match goal with
        | H : playerFinished _ = true |- _ => apply Hok in H; congruence
        end.
Qed.

Lemma matchFound_finish_ends generate difficulty seed rand u s :
  finish_ends (UI.engine s) →
  finish_ends (UI.engine (UI.matchFound generate difficulty seed rand u s)).
Proof.
  intros Hok. unfold UI.matchFound.
  pose proof (startBattle_finish_ends generate difficulty seed rand _ Hok)
    as Hstart.
  destruct (startBattle generate difficulty seed rand (UI.engine s))
    as [b w|w]; simpl in *; [|done].
  destruct (UI.renderBattleBoard w); simpl; [|done].
  by apply beginBattle_finish_ends.
Qed.

Lemma ui_step_finish_ends generate e s :
  finish_ends (UI.engine s) →
  finish_ends (UI.engine (UI.step generate e s)).
Proof.
  intros Hok. destruct e as [| r c | | | |]; simpl.
  - by apply matchFound_finish_ends.
  - unfold UI.onBattleCellClick, getBattle.
    destruct (battle (UI.engine s)) as [b|]; [|done].
    destruct (ended b); [done|].
    destruct (grid_get (original b) r c) as [o|]; [|done].
    by destruct (negb (strict_eq o (JNum 0))).
  - by apply onBattleNumberInput_finish_ends.
  - unfold UI.onBattleErase.
    destruct (UI.battleSelectedCell s) as [[row col]|]; [|done].
    by apply playerErase_finish_ends.
  - by apply quitBattle_finish_ends.
  - by apply fire_finish_ends.
Qed.

Lemma ui_run_finish_ends generate es s :
  finish_ends (UI.engine s) →
  finish_ends (UI.engine (UI.run generate es s)).
Proof.
  revert s. induction es as [|e es IH]; intros s Hok; [done|].
  simpl. apply IH. by apply ui_step_finish_ends.
Qed.

(** X20. On the battle screen the engine never holds a session that the
    player has finished and that has not ended: the handler of a number
    key calls [playerFinish] as soon as [playerPlace] reports the board
    solved. So when the Quit button finds a session that has not ended,
    the battle always ends as a loss with a rating change of -25. *)
Theorem quit_button_scores_a_loss generate es now b :
  let s := UI.run generate es UI.initial in
  battle (UI.engine s) = Some b → ended b = false →
  playerFinished b = false
  ∧ ∃ b', battle (UI.engine (UI.onBattleQuit now s)) = Some b'
          ∧ ended b' = true
          ∧ result b' = Some Player.Lose ∧ eloDelta b' = -25.
Proof.
  intros s Hb He.
  assert (Hok : finish_ends (UI.engine s)).
  { apply ui_run_finish_ends. intros b0 Hb0. discriminate Hb0. }
  assert (Hpf : playerFinished b = false).
  { destruct (playerFinished b) eqn:E; [|done].
    specialize (Hok b Hb E). congruence. }
  split; [done|].
  destruct (endBattle_live (UI.engine s) b Quit UI.result_closure now Hb He)
    as (w' & b' & Hrun & Hb' & Heq & _).
  exists b'. unfold UI.onBattleQuit, quitBattle, bind, read_battle.
  rewrite Hb, He. cbn [negb]. rewrite Hrun. simpl. split; [done|].
  rewrite Heq. simpl. unfold determine. rewrite Hpf. done.
Qed.

Lemma quit_button_scores_a_loss_witness :
  let s := UI.run (generate_with [(0, 0); (4, 5)]%nat)
             [ UI.MatchFound "medium" 1 zeros (halves 0%nat);
               UI.CellClick 0 0; UI.NumberInput (JNum 1) "2024-01-01" ]
             UI.initial in
  ∃ b', battle (UI.engine (UI.onBattleQuit "2024-01-02" s)) = Some b'
        ∧ playerCellsFilled b' = 1
        ∧ result b' = Some Player.Lose ∧ eloDelta b' = -25.
Proof.
  intros s.
  assert (Hs : ∃ b, battle (UI.engine s) = Some b ∧ ended b = false
                    ∧ playerCellsFilled b = 1).
  { eexists. split; [by vm_compute|]. by vm_compute. }
  destruct Hs as (b & Hb & He & Hfilled).
  destruct (quit_button_scores_a_loss (generate_with [(0, 0); (4, 5)]%nat)
              [ UI.MatchFound "medium" 1 zeros (halves 0%nat);
                UI.CellClick 0 0; UI.NumberInput (JNum 1) "2024-01-01" ]
              "2024-01-02" b Hb He)
    as (_ & b' & Hb' & _ & Hres & Hdelta).
  exists b'. split; [exact Hb'|]. split; [|by split].
  vm_compute in Hb'. injection Hb' as <-. by vm_compute.
Defined.

Lemma selection_kept w' s :
  world_later (UI.engine s) w' → selection_ok s →
  selection_ok (UI.with_engine w' s).
Proof.
  intros Hlater Hok row col Hsel. simpl in Hsel.
  destruct (Hok row col Hsel) as (b & Hb & Ho).
  destruct (Hlater b Hb) as (b' & Hb' & Hl).
  exists b'. split; [done|].
  destruct Hl as (_ & _ & _ & _ & -> & _). done.
Qed.

Lemma onBattleNumberInput_later num now s :
  world_later (UI.engine s)
    (UI.engine (UI.onBattleNumberInput num now s)).
Proof.
  unfold UI.onBattleNumberInput.
  destruct (UI.battleSelectedCell s) as [[row col]|];
    [|apply world_later_refl].
  pose proof (playerPlace_later row col num (UI.engine s)) as Hplace.
  destruct (playerPlace row col num (UI.engine s)) as [[res|] w'|w'];
    simpl in *; try done.
  destruct (isCorrect res); [|done].
  destruct (finished res); [|done].
  simpl. eapply world_later_trans; [done|apply playerFinish_later].
Qed.

Lemma ui_step_selection generate e s :
  selection_ok s → selection_ok (UI.step generate e s).
Proof.
  intros Hok. destruct e as [difficulty seed rand u| r c | | | |]; simpl.
  - unfold UI.matchFound, startBattle, bind, lift.
    destruct (scan_cells _ all_cells []) as [cells|];
      [|apply selection_kept; [apply world_later_refl|done]].
    cbv beta iota zeta.
    destruct (UI.renderBattleBoard _); intros row col Hsel; discriminate Hsel.
  - unfold UI.onBattleCellClick, getBattle.
    destruct (battle (UI.engine s)) as [b|] eqn:Hb; [|done].
    destruct (ended b); [done|].
    destruct (grid_get (original b) r c) as [o|] eqn:Ho; [|done].
    unfold strict_eq. destruct (decide (o = JNum 0)) as [->|Hne].
    + rewrite (bool_decide_eq_true_2 _ eq_refl). simpl.
      intros row col [= <- <-]. exists b. done.
    + by rewrite (bool_decide_eq_false_2 _ Hne).
  - intros row col Hsel.
    assert (Hsame : UI.battleSelectedCell (UI.onBattleNumberInput num now s)
                    = UI.battleSelectedCell s).
    { unfold UI.onBattleNumberInput.
      destruct (UI.battleSelectedCell s) as [[row' col']|] eqn:E; [|done].
      destruct (playerPlace row' col' num (UI.engine s)) as [[res|] w'|w'];
        try done.
      by destruct (isCorrect res), (finished res). }
    rewrite Hsame in Hsel. destruct (Hok row col Hsel) as (b & Hb & Ho).
    destruct (onBattleNumberInput_later num now s b Hb) as (b' & Hb' & Hl).
    exists b'. split; [done|].
    destruct Hl as (_ & _ & _ & _ & -> & _). done.
  - unfold UI.onBattleErase.
    destruct (UI.battleSelectedCell s) as [[row col]|] eqn:Hsel; [|done].
    apply selection_kept; [apply playerErase_later|done].
  - apply selection_kept; [apply quitBattle_later|done].
  - apply selection_kept; [apply fire_later|done].
Qed.

(** X21. Whatever the user does on the battle screen and whichever
    timers fire, the selected cell, when there is one, is a cell of the
    current session that the puzzle left empty: a new match clears the
    selection and a click selects only such a cell. The number keys and
    the eraser therefore never address a given cell or a cell that the
    puzzle does not have. *)
Theorem selected_cell_is_open generate es :
  selection_ok (UI.run generate es UI.initial).
Proof.
  assert (H : ∀ s, selection_ok s → selection_ok (UI.run generate es s)).
  { induction es as [|e es IH]; intros s Hok; [done|].
    simpl. apply IH. by apply ui_step_selection. }
  apply H. intros row col Hsel. discriminate Hsel.
Qed.

(** *** The pace of the opponent *)

Lemma rnd_Q_range u : (0 <= rnd_Q u)%Q ∧ (rnd_Q u <= 1)%Q.
Proof.
  unfold rnd_Q, rnd_den.
  assert (Hd : (0 < inject_Z (Z.of_nat (rnd_num u + rnd_gap u + 1)))%Q).
  { rewrite <- (Zlt_Qlt 0). lia. }
  split.
  - apply Qle_shift_div_l; [done|]. rewrite Qmult_0_l.
    rewrite <- (Zle_Qle 0). lia.
  - apply Qle_shift_div_r; [done|]. rewrite Qmult_1_l.
    rewrite <- Zle_Qle. lia.
Qed.

Lemma delay_paced u lo hi :
  2000 ≤ lo ≤ hi ∧ hi ≤ 20000 →
  (2000 <= inject_Z lo + rnd_Q u * (inject_Z hi - inject_Z lo))%Q
  ∧ (inject_Z lo + rnd_Q u * (inject_Z hi - inject_Z lo) <= 20000)%Q.
Proof.
  intros [[Hlo Hle] Hhi]. destruct (rnd_Q_range u) as [H0 H1].
  assert (HQlo : (2000 <= inject_Z lo)%Q) by (unfold Qle; simpl; lia).
  assert (HQle : (inject_Z lo <= inject_Z hi)%Q) by (unfold Qle; simpl; lia).
  assert (HQhi : (inject_Z hi <= 20000)%Q) by (unfold Qle; simpl; lia).
  set (l := inject_Z lo) in *. set (h := inject_Z hi) in *.
  set (r := rnd_Q u) in *. clearbody l h r.
  assert (Hdown : (0 <= r * (h - l))%Q)
    by (apply Qmult_le_0_compat; [done|lra]).
  assert (Hup : (r * (h - l) <= 1 * (h - l))%Q)
    by (apply Qmult_le_compat_r; [done|lra]).
  split; lra.
Qed.

Lemma ai_delay_paced strict speed u :
  speed_paced strict speed →
  (∃ q, ai_delay speed u = Fin q ∧ (2000 <= q)%Q ∧ (q <= 20000)%Q)
  ∨ (strict = false ∧ ai_delay speed u = NaN).
Proof.
  destruct speed as [lo hi|]; unfold speed_paced, ai_delay.
  - intros H. left. eexists. split; [reflexivity|]. by apply delay_paced.
  - intros ->. by right.
Qed.

Lemma Forall_disarm (P : Timer → Prop) i ts :
  Forall P ts → Forall P (disarm i ts).
Proof.
  intros H. apply Forall_forall. intros t Ht.
  apply list_elem_of_filter in Ht as [_ Ht].
  by apply (proj1 (Forall_forall P ts) H).
Qed.

#[local] Arguments disarm : simpl never.

Ltac paced_timers :=
  repeat first
    [ assumption
    | apply Forall_disarm
    | apply Forall_cons; split;
      [ unfold timer_paced; simpl;
        first [reflexivity | by apply ai_delay_paced] | ] ].

Ltac paced_op Hok :=
  destruct Hok as [Hsp Hts]; unfold paced;
  match goal with
  | |- context [world_of (_ ?w)] =>
      let b := fresh "b" in
      let Hb := fresh "Hb" in
      destruct (battle w) as [b|] eqn:Hb;
      [ specialize (Hsp b eq_refl) | ];
      exec_op Hb;
      (split; [ intros ? ?; simplify_eq; simpl; done | simpl; paced_timers ])
  end.

Lemma countdown_tick_paced strict tick fin now w :
  paced strict w → paced strict (world_of (countdown_tick tick fin now w)).
Proof. intros Hok. paced_op Hok. Qed.

Lemma ai_step_paced strict prog fin now u w :
  paced strict w → paced strict (world_of (ai_step prog fin now u w)).
Proof. intros Hok. paced_op Hok. Qed.

Lemma beginBattle_paced strict prog tick fin u w :
  paced strict w → paced strict (world_of (beginBattle prog tick fin u w)).
Proof. intros Hok. paced_op Hok. Qed.

Lemma playerPlace_paced strict row col num w :
  paced strict w → paced strict (world_of (playerPlace row col num w)).
Proof. intros Hok. paced_op Hok. Qed.

Lemma playerErase_paced strict row col w :
  paced strict w → paced strict (world_of (playerErase row col w)).
Proof. intros Hok. paced_op Hok. Qed.

Lemma playerFinish_paced strict cb now w :
  paced strict w → paced strict (world_of (playerFinish cb now w)).
Proof. intros Hok. paced_op Hok. Qed.

Lemma quitBattle_paced strict cb now w :
  paced strict w → paced strict (world_of (quitBattle cb now w)).
Proof. intros Hok. paced_op Hok. Qed.

Lemma fire_paced strict id now u w :
  paced strict w → paced strict (world_of (fire id now u w)).
Proof.
  intros Hok. unfold fire.
  destruct (List.find _ (timers w)) as [t|]; [|done].
  destruct (timer_body t) as [tick fin|prog fin].
  - by apply countdown_tick_paced.
  - apply ai_step_paced. destruct Hok as [Hsp Hts].
    split; [done|]. simpl. by apply Forall_disarm.
Qed.

Lemma startBattle_paced strict generate difficulty seed rand w :
  (strict = true → inherited difficulty = false) →
  paced strict w →
  paced strict (world_of (startBattle generate difficulty seed rand w)).
Proof.
  intros Hname [Hsp Hts]. unfold startBattle, bind, lift.
  destruct (scan_cells _ all_cells []) as [cells|]; [|done].
  split; [|done].
  intros b Hb. simpl in Hb. injection Hb as <-. simpl.
  unfold AI_SPEED. repeat case_match; simplify_eq; simpl; try lia.
  destruct strict; [|done]. by rewrite Hname in *.
Qed.

Lemma run_paced strict generate es w :
  (strict = true → forallb plainly_named es = true) →
  paced strict w → paced strict (PvP.run generate es w).
Proof.
  revert w. induction es as [|e es IH]; intros w Hes Hok; [done|].
  assert (He : strict = true → plainly_named e = true).
  { intros Hs. specialize (Hes Hs). simpl in Hes.
    by apply andb_true_iff in Hes as [He _]. }
  assert (Hes' : strict = true → forallb plainly_named es = true).
  { intros Hs. specialize (Hes Hs). simpl in Hes.
    by apply andb_true_iff in Hes as [_ Hes]. }
  simpl. apply IH; [done|]. destruct e; simpl.
  - apply startBattle_paced; [|done].
    intros Hs. specialize (He Hs). simpl in He.
    by apply negb_true_iff in He.
  - by apply beginBattle_paced.
  - by apply playerPlace_paced.
  - by apply playerErase_paced.
  - by apply playerFinish_paced.
  - by apply quitBattle_paced.
  - by apply fire_paced.
Qed.

(** X22. Whatever [Math.random] returns, every timer the engine has
    armed is either a countdown set to 1000 ms or a move of the opponent
    set between 2000 and 20000 ms ahead, as long as no battle was
    started under the name of a member the speed table inherits from
    [Object.prototype]; a name that the table neither has nor inherits
    falls back to 3000..7000. Under an inherited name the table answers
    with that member instead of falling back, [min] and [max] are
    [undefined], and the move is armed with [NaN]: without the
    condition, a move's delay is within the bounds or [NaN]. *)
Theorem opponent_pace_is_bounded generate es :
  let w := PvP.run generate es initial_world in
  Forall (timer_paced false) (timers w)
  ∧ (forallb plainly_named es = true → Forall (timer_paced true) (timers w)).
Proof.
  intros w.
  assert (Hinit : ∀ strict, paced strict initial_world).
  { intros strict. split; [intros b Hb; discriminate Hb | constructor]. }
  split.
  - apply (run_paced false generate es initial_world); [done|apply Hinit].
  - intros Hes.
    by apply (run_paced true generate es initial_world); [|apply Hinit].
Qed.

Lemma opponent_pace_is_bounded_witness :
  let begin := BeginBattle None None None (halves 0%nat) in
  let w := PvP.run (generate_with [(0, 0); (4, 5)]%nat)
             [StartBattle "casual" 1 zeros; begin] initial_world in
  let w' := PvP.run (generate_with [(0, 0); (4, 5)]%nat)
              [StartBattle "constructor" 1 zeros; begin] initial_world in
  let shown t :=
    match timer_delay t with Fin q => Fin (Qred q) | other => other end in
  Forall (timer_paced true) (timers w)
  ∧ (shown <$> timers w) = [Fin 5000; Fin 1000]
  ∧ Forall (timer_paced false) (timers w')
  ∧ (shown <$> timers w') = [NaN; Fin 1000].
Proof.
  intros begin w w' shown.
  destruct (opponent_pace_is_bounded (generate_with [(0, 0); (4, 5)]%nat)
              [StartBattle "casual" 1 zeros; begin])
    as [_ Hstrict].
  destruct (opponent_pace_is_bounded (generate_with [(0, 0); (4, 5)]%nat)
              [StartBattle "constructor" 1 zeros; begin])
    as [Hloose _].
  split; [exact (Hstrict eq_refl)|]. split; [by vm_compute|].
  split; [exact Hloose|]. by vm_compute.
Defined.

(** *** The progress of the opponent *)

Lemma ai_timers_countdown id f g d ts :
  ai_timers ({| timer_id := id; timer_body := Countdown f g;
                timer_delay := d |} :: ts)
  = ai_timers ts.
Proof. done. Qed.

Lemma ai_timers_aistep id f g d ts :
  ai_timers ({| timer_id := id; timer_body := AIStep f g;
                timer_delay := d |} :: ts)
  = S (ai_timers ts).
Proof. done. Qed.

Lemma ai_timers_disarm i ts : (ai_timers (disarm i ts) ≤ ai_timers ts)%nat.
Proof.
  unfold ai_timers, disarm. induction ts as [|t ts IH]; [done|].
  rewrite filter_cons. destruct (decide (timer_id t ≠ i)); simpl;
    destruct (is_ai_timer t); simpl; lia.
Qed.

Lemma ai_timers_fired i t ts :
  List.find (fun t => Nat.eqb (timer_id t) i) ts = Some t →
  is_ai_timer t = true →
  (ai_timers (disarm i ts) < ai_timers ts)%nat.
Proof.
  unfold ai_timers, disarm. induction ts as [|t' ts IH]; [done|].
  simpl. destruct (Nat.eqb (timer_id t') i) eqn:E.
  - intros [= ->] Hai. apply Nat.eqb_eq in E.
    rewrite filter_cons_False by (intros Hne; by apply Hne).
    rewrite Hai. simpl.
    pose proof (ai_timers_disarm i ts) as Hle.
    unfold ai_timers, disarm in Hle. lia.
  - intros Hfind Hai. specialize (IH Hfind Hai).
    apply Nat.eqb_neq in E. rewrite filter_cons_True by done.
    simpl. destruct (is_ai_timer t'); simpl; lia.
Qed.

#[local] Arguments ai_timers : simpl never.

Ltac bound_disarm :=
  repeat match goal with
         | |- context [ai_timers (disarm ?i ?ts)] =>
             let k := fresh "k" in
             pose proof (ai_timers_disarm i ts);
             set (k := ai_timers (disarm i ts)) in *; clearbody k
         | H : context [ai_timers (disarm ?i ?ts)] |- _ =>
             let k := fresh "k" in
             pose proof (ai_timers_disarm i ts);
             set (k := ai_timers (disarm i ts)) in *; clearbody k
         end.

Ltac track_close :=
  intros ? ?; simplify_eq; simpl in *; simplify_eq;
  rewrite ?ai_timers_aistep, ?ai_timers_countdown;
  bound_disarm;
  repeat match goal with
         | H : ?x = ?x → _ |- _ => specialize (H eq_refl)
         | H : true = false → _ |- _ => clear H
         | H : false = true → _ |- _ => clear H
         | H : _ ∧ _ |- _ => destruct H
         end;
  repeat split; intros;
  try match goal with
      | Hi : started ?b = false → _, H : started ?b = false |- _ =>
          destruct (Hi H)
      end;
  try congruence; try lia.

Ltac track_op Hok :=
  unfold ai_on_track;
  match goal with
  | |- context [world_of (_ ?w)] =>
      let b := fresh "b" in
      let Hb := fresh "Hb" in
      destruct (battle w) as [b|] eqn:Hb;
      [ destruct (Hok b Hb) as (Hone & Hleft & Hidle & Hlo & Hhi) | ];
      exec_op Hb; track_close
  end.

Lemma countdown_tick_on_track tick fin now w :
  ai_on_track w → ai_on_track (world_of (countdown_tick tick fin now w)).
Proof. intros Hok. track_op Hok. Qed.

Lemma beginBattle_on_track prog tick fin u w :
  ai_on_track w → ai_on_track (world_of (beginBattle prog tick fin u w)).
Proof. intros Hok. track_op Hok. Qed.

Lemma playerPlace_on_track row col num w :
  ai_on_track w → ai_on_track (world_of (playerPlace row col num w)).
Proof. intros Hok. track_op Hok. Qed.

Lemma playerErase_on_track row col w :
  ai_on_track w → ai_on_track (world_of (playerErase row col w)).
Proof. intros Hok. track_op Hok. Qed.

Lemma playerFinish_on_track cb now w :
  ai_on_track w → ai_on_track (world_of (playerFinish cb now w)).
Proof. intros Hok. track_op Hok. Qed.

Lemma quitBattle_on_track cb now w :
  ai_on_track w → ai_on_track (world_of (quitBattle cb now w)).
Proof. intros Hok. track_op Hok. Qed.

Lemma ai_step_on_track prog fin now u w b :
  battle w = Some b → ai_timers (timers w) = 0%nat →
  started b = true →
  aiCellsFilled b < aiTotalCells b ∨ aiCellsFilled b = 0 →
  0 ≤ aiCellsFilled b →
  ai_on_track (world_of (ai_step prog fin now u w)).
Proof.
  intros Hb Hnone Hstarted Hleft Hlo. unfold ai_on_track.
  exec_op Hb; track_close.
Qed.

Lemma fire_on_track id now u w :
  ai_on_track w → ai_on_track (world_of (fire id now u w)).
Proof.
  intros Hok. unfold fire.
  destruct (List.find _ (timers w)) as [t|] eqn:Hfind; [|done].
  destruct (timer_body t) as [tick fin|prog fin] eqn:Hbody.
  - by apply countdown_tick_on_track.
  - destruct (battle w) as [b|] eqn:Hb.
    + destruct (Hok b Hb) as (Hone & Hleft & Hidle & Hlo & Hhi).
      pose proof (ai_timers_fired id t (timers w) Hfind) as Hfired.
      unfold is_ai_timer in Hfired. rewrite Hbody in Hfired.
      specialize (Hfired eq_refl).
      assert (Hnone : ai_timers (disarm id (timers w)) = 0%nat) by lia.
      assert (Hstarted : started b = true).
      { destruct (started b) eqn:E; [done|]. destruct (Hidle eq_refl). lia. }
      assert (Hcell : aiCellsFilled b < aiTotalCells b ∨ aiCellsFilled b = 0)
        by (apply Hleft; lia).
      by apply (ai_step_on_track _ _ _ _ _ b).
    + unfold ai_step, bind, deref_battle, lift. simpl. rewrite Hb. simpl.
      intros b' Hb'. simpl in Hb'. congruence.
Qed.

Lemma startBattle_on_track generate difficulty seed rand w :
  battle w = None → ai_timers (timers w) = 0%nat →
  ai_on_track (world_of (startBattle generate difficulty seed rand w)).
Proof.
  intros Hnew Hnone. unfold startBattle, bind, lift.
  destruct (scan_cells _ all_cells []) as [cells|].
  - intros b Hb. simpl in Hb. injection Hb as <-. simpl.
    rewrite Hnone. repeat split; try done; lia.
  - intros b Hb. simpl in Hb. congruence.
Qed.

Lemma run_on_track generate es w :
  forallb (fun e => negb (is_start e)) es = true →
  ai_on_track w → ai_on_track (PvP.run generate es w).
Proof.
  revert w. induction es as [|e es IH]; intros w Hes Hok; [done|].
  apply andb_true_iff in Hes as [He Hes]. apply negb_true_iff in He.
  simpl. apply IH; [done|]. destruct e; simpl; try discriminate He.
  - by apply beginBattle_on_track.
  - by apply playerPlace_on_track.
  - by apply playerErase_on_track.
  - by apply playerFinish_on_track.
  - by apply quitBattle_on_track.
  - by apply fire_on_track.
Qed.

(** X23. In a battle started on a fresh page, through any engine calls
    and timer firings up to the next [startBattle], the opponent has at
    most one move pending and its count of filled cells stays between 0
    and [aiTotalCells] (1 for a puzzle without empty cells, where the
    first move still counts a cell). *)
Theorem opponent_progress_is_bounded generate difficulty seed rand es b :
  let w := PvP.run generate (StartBattle difficulty seed rand :: es)
             initial_world in
  forallb (fun e => negb (is_start e)) es = true →
  battle w = Some b →
  0 ≤ aiCellsFilled b ≤ Z.max 1 (aiTotalCells b)
  ∧ (ai_timers (timers w) ≤ 1)%nat.
Proof.
  intros w Hes Hb.
  assert (Hok : ai_on_track w).
  { apply (run_on_track generate es
             (PvP.step generate (StartBattle difficulty seed rand)
                initial_world) Hes).
    apply startBattle_on_track; reflexivity. }
  destruct (Hok b Hb) as (Hone & _ & _ & Hbound). done.
Qed.

Lemma opponent_progress_is_bounded_witness :
  let es := [ BeginBattle None None None (halves 0%nat);
              Fire 2 "2024-01-01" (halves 0%nat);
              Fire 3 "2024-01-01" (halves 0%nat);
              Fire 3 "2024-01-01" (halves 0%nat);
              Fire 1 "2024-01-01" (halves 0%nat) ] in
  let w := PvP.run (generate_with [(0, 0); (4, 5)]%nat)
             (StartBattle "medium" 1 zeros :: es) initial_world in
  ∃ b, battle w = Some b
       ∧ aiTotalCells b = 2 ∧ aiCellsFilled b = 2 ∧ ended b = true
       ∧ 0 ≤ aiCellsFilled b ≤ Z.max 1 (aiTotalCells b)
       ∧ (ai_timers (timers w) ≤ 1)%nat.
Proof.
  intros es w.
  assert (Hb : ∃ b, battle w = Some b
                    ∧ aiTotalCells b = 2 ∧ aiCellsFilled b = 2
                    ∧ ended b = true).
  { eexists. split; [by vm_compute|]. by vm_compute. }
  destruct Hb as (b & Hb & Htotal & Hfilled & Hended).
  exists b. split; [exact Hb|]. split; [exact Htotal|].
  split; [exact Hfilled|]. split; [exact Hended|].
  exact (opponent_progress_is_bounded
           (generate_with [(0, 0); (4, 5)]%nat) "medium" 1%nat zeros es b
           eq_refl Hb).
Defined.

(** *** Timers and their session *)

Lemma owned_ext b b' ts :
  timerIntervalId b' = timerIntervalId b →
  aiIntervalId b' = aiIntervalId b →
  Forall (owned b) ts → Forall (owned b') ts.
Proof.
  intros H1 H2 Hts. eapply Forall_impl; [exact Hts|].
  intros t. unfold owned. by rewrite H1, H2.
Qed.

Lemma owned_gone b ts i j :
  Forall (owned b) ts → timerIntervalId b = i → aiIntervalId b = j →
  cleared j (cleared i ts) = [].
Proof.
  intros Hts <- <-. induction ts as [|t ts IH]; [by destruct (aiIntervalId b), (timerIntervalId b)|].
  apply Forall_cons in Hts as [Ht Hts]. specialize (IH Hts).
  unfold owned in Ht. unfold cleared, disarm in *.
  destruct (timer_body t);
    destruct (timerIntervalId b) as [i|], (aiIntervalId b) as [j|];
    simplify_eq; rewrite ?filter_cons;
    repeat (case_decide; try done; rewrite ?filter_cons); try done.
Qed.

Lemma owned_gone_both b ts i j :
  Forall (owned b) ts →
  timerIntervalId b = Some i → aiIntervalId b = Some j →
  disarm j (disarm i ts) = [].
Proof. apply (owned_gone b ts (Some i) (Some j)). Qed.

Lemma owned_gone_countdown b ts i :
  Forall (owned b) ts →
  timerIntervalId b = Some i → aiIntervalId b = None →
  disarm i ts = [].
Proof. apply (owned_gone b ts (Some i) None). Qed.

Lemma owned_gone_move b ts j :
  Forall (owned b) ts →
  timerIntervalId b = None → aiIntervalId b = Some j →
  disarm j ts = [].
Proof. apply (owned_gone b ts None (Some j)). Qed.

Lemma owned_gone_none b ts :
  Forall (owned b) ts →
  timerIntervalId b = None → aiIntervalId b = None →
  ts = [].
Proof. apply (owned_gone b ts None None). Qed.

Ltac tidy_close :=
  simpl;
  repeat match goal with
         | Hts : Forall (owned ?b) ?ts, H1 : timerIntervalId ?b = Some ?i,
           H2 : aiIntervalId ?b = Some ?j |- _ =>
             rewrite (owned_gone_both b ts i j Hts H1 H2)
         | Hts : Forall (owned ?b) ?ts, H1 : timerIntervalId ?b = Some ?i,
           H2 : aiIntervalId ?b = None |- _ =>
             rewrite (owned_gone_countdown b ts i Hts H1 H2)
         | Hts : Forall (owned ?b) ?ts, H1 : timerIntervalId ?b = None,
           H2 : aiIntervalId ?b = Some ?j |- _ =>
             rewrite (owned_gone_move b ts j Hts H1 H2)
         | Hts : Forall (owned ?b) ?ts, H1 : timerIntervalId ?b = None,
           H2 : aiIntervalId ?b = None |- context [?ts] =>
             rewrite (owned_gone_none b ts Hts H1 H2)
         end;
  try done;
  try (split;
       [ first [ by constructor
               | by (eapply owned_ext; [| |eassumption])
               | idtac ]
       | intros [?|?]; try congruence; auto ]).

Ltac tidy_op Hok :=
  unfold tidy in *;
  match goal with
  | |- context [world_of (_ ?w)] =>
      let b := fresh "b" in
      let Hb := fresh "Hb" in
      destruct (battle w) as [b|] eqn:Hb;
      [ destruct Hok as [Hts Hnone] | ];
      exec_op Hb; tidy_close
  end.

Lemma playerPlace_tidy row col num w :
  tidy w → tidy (world_of (playerPlace row col num w)).
Proof. intros Hok. tidy_op Hok. Qed.

Lemma playerErase_tidy row col w :
  tidy w → tidy (world_of (playerErase row col w)).
Proof. intros Hok. tidy_op Hok. Qed.

Lemma playerFinish_tidy cb now w :
  tidy w → tidy (world_of (playerFinish cb now w)).
Proof. intros Hok. tidy_op Hok. Qed.

Lemma quitBattle_tidy cb now w :
  tidy w → tidy (world_of (quitBattle cb now w)).
Proof. intros Hok. tidy_op Hok. Qed.

Lemma countdown_tick_tidy tick fin now w :
  tidy w → tidy (world_of (countdown_tick tick fin now w)).
Proof. intros Hok. tidy_op Hok. Qed.

Lemma beginBattle_tidy prog tick fin u w :
  tidy w → in_turn (BeginBattle prog tick fin u) w = true →
  tidy (world_of (beginBattle prog tick fin u w)).
Proof.
  intros Hok Hturn. unfold tidy, in_turn in *.
  destruct (battle w) as [b|] eqn:Hb.
  - destruct Hok as [Hts Hnone]. apply negb_true_iff in Hturn.
    destruct (started b) eqn:Hstarted.
    + exec_op Hb; tidy_close.
    + pose proof (Hnone (or_intror eq_refl)) as Hnil.
      exec_with Hb
        ltac:(first [rewrite Hstarted | rewrite Hnil | rewrite Hturn]);
        (split; [repeat constructor | simpl; intros [?|?]; congruence]).
  - exec_op Hb; tidy_close.
Qed.

Lemma owned_countdowns b b' ts :
  timerIntervalId b' = timerIntervalId b →
  Forall (owned b) ts →
  Forall (fun t => is_ai_timer t = false) ts →
  Forall (owned b') ts.
Proof.
  intros Hid Hts Hcount. induction ts as [|t ts IH]; [done|].
  apply Forall_cons in Hts as [Ht Hts].
  apply Forall_cons in Hcount as [Hc Hcount].
  apply Forall_cons. split; [|by apply IH].
  unfold owned, is_ai_timer in *.
  destruct (timer_body t); [congruence|discriminate].
Qed.

Lemma ai_step_tidy prog fin now u w b :
  battle w = Some b →
  Forall (owned b) (timers w) →
  Forall (fun t => is_ai_timer t = false) (timers w) →
  ended b = false → started b = true →
  tidy (world_of (ai_step prog fin now u w)).
Proof.
  intros Hb Hts Hcount He Hstarted. unfold tidy.
  exec_op Hb; tidy_close;
    (apply Forall_cons; split;
     [done | by apply (owned_countdowns b)]).
Qed.

Lemma disarm_fired b id t ts :
  Forall (owned b) ts →
  List.find (fun t => Nat.eqb (timer_id t) id) ts = Some t →
  is_ai_timer t = true →
  Forall (owned b) (disarm id ts)
  ∧ Forall (fun t => is_ai_timer t = false) (disarm id ts).
Proof.
  intros Hts Hfind Hai.
  split; [by apply Forall_disarm|].
  apply find_some in Hfind as [Hin Hid]. apply Nat.eqb_eq in Hid.
  assert (Hown : aiIntervalId b = Some id).
  { apply list_elem_of_In in Hin.
    pose proof (proj1 (Forall_forall _ _) Hts t Hin) as Ht.
    unfold owned, is_ai_timer in *.
    destruct (timer_body t); [discriminate|congruence]. }
  apply Forall_forall. intros t' Ht'.
  apply list_elem_of_filter in Ht' as [Hne Ht'].
  pose proof (proj1 (Forall_forall _ _) Hts t' Ht') as Hown'.
  unfold owned, is_ai_timer in *.
  destruct (timer_body t'); [done|congruence].
Qed.

Lemma fire_tidy id now u w :
  tidy w → tidy (world_of (fire id now u w)).
Proof.
  intros Hok. unfold fire.
  destruct (List.find _ (timers w)) as [t|] eqn:Hfind; [|done].
  destruct (timer_body t) as [tick fin|prog fin] eqn:Hbody.
  - by apply countdown_tick_tidy.
  - assert (Hsome : timers w ≠ []).
    { intros Hnil. rewrite Hnil in Hfind. discriminate Hfind. }
    unfold tidy in Hok. destruct (battle w) as [b|] eqn:Hb; [|done].
    destruct Hok as [Hts Hnone].
    destruct (disarm_fired b id t (timers w) Hts Hfind) as [Hts' Hcount].
    { unfold is_ai_timer. by rewrite Hbody. }
    apply (ai_step_tidy _ _ _ _ _ b); simpl; try done.
    + destruct (ended b); [|done]. exfalso. apply Hsome, Hnone. by left.
    + destruct (started b); [done|]. exfalso. apply Hsome, Hnone. by right.
Qed.

Lemma startBattle_tidy generate difficulty seed rand w :
  tidy w → in_turn (StartBattle difficulty seed rand) w = true →
  tidy (world_of (startBattle generate difficulty seed rand w)).
Proof.
  intros Hok Hturn. unfold startBattle, bind, lift.
  destruct (scan_cells _ all_cells []) as [cells|]; [|done].
  unfold tidy, in_turn in *. simpl.
  assert (Hnil : timers w = []).
  { destruct (battle w) as [b|]; [|done]. apply Hok. by left. }
  rewrite Hnil. split; [constructor|done].
Qed.

Lemma step_tidy generate e w :
  tidy w → in_turn e w = true → tidy (PvP.step generate e w).
Proof.
  intros Hok Hturn. destruct e; simpl.
  - by apply startBattle_tidy.
  - by apply beginBattle_tidy.
  - by apply playerPlace_tidy.
  - by apply playerErase_tidy.
  - by apply playerFinish_tidy.
  - by apply quitBattle_tidy.
  - by apply fire_tidy.
Qed.

Lemma startBattle_in_turn_on_track generate difficulty seed rand w :
  ai_on_track w → timers w = [] →
  ai_on_track (world_of (startBattle generate difficulty seed rand w)).
Proof.
  intros Hok Hnil. unfold startBattle, bind, lift.
  destruct (scan_cells _ all_cells []) as [cells|]; [|done].
  intros b Hb. simpl in Hb. injection Hb as <-. simpl.
  rewrite Hnil. change (ai_timers []) with 0%nat.
  repeat split; try done; lia.
Qed.

Lemma step_in_turn_on_track generate e w :
  tidy w → in_turn e w = true → ai_on_track w →
  ai_on_track (PvP.step generate e w).
Proof.
  intros Htidy Hturn Hok. destruct e; simpl.
  - apply startBattle_in_turn_on_track; [done|].
    unfold tidy, in_turn in *.
    destruct (battle w) as [b|]; [|done]. apply Htidy. by left.
  - by apply beginBattle_on_track.
  - by apply playerPlace_on_track.
  - by apply playerErase_on_track.
  - by apply playerFinish_on_track.
  - by apply quitBattle_on_track.
  - by apply fire_on_track.
Qed.

(** X24. When battles do not overlap ([startBattle] only once the
    previous session has ended, [beginBattle] not on an ended session),
    then from a fresh page on, whatever the calls and timer firings,
    every armed timer is the one whose id the current session holds,
    and no timer is armed without a session, before the battle has
    begun or after it has ended: termination clears both of them. The
    opponent's count of filled cells then stays within its total in
    every one of the battles. *)
Theorem timers_belong_to_the_session generate es :
  orderly generate es initial_world = true →
  let w := PvP.run generate es initial_world in
  tidy w
  ∧ ∀ b, battle w = Some b →
         0 ≤ aiCellsFilled b ≤ Z.max 1 (aiTotalCells b).
Proof.
  assert (H : ∀ w, tidy w → ai_on_track w →
                   orderly generate es w = true →
                   tidy (PvP.run generate es w)
                   ∧ ai_on_track (PvP.run generate es w)).
  { induction es as [|e es IH]; intros w Htidy Hok Hes; [done|].
    simpl in Hes. apply andb_true_iff in Hes as [He Hes].
    simpl. apply IH;
      [by apply step_tidy | by apply step_in_turn_on_track | done]. }
  intros Hes w.
  destruct (H initial_world) as [Htidy Hok]; [done| |done|].
  { intros b Hb. discriminate Hb. }
  split; [done|]. intros b Hb. by apply (Hok b Hb).
Qed.

Lemma timers_belong_to_the_session_witness :
  let es := [ StartBattle "easy" 1 zeros;
              BeginBattle None None None (halves 0%nat);
              Fire 2 "2024-01-01" (halves 0%nat);
              QuitBattle None "2024-01-01";
              StartBattle "hard" 2 zeros;
              BeginBattle None None None (halves 0%nat);
              Fire 5 "2024-01-02" (halves 0%nat) ] in
  let w := PvP.run (generate_with [(0, 0); (4, 5)]%nat) es initial_world in
  tidy w
  ∧ (timer_id <$> timers w) = [6; 4]%nat
  ∧ ∃ b, battle w = Some b
         ∧ aiCellsFilled b = 1
         ∧ 0 ≤ aiCellsFilled b ≤ Z.max 1 (aiTotalCells b).
Proof.
  intros es w.
  destruct (timers_belong_to_the_session
              (generate_with [(0, 0); (4, 5)]%nat) es)
    as [Htidy Hbound]; [by vm_compute|].
  split; [exact Htidy|]. split; [by vm_compute|].
  assert (Hb : ∃ b, battle w = Some b ∧ aiCellsFilled b = 1).
  { eexists. split; by vm_compute. }
  destruct Hb as (b & Hb & Hfilled).
  exists b. split; [exact Hb|]. split; [exact Hfilled|].
  exact (Hbound b Hb).
Defined.

Lemma render_cells_ok b cells :
  boards9 b → (∀ rc, rc ∈ cells → (rc.1 < 9)%nat ∧ (rc.2 < 9)%nat) →
  UI.render_cells b cells = Some tt.
Proof.
  intros (Ho & Hs & Hp) Hin. induction cells as [|rc cells IH]; [done|].
  destruct (Hin rc) as [Hr Hc]; [by left|].
  assert (Hcell : UI.render_cell b rc = Some tt).
  { unfold UI.render_cell.
    destruct (grid9_get _ _ _ Hp Hr Hc) as (? & v & _ & _ & ->).
    destruct (grid9_get _ _ _ Ho Hr Hc) as (? & o & _ & _ & ->).
    destruct (grid9_get _ _ _ Hs Hr Hc) as (? & sv & _ & _ & ->).
    simpl. by destruct (negb (strict_eq v (JNum 0)) && strict_eq o (JNum 0)). }
  simpl. rewrite Hcell. apply IH. intros rc' Hrc'. apply Hin. by right.
Qed.

Lemma startBattle_fresh generate difficulty seed rand w :
  grid9 (gen_puzzle (generate difficulty seed)) →
  grid9 (gen_solution (generate difficulty seed)) →
  ∃ b, startBattle generate difficulty seed rand w
       = Return b (with_battle (Some b) w)
       ∧ boards9 b
       ∧ started b = false ∧ ended b = false ∧ aiFinished b = false
       ∧ timeRemaining b = BATTLE_TIME ∧ playerCellsFilled b = 0.
Proof.
  intros Hp Hs. pose proof Hp as [Hp9 _]. pose proof Hs as [Hs9 _].
  unfold startBattle, bind, lift.
  rewrite (scan_cells_spec _ _ [] Hp9 Hs9)
    by (intros rc Hrc; by apply all_cells_rows).
  cbv beta iota zeta. eexists. split; [reflexivity|].
  unfold boards9.
  cbn [original solution playerBoard started ended aiFinished
       timeRemaining playerCellsFilled].
  unfold cloneGrid. done.
Qed.

(** X25. When the generator returns 9×9 grids, the end of matchmaking
    always leaves a battle that has begun: drawing the board reads only
    cells that exist, so [beginBattle] is reached; the session is
    started and not ended, its clock is at 600, nothing is selected, and
    exactly two more timers are armed, the countdown and the opponent's
    first move, with the ids the session holds. *)
Theorem matchFound_begins_battle generate difficulty seed rand u s :
  let s' := UI.matchFound generate difficulty seed rand u s in
  let w := UI.engine s in
  grid9 (gen_puzzle (generate difficulty seed)) →
  grid9 (gen_solution (generate difficulty seed)) →
  ∃ b d1 d2,
    battle (UI.engine s') = Some b
    ∧ started b = true ∧ ended b = false
    ∧ timeRemaining b = BATTLE_TIME ∧ playerCellsFilled b = 0
    ∧ UI.battleSelectedCell s' = None
    ∧ timerIntervalId b = Some (nextTimerId w)
    ∧ aiIntervalId b = Some (S (nextTimerId w))
    ∧ timers (UI.engine s')
      = {| timer_id := S (nextTimerId w);
           timer_body := AIStep UI.progress_closure UI.result_closure;
           timer_delay := d2 |}
        :: {| timer_id := nextTimerId w;
              timer_body := Countdown UI.timer_closure UI.result_closure;
              timer_delay := d1 |}
        :: timers w.
Proof.
  intros s' w Hp Hs. subst s' w. unfold UI.matchFound.
  destruct (startBattle_fresh generate difficulty seed rand (UI.engine s)
              Hp Hs)
    as (b & -> & Hboards & Hstarted & Hended & Hai & Hclock & Hfilled).
  unfold UI.renderBattleBoard, getBattle. cbn [battle with_battle].
  rewrite (render_cells_ok b all_cells Hboards all_cells_rows).
  assert (Hb : battle (with_battle (Some b) (UI.engine s)) = Some b)
    by reflexivity.
  exec_with Hb
    ltac:(first [rewrite Hstarted | rewrite Hended | rewrite Hai]).
  eexists _, _, _. repeat split; done.
Qed.

Lemma matchFound_begins_battle_witness :
  let s' := UI.matchFound (generate_with [(0, 0); (4, 5)]%nat) "medium" 1
              zeros (halves 0%nat) UI.initial in
  ∃ b, battle (UI.engine s') = Some b
       ∧ started b = true
       ∧ timerIntervalId b = Some 1%nat ∧ aiIntervalId b = Some 2%nat.
Proof.
  intros s'.
  destruct (matchFound_begins_battle
              (generate_with [(0, 0); (4, 5)]%nat) "medium" 1%nat
              zeros (halves 0%nat) UI.initial)
    as (b & d1 & d2 & Hb & Hstarted & _ & _ & _ & _ & Htimer & Hmove & _).
  - split; [reflexivity|]. repeat constructor.
  - split; [reflexivity|]. repeat constructor.
  - exists b. split; [exact Hb|]. split; [exact Hstarted|].
    split; [exact Htimer|exact Hmove].
Defined.

End EngineInvariants.
